(** * Jr_py_writer: a shallow embedding of [jr_py_writer/handler_file.py]

    The development models the [FileHandler] class (buffering, slot pool,
    rotation, retry/backoff, batch dispatch, configuration and teardown) and
    the batching helpers of [jr_py_writer/utils/utilities.py] as functions in
    a state-and-exception monad, and the synchronous protocol of the
    [GCManager] class of that file as functions on the collector and the
    manager, and proves properties of them.

    Modelling conventions.
    - A Python [str] is a list of Unicode code points ([list N]); bytes on
      disk are a list of byte values.  [len(s.encode("utf-8"))] is the length
      of the UTF-8 encoding, [StringIO.tell()] a count of code points.
    - Python [int] is [Z]; Python [float] settings are finite numbers,
      modelled as rationals ([Q]) without rounding.  The float power and
      [time.sleep] raise [OverflowError] beyond the largest [float] and the
      longest wait of the clock; infinity and NaN are not represented.
    - The file system is a finite map from paths to file contents; only
      regular files are tracked (directories always exist), and text files
      use the POSIX newline convention.
    - An open file object lives in the slot pool and is identified with its
      path; bytes given to [write] reach the file at once.  The model thus
      has no unflushed text: it describes a handler whose writes have
      reached the disk, as they have with [use_write_flush] set, after
      [writer_force_flush] and after a close.  Statements about the files
      at the return of a write assume that setting.
    - [file.write], [file.flush] and [file.close] may fail for reasons
      outside the program: the platform supplies [io_fault], a schedule
      telling for every such operation whether it raises [OSError].
    - Besides the attributes of the handler the state carries what an
      observer of a run can see: the files, the number of fallible I/O
      operations so far, the seconds slept ([clock]) and a [trace] of the
      calls of [file.write], of the tasks accepted by the worker pool and
      of the [GCManager] blocks entered.
    - Tasks submitted to the worker pool run to completion in submission
      order; the logger sink is not modelled. *)

From Stdlib Require Import ZArith QArith Qpower Lia List Ascii String.
From stdpp Require Import base option list gmap strings pretty.

Local Open Scope Z_scope.

(* ================================================================== *)
(** ** Python strings and UTF-8 *)

Definition pystr := list N.

(** A literal, for readable examples. *)
Definition py (s : string) : pystr := N_of_ascii <$> list_ascii_of_string s.

(** [str.isspace] on one code point. *)
Definition is_whitespace (c : N) : bool :=
  ((9 <=? c) && (c <=? 13) || (28 <=? c) && (c <=? 32) || (c =? 133)
   || (c =? 160) || (c =? 5760) || (8192 <=? c) && (c <=? 8202)
   || (c =? 8232) || (c =? 8233) || (c =? 8239) || (c =? 8287)
   || (c =? 12288))%N.

Fixpoint lstrip (s : pystr) : pystr :=
  match s with
  | [] => []
  | c :: r => if is_whitespace c then lstrip r else s
  end.

Definition rstrip (s : pystr) : pystr := rev (lstrip (rev s)).

(** [s.strip()] *)
Definition strip (s : pystr) : pystr := rstrip (lstrip s).

(** UTF-8 encoding of one code point; lone surrogates are not encodable. *)
Definition utf8_encode_cp (c : N) : option (list N) :=
  (if c <? 0x80 then Some [c]
   else if c <? 0x800 then Some [0xC0 + c / 64; 0x80 + c mod 64]
   else if (0xD800 <=? c) && (c <=? 0xDFFF) then None
   else if c <? 0x10000 then
     Some [0xE0 + c / 4096; 0x80 + (c / 64) mod 64; 0x80 + c mod 64]
   else
     Some [0xF0 + c / 262144; 0x80 + (c / 4096) mod 64;
           0x80 + (c / 64) mod 64; 0x80 + c mod 64])%N.

(** [s.encode("utf-8")]; [None] stands for [UnicodeEncodeError]. *)
Fixpoint utf8_encode (s : pystr) : option (list N) :=
  match s with
  | [] => Some []
  | c :: r =>
      match utf8_encode_cp c, utf8_encode r with
      | Some b, Some bs => Some (b ++ bs)
      | _, _ => None
      end
  end.

(* ================================================================== *)
(** ** Paths ([pathlib.Path]) *)

Record Path := mkPath { parent : pystr; name : pystr }.

Global Instance Path_eq_dec : EqDecision Path.
Proof. solve_decision. Defined.

Global Instance Path_countable : Countable Path.
Proof.
  refine (inj_countable' (λ p, (parent p, name p))
                         (λ q, mkPath q.1 q.2) _).
  by intros [].
Defined.

(** [s.rfind(c)] *)
Fixpoint rfind (c : N) (s : pystr) : option nat :=
  match s with
  | [] => None
  | x :: r =>
      match rfind c r with
      | Some i => Some (S i)
      | None => if (x =? c)%N then Some 0%nat else None
      end
  end.

(** [(path.stem, path.suffix)]: the name is split at its last dot, unless
    that dot is the first or the last character. *)
Definition split_suffix (nm : pystr) : pystr * pystr :=
  match rfind 46 nm with
  | Some i =>
      if ((0 <? i) && (i <? length nm - 1))%nat
      then (take i nm, drop i nm) else (nm, [])
  | None => (nm, [])
  end.

Definition stem (p : Path) : pystr := (split_suffix (name p)).1.
Definition suffix (p : Path) : pystr := (split_suffix (name p)).2.

(** [path.with_name(n)]: [None] stands for the [ValueError] raised when the
    path has an empty name. *)
Definition with_name (p : Path) (n : pystr) : option Path :=
  match name p with
  | [] => None
  | _ => Some (mkPath (parent p) n)
  end.

(** [f"{path.stem}_{i}{path.suffix}"] *)
Definition rotated_name (p : Path) (i : Z) : pystr :=
  stem p ++ py "_" ++ py (pretty i) ++ suffix p.

(** [path.with_name(f"{path.stem}_{i}{path.suffix}")] for a named path. *)
Definition sibling (p : Path) (i : Z) : Path :=
  mkPath (parent p) (rotated_name p i).

(* ================================================================== *)
(** ** Exceptions *)

Inductive exn_class :=
| ValueError | TypeError | KeyError | AttributeError | RuntimeError
| OverflowError | OSError | FileNotFoundError | UnicodeEncodeError
| FileHandlerConstructionError | FileHandlerSettingsError
| FileHandlerSyncPoolInitError | FileHandlerSyncPoolCleanupError
| FileHandlerWriteError | FileHandlerAsyncWriteError
| FileHandleRotateError | FileHandlerConfigError | FileHandlerBufferError
| FileHandlerFlushError | FileHandlerShutdownError | FileHandlerResumeError
| FileHandlerResetError.

(** What the message of an exception says. *)
Inductive what :=
| EmptyPathList
| NameTooLong (p : Path)
| NegativeSetting
| OutOfRange
| NoBuffer
| EmptyMessage
| EmptyData
| MissingArgument
| EmptyName (p : Path)
| NoSuchFile (p : Path)
| NotWritable (p : Path)
| NotOpen (p : Path)
| ClosedFile (p : Path)
| IOFault (p : Path)
| NotEncodable
| FailedAfterAttempts (p : Path) (attempts : Z)
| ErrorWritingTo (batch : list Path)
| ErrorFlushing (p : Path)
| CannotScheduleAfterShutdown
| TooLarge
| Rewrapped.

Inductive exn :=
| Exn (cls : exn_class) (msg : what)                    (* raise cls(msg) *)
| ExnFrom (cls : exn_class) (msg : what) (cause : exn). (* raise cls(msg) from cause *)

Definition exn_cls (e : exn) : exn_class :=
  match e with Exn c _ | ExnFrom c _ _ => c end.

(* ================================================================== *)
(** ** The handler and its world *)

Inductive LogWriteMode := APPEND | OVERWRITE | READ | READ_WRITE | WRITE_READ.

(** An open text file: its mode, its write position (unused in append
    mode) and whether it has been closed. *)
Record FileObj := mkFile { f_mode : LogWriteMode; f_pos : nat; f_closed : bool }.

(** [ThreadPoolExecutor] *)
Record Executor := mkExecutor { _shutdown : bool; _max_workers : Z }.

Inductive event :=
| EvWrite (p : Path) (at_time : Q) (ok : bool)   (* one call of file.write *)
| EvSubmit (batch : list Path)                  (* a task accepted by the pool *)
| EvGCManager.                                  (* a GCManager block was entered *)

Record state := mkState {
  _file_paths : list Path;
  _write_mode : LogWriteMode;
  _retry_limit : Z;
  _retry_delay : Q;
  _backoff_factor : Q;
  _max_file_size : Z;
  _max_rotation : Z;
  _max_buffer_size : Z;
  _use_write_flush : bool;
  _temp_sync_pool : list (Path * FileObj);   (* a dict, in insertion order *)
  _threadpool : Executor;
  _buffer : option pystr;                    (* StringIO, position at the end *)
  fs : gmap Path (list N);                   (* the files on disk *)
  io_count : nat;                            (* fallible I/O operations so far *)
  clock : Q;                                 (* seconds slept so far *)
  trace : list event                         (* newest first *)
}.

(** The platform the handler runs on. *)
Class Platform := {
  io_fault : nat → bool;      (* does the n-th fallible I/O operation fail? *)
  cpu_count : option Z;       (* os.cpu_count() *)
  os_name_nt : bool           (* os.name == "nt" *)
}.

Definition set_file_paths (v : list Path) (s : state) : state :=
  let 'mkState _ a2 a3 a4 a5 a6 a7 a8 a9 a10 a11 a12 a13 a14 a15 a16 := s in
  mkState v a2 a3 a4 a5 a6 a7 a8 a9 a10 a11 a12 a13 a14 a15 a16.
Definition set_write_mode (v : LogWriteMode) (s : state) : state :=
  let 'mkState a1 _ a3 a4 a5 a6 a7 a8 a9 a10 a11 a12 a13 a14 a15 a16 := s in
  mkState a1 v a3 a4 a5 a6 a7 a8 a9 a10 a11 a12 a13 a14 a15 a16.
Definition set_retry_limit (v : Z) (s : state) : state :=
  let 'mkState a1 a2 _ a4 a5 a6 a7 a8 a9 a10 a11 a12 a13 a14 a15 a16 := s in
  mkState a1 a2 v a4 a5 a6 a7 a8 a9 a10 a11 a12 a13 a14 a15 a16.
Definition set_retry_delay (v : Q) (s : state) : state :=
  let 'mkState a1 a2 a3 _ a5 a6 a7 a8 a9 a10 a11 a12 a13 a14 a15 a16 := s in
  mkState a1 a2 a3 v a5 a6 a7 a8 a9 a10 a11 a12 a13 a14 a15 a16.
Definition set_backoff_factor (v : Q) (s : state) : state :=
  let 'mkState a1 a2 a3 a4 _ a6 a7 a8 a9 a10 a11 a12 a13 a14 a15 a16 := s in
  mkState a1 a2 a3 a4 v a6 a7 a8 a9 a10 a11 a12 a13 a14 a15 a16.
Definition set_max_file_size (v : Z) (s : state) : state :=
  let 'mkState a1 a2 a3 a4 a5 _ a7 a8 a9 a10 a11 a12 a13 a14 a15 a16 := s in
  mkState a1 a2 a3 a4 a5 v a7 a8 a9 a10 a11 a12 a13 a14 a15 a16.
Definition set_max_rotation (v : Z) (s : state) : state :=
  let 'mkState a1 a2 a3 a4 a5 a6 _ a8 a9 a10 a11 a12 a13 a14 a15 a16 := s in
  mkState a1 a2 a3 a4 a5 a6 v a8 a9 a10 a11 a12 a13 a14 a15 a16.
Definition set_max_buffer_size (v : Z) (s : state) : state :=
  let 'mkState a1 a2 a3 a4 a5 a6 a7 _ a9 a10 a11 a12 a13 a14 a15 a16 := s in
  mkState a1 a2 a3 a4 a5 a6 a7 v a9 a10 a11 a12 a13 a14 a15 a16.
Definition set_use_write_flush (v : bool) (s : state) : state :=
  let 'mkState a1 a2 a3 a4 a5 a6 a7 a8 _ a10 a11 a12 a13 a14 a15 a16 := s in
  mkState a1 a2 a3 a4 a5 a6 a7 a8 v a10 a11 a12 a13 a14 a15 a16.
Definition set_pool (v : list (Path * FileObj)) (s : state) : state :=
  let 'mkState a1 a2 a3 a4 a5 a6 a7 a8 a9 _ a11 a12 a13 a14 a15 a16 := s in
  mkState a1 a2 a3 a4 a5 a6 a7 a8 a9 v a11 a12 a13 a14 a15 a16.
Definition set_threadpool (v : Executor) (s : state) : state :=
  let 'mkState a1 a2 a3 a4 a5 a6 a7 a8 a9 a10 _ a12 a13 a14 a15 a16 := s in
  mkState a1 a2 a3 a4 a5 a6 a7 a8 a9 a10 v a12 a13 a14 a15 a16.
Definition set_buffer (v : option pystr) (s : state) : state :=
  let 'mkState a1 a2 a3 a4 a5 a6 a7 a8 a9 a10 a11 _ a13 a14 a15 a16 := s in
  mkState a1 a2 a3 a4 a5 a6 a7 a8 a9 a10 a11 v a13 a14 a15 a16.
Definition set_fs (v : gmap Path (list N)) (s : state) : state :=
  let 'mkState a1 a2 a3 a4 a5 a6 a7 a8 a9 a10 a11 a12 _ a14 a15 a16 := s in
  mkState a1 a2 a3 a4 a5 a6 a7 a8 a9 a10 a11 a12 v a14 a15 a16.
Definition set_io_count (v : nat) (s : state) : state :=
  let 'mkState a1 a2 a3 a4 a5 a6 a7 a8 a9 a10 a11 a12 a13 _ a15 a16 := s in
  mkState a1 a2 a3 a4 a5 a6 a7 a8 a9 a10 a11 a12 a13 v a15 a16.
Definition set_clock (v : Q) (s : state) : state :=
  let 'mkState a1 a2 a3 a4 a5 a6 a7 a8 a9 a10 a11 a12 a13 a14 _ a16 := s in
  mkState a1 a2 a3 a4 a5 a6 a7 a8 a9 a10 a11 a12 a13 a14 v a16.
Definition set_trace (v : list event) (s : state) : state :=
  let 'mkState a1 a2 a3 a4 a5 a6 a7 a8 a9 a10 a11 a12 a13 a14 a15 _ := s in
  mkState a1 a2 a3 a4 a5 a6 a7 a8 a9 a10 a11 a12 a13 a14 a15 v.

(* ================================================================== *)
(** ** The state-and-exception monad

    A raised exception keeps the state reached so far, as in Python. *)

Inductive result (A : Type) := Ok (a : A) | Raise (e : exn).
Arguments Ok {A} a.
Arguments Raise {A} e.

Definition M (A : Type) : Type := state → result A * state.

Global Instance M_ret : MRet M := λ A a s, (Ok a, s).
Global Instance M_bind : MBind M := λ A B k m s,
  match m s with
  | (Ok a, s') => k a s'
  | (Raise e, s') => (Raise e, s')
  end.

Definition raise {A} (e : exn) : M A := λ s, (Raise e, s).
Definition gets {A} (f : state → A) : M A := λ s, (Ok (f s), s).
Definition modify (f : state → state) : M unit := λ s, (Ok tt, f s).

(** [try: m  except Exception as e: h e] *)
Definition try_except {A} (m : M A) (h : exn → M A) : M A := λ s,
  match m s with
  | (Ok a, s') => (Ok a, s')
  | (Raise e, s') => h e s'
  end.

(** [try: m  finally: fin] *)
Definition try_finally {A} (m : M A) (fin : M unit) : M A := λ s,
  match m s with
  | (Ok a, s') =>
      match fin s' with
      | (Ok _, s'') => (Ok a, s'')
      | (Raise e, s'') => (Raise e, s'')
      end
  | (Raise e, s') =>
      match fin s' with
      | (Ok _, s'') => (Raise e, s'')
      | (Raise e', s'') => (Raise e', s'')
      end
  end.

(** [for x in l: body x] *)
Fixpoint for_each {A} (l : list A) (body : A → M unit) : M unit :=
  match l with
  | [] => mret tt
  | x :: r => body x;; for_each r body
  end.

(** [if b: m] *)
Definition when (b : bool) (m : M unit) : M unit := if b then m else mret tt.

(** [raise cls(...) from e] around a whole method body. *)
Definition wrapping {A} (cls : exn_class) (m : M A) : M A :=
  try_except m (λ e, raise (ExnFrom cls Rewrapped e)).

(* ================================================================== *)
(** ** The slot pool as an insertion-ordered dictionary *)

Fixpoint pool_get (p : Path) (pool : list (Path * FileObj)) : option FileObj :=
  match pool with
  | [] => None
  | (q, f) :: r => if decide (q = p) then Some f else pool_get p r
  end.

Fixpoint pool_set (p : Path) (f : FileObj) (pool : list (Path * FileObj))
  : list (Path * FileObj) :=
  match pool with
  | [] => [(p, f)]
  | (q, g) :: r =>
      if decide (q = p) then (q, f) :: r else (q, g) :: pool_set p f r
  end.

Fixpoint pool_del (p : Path) (pool : list (Path * FileObj))
  : list (Path * FileObj) :=
  match pool with
  | [] => []
  | (q, g) :: r =>
      if decide (q = p) then pool_del p r else (q, g) :: pool_del p r
  end.

(** [range(hi, 0, -1)] *)
Definition range_down (hi : Z) : list Z :=
  Z.of_nat <$> rev (seq 1 (Z.to_nat hi)).

(** The bytes of a file after [bytes] are written through [f]. *)
Definition write_bytes (f : FileObj) (bytes content : list N) : list N :=
  match f_mode f with
  | APPEND => content ++ bytes
  | _ => resize (f_pos f) 0%N content ++ bytes
           ++ drop (f_pos f + length bytes) content
  end.

Definition writable (f : FileObj) : bool :=
  match f_mode f with READ => false | _ => true end.

Section Handler.
Context `{Platform}.

(* ------------------------------------------------------------------ *)
(** *** Primitive effects *)

(** An operation that the platform may make fail. *)
Definition fallible (e : exn) : M unit := λ s,
  let s' := set_io_count (S (io_count s)) s in
  if io_fault (io_count s) then (Raise e, s') else (Ok tt, s').

Definition emit (ev : event) : M unit :=
  modify (λ s, set_trace (ev :: trace s) s).

(** The largest finite [float], [(2 - 2^-52) * 2^1023]. *)
Definition float_max : Q := inject_Z (2 ^ 1024 - 2 ^ 971).

(** The longest wait that [time.sleep] accepts: the seconds are converted
    to a signed 64-bit count of nanoseconds. *)
Definition sleep_max : Q := inject_Z (2 ^ 63 - 1) / inject_Z (10 ^ 9).

(** [x ** n] on a [float] and a non-negative [int]: a result beyond the
    largest [float] raises [OverflowError]. *)
Definition float_pow (x : Q) (n : Z) : M Q :=
  if Qlt_le_dec float_max (x ^ n) then raise (Exn OverflowError TooLarge)
  else mret (x ^ n)%Q.

(** [time.sleep(d)]: a negative wait is a [ValueError], a wait that does
    not fit the clock (infinity included) an [OverflowError]. *)
Definition sleep (d : Q) : M unit :=
  if Qlt_le_dec d 0 then raise (Exn ValueError NegativeSetting)
  else if Qlt_le_dec sleep_max d then raise (Exn OverflowError TooLarge)
  else modify (λ s, set_clock (clock s + d)%Q s).

Definition path_exists (p : Path) : M bool :=
  gets (λ s, bool_decide (is_Some (fs s !! p))).

(** [path.unlink()] *)
Definition unlink (p : Path) : M unit :=
  files ← gets fs;
  match files !! p with
  | None => raise (Exn FileNotFoundError (NoSuchFile p))
  | Some _ => modify (set_fs (delete p files))
  end.

(** [src.rename(dst)] *)
Definition rename (src dst : Path) : M unit :=
  files ← gets fs;
  match files !! src with
  | None => raise (Exn FileNotFoundError (NoSuchFile src))
  | Some c => modify (set_fs (<[dst := c]> (delete src files)))
  end.

(** [path.touch()] *)
Definition touch (p : Path) : M unit :=
  files ← gets fs;
  match files !! p with
  | None => modify (set_fs (<[p := []]> files))
  | Some _ => mret tt
  end.

(** [path.write_text("", encoding="utf-8")] *)
Definition write_text_empty (p : Path) : M unit :=
  modify (λ s, set_fs (<[p := []]> (fs s)) s).

(** [open(path, mode, encoding="utf-8")] *)
Definition py_open (p : Path) (mode : LogWriteMode) : M FileObj :=
  files ← gets fs;
  match mode with
  | APPEND =>
      match files !! p with
      | None => modify (set_fs (<[p := []]> files))
      | Some _ => mret tt
      end;;
      mret (mkFile mode 0 false)
  | OVERWRITE | WRITE_READ =>
      modify (set_fs (<[p := []]> files));;
      mret (mkFile mode 0 false)
  | READ | READ_WRITE =>
      match files !! p with
      | None => raise (Exn FileNotFoundError (NoSuchFile p))
      | Some _ => mret (mkFile mode 0 false)
      end
  end.

Definition pool_pop (p : Path) : M unit :=
  modify (λ s, set_pool (pool_del p (_temp_sync_pool s)) s).

Definition pool_put (p : Path) (f : FileObj) : M unit :=
  modify (λ s, set_pool (pool_set p f (_temp_sync_pool s)) s).

(** The file object stored for [p], [None] when the pool has none. *)
Definition pool_lookup (p : Path) : M (option FileObj) :=
  gets (λ s, pool_get p (_temp_sync_pool s)).

(** [file.write(text)] on the file object of slot [p]. *)
Definition file_write (p : Path) (text : pystr) : M unit :=
  o ← pool_lookup p;
  now ← gets clock;
  match o with
  | None => raise (Exn RuntimeError (NotOpen p))
  | Some f =>
      if f_closed f then
        emit (EvWrite p now false);; raise (Exn ValueError (ClosedFile p))
      else
        match utf8_encode text with
        | None =>
            emit (EvWrite p now false);;
            raise (Exn UnicodeEncodeError NotEncodable)
        | Some bytes =>
            try_except (fallible (Exn OSError (IOFault p)))
              (λ e, emit (EvWrite p now false);; raise e);;
            emit (EvWrite p now true);;
            modify (λ s, match fs s !! p with
                         | Some c => set_fs (<[p := write_bytes f bytes c]> (fs s)) s
                         | None => s   (* unlinked while open: the bytes are lost *)
                         end);;
            pool_put p (mkFile (f_mode f) (f_pos f + length bytes) false)
        end
  end.

(** [file.flush()] *)
Definition file_flush (p : Path) : M unit :=
  o ← pool_lookup p;
  match o with
  | None => raise (Exn RuntimeError (NotOpen p))
  | Some f =>
      if f_closed f then raise (Exn ValueError (ClosedFile p))
      else fallible (Exn OSError (IOFault p))
  end.

(** [file.close()]: closing twice is harmless; a failing final flush still
    leaves the file closed. *)
Definition file_close (p : Path) : M unit :=
  o ← pool_lookup p;
  match o with
  | None => raise (Exn RuntimeError (NotOpen p))
  | Some f =>
      if f_closed f then mret tt
      else
        pool_put p (mkFile (f_mode f) (f_pos f) true);;
        fallible (Exn OSError (IOFault p))
  end.

(** [path.with_name(n)] *)
Definition path_with_name (p : Path) (n : pystr) : M Path :=
  match with_name p n with
  | Some q => mret q
  | None => raise (Exn ValueError (EmptyName p))
  end.

(* ------------------------------------------------------------------ *)
(** *** Helpers *)

(** Directories are not tracked: the parents always exist. *)
Definition _ensure_parent_dirs (path : Path) : M unit := mret tt.

Definition _create_file (path : Path) : M unit :=
  ex ← path_exists path;
  when (negb ex)
    (_ensure_parent_dirs path;;
     f ← py_open path OVERWRITE;
     when (negb (writable f)) (raise (Exn OSError (NotWritable path)))).

Definition _check_file_size (message : pystr) (path : Path) : M bool :=
  try_except
    (files ← gets fs;
     limit ← gets _max_file_size;
     match files !! path with
     | Some content =>
         match utf8_encode message with
         | None => raise (Exn UnicodeEncodeError NotEncodable)
         | Some b =>
             mret (bool_decide (limit < Z.of_nat (length content)
                                        + Z.of_nat (length b)))
         end
     | None =>
         (* the debug line calls path.stat() on the missing file *)
         raise (Exn FileNotFoundError (NoSuchFile path))
     end)
    (λ _, mret false).

(** The body of the loop of [_rotate_file]: move rotated file [i] up. *)
Definition shift_rotated (path : Path) (i : Z) : M unit :=
  rotated_file ← path_with_name path (rotated_name path i);
  next_rotated_file ← path_with_name path (rotated_name path (i + 1));
  ex ← path_exists rotated_file;
  when ex
    (ex' ← path_exists next_rotated_file;
     when ex' (unlink next_rotated_file);;
     rename rotated_file next_rotated_file).

(** The start of the locked block of [_rotate_file]: close the slot of the
    path and remove it from the pool. *)
Definition evict_slot (path : Path) : M unit :=
  o ← pool_lookup path;
  match o with
  | Some f =>
      when (negb (f_closed f)) (file_close path);;
      pool_pop path
  | None => mret tt
  end.

Definition _rotate_file (message : pystr) (path : Path) : M unit :=
  wrapping FileHandleRotateError
    (big ← _check_file_size message path;
     if negb big then mret tt
     else
       evict_slot path;;
       n ← gets _max_rotation;
       if n =? 0 then write_text_empty path
       else
         for_each (range_down (n - 1)) (shift_rotated path);;
         first_rotated_file ← path_with_name path (rotated_name path 1);
         ex ← path_exists first_rotated_file;
         when ex (unlink first_rotated_file);;
         rename path first_rotated_file;;
         touch path).

(* ------------------------------------------------------------------ *)
(** *** Pool handlers *)

Definition _init_sync_pool : M unit :=
  wrapping FileHandlerSyncPoolInitError
    (paths ← gets _file_paths;
     match paths with
     | [] => mret tt
     | _ =>
         for_each paths (λ path,
           o ← pool_lookup path;
           match o with
           | Some _ => mret tt                      (* continue *)
           | None =>
               _ensure_parent_dirs path;;
               _create_file path;;
               mode ← gets _write_mode;
               file ← py_open path mode;
               if negb (writable file) then
                 raise (Exn OSError (NotWritable path))
               else pool_put path file
           end)
     end).

Definition _ensure_sync_pool : M unit :=
  pool ← gets _temp_sync_pool;
  match pool with
  | [] => _init_sync_pool
  | _ => mret tt
  end.

(** The body of the loop of [clear_sync_pool]: close one slot, warn and go
    on if that fails, and always remove it from the pool. *)
Definition close_slot (path : Path) : M unit :=
  o ← pool_lookup path;
  match o with
  | None => raise (Exn KeyError (NotOpen path))
  | Some file =>
      try_finally
        (try_except
           (when (negb (f_closed file)) (file_flush path;; file_close path))
           (λ _, mret tt))
        (pool_pop path)
  end.

Definition clear_sync_pool : M unit :=
  wrapping FileHandlerSyncPoolCleanupError
    (pool ← gets _temp_sync_pool;
     match pool with
     | [] => mret tt
     | _ =>
         for_each (pool.*1) close_slot;;
         modify (set_pool [])      (* final clear as safety measure *)
     end).

(* ------------------------------------------------------------------ *)
(** *** Buffer *)

(** [self._buffer.tell()], with the position at the end of the content. *)
Definition tell (content : pystr) : Z := Z.of_nat (length content).

Definition _get_buffer_message : M pystr :=
  b ← gets _buffer;
  match b with
  | None => raise (Exn AttributeError NoBuffer)
  | Some content =>
      modify (set_buffer (Some []));;
      mret (strip content)
  end.

Definition _write_to_buffer (message : pystr) : M (option pystr) :=
  b ← gets _buffer;
  limit ← gets _max_buffer_size;
  proceed ← match b with
            | Some _ => mret true
            | None =>
                if 0 <? limit then modify (set_buffer (Some []));; mret true
                else mret false
            end;
  if negb proceed then mret None
  else
    b ← gets _buffer;
    match b, utf8_encode message with
    | Some content, Some bytes =>
        if limit <? tell content + Z.of_nat (length bytes) then
          drained ← _get_buffer_message; mret (Some drained)
        else
          modify (set_buffer (Some (content ++ message ++ [10%N])));;
          mret None
    | Some _, None => raise (Exn UnicodeEncodeError NotEncodable)
    | None, _ => raise (Exn AttributeError NoBuffer)
    end.

(** The [get_buffer_size] property. *)
Definition get_buffer_size (s : state) : Z :=
  match _buffer s with
  | Some content => tell content
  | None => 0
  end.

(* ------------------------------------------------------------------ *)
(** *** Batching helpers ([utils/utilities.py]) *)

(** [os.cpu_count() or d] *)
Definition cpu_count_or (d : Z) : Z :=
  match cpu_count with
  | Some c => if c =? 0 then d else c
  | None => d
  end.

Definition _calculate_batch_size {A} (data : list A) (batch_size : Z) : Z :=
  let data_len := Z.of_nat (length data) in
  let batch_size :=
    if batch_size <=? 0 then Z.max (cpu_count_or 1) 1 else batch_size in
  if data_len <=? batch_size then data_len
  else if data_len <? 1000 then Z.max batch_size 1
  else if data_len <=? 10000 then Z.max (batch_size * 2) (data_len / 4)
  else if data_len <=? 100000 then Z.max (batch_size * 4) (data_len / 8)
  else if data_len <=? 1000000 then Z.max (batch_size * 8) (data_len / 16)
  else if data_len <=? 10000000 then Z.max (batch_size * 16) (data_len / 32)
  else Z.max (batch_size * 32) (data_len / 64).

(** The loop [while True: batch = list(islice(it, n)); if not batch: break;
    yield batch]; it runs at most [fuel] times. *)
Fixpoint islice_batches {A} (fuel n : nat) (data : list A) : list (list A) :=
  match fuel with
  | O => []
  | S fuel' =>
      match take n data with
      | [] => []
      | batch => batch :: islice_batches fuel' n (drop n data)
      end
  end.

(** [list(batcher(data, batch_size))] *)
Definition batcher {A} (data : list A) (batch_size : Z) : M (list (list A)) :=
  match data with
  | [] => raise (Exn ValueError EmptyData)
  | _ =>
      let batch_size :=
        if batch_size <=? 0 then _calculate_batch_size data batch_size
        else batch_size in
      if Z.of_nat (length data) <=? batch_size then mret [data]
      else mret (islice_batches (S (length data)) (Z.to_nat batch_size) data)
  end.

(** [list(batcher_with_gcmanager(data, batch_size, max_memory_usage,
    wait_time))]: the same batches, sliced inside a [GCManager] block. *)
Definition batcher_with_gcmanager {A} (data : list A) (batch_size : Z)
    (max_memory_usage wait_time : Q) : M (list (list A)) :=
  if negb (Qle_bool 0 max_memory_usage && Qle_bool max_memory_usage 1) then
    raise (Exn ValueError OutOfRange)
  else if negb (Qle_bool 0 wait_time) then
    raise (Exn ValueError OutOfRange)
  else
    match data with
    | [] => raise (Exn ValueError EmptyData)
    | _ =>
        let batch_size :=
          if batch_size <=? 0 then _calculate_batch_size data batch_size
          else batch_size in
        if Z.of_nat (length data) <=? batch_size then mret [data]
        else
          emit EvGCManager;;
          mret (islice_batches (S (length data)) (Z.to_nat batch_size) data)
    end.

(* ------------------------------------------------------------------ *)
(** *** Writing to one file *)

(** One pass through the body of the [try] in the retry loop. *)
Definition write_attempt (path : Path) (message : pystr) : M unit :=
  file_write path (message ++ [10%N]);;
  flush ← gets _use_write_flush;
  when flush (file_flush path).

(** The wait between two attempts, after [counter] failures.  It runs
    inside the [except] block, so what it raises leaves the retry loop. *)
Definition backoff_wait (counter : Z) : M unit :=
  retry_delay ← gets _retry_delay;
  backoff_factor ← gets _backoff_factor;
  if Qlt_le_dec 0 retry_delay then
    if negb (Qeq_bool backoff_factor 0) then
      (* exponential backoff *)
      power ← float_pow backoff_factor (counter - 1);
      sleep (retry_delay * power)%Q
    else
      (* linear backoff *)
      sleep retry_delay
  else mret tt.

(** [for _ in range(iterations)] with [counter] failures so far. *)
Fixpoint retry_loop (iterations : nat) (counter : Z) (path : Path)
    (message : pystr) : M unit :=
  match iterations with
  | O => mret tt
  | S rest =>
      written ←
        try_except (write_attempt path message;; mret true)
          (λ e,
             let counter := counter + 1 in
             retry_limit ← gets _retry_limit;
             if retry_limit <=? counter then
               raise (ExnFrom RuntimeError
                        (FailedAfterAttempts path retry_limit) e)
             else backoff_wait counter;; mret false);
      if written : bool then mret tt
      else retry_loop rest (counter + 1) path message
  end.

(** The write with retry logic at the end of [_write_to_file]. *)
Definition write_with_retry (path : Path) (message : pystr) : M unit :=
  retry_limit ← gets _retry_limit;
  if 0 <? retry_limit then
    retry_loop (Z.to_nat retry_limit) 0 path message
  else
    o ← pool_lookup path;
    match o with
    | None => raise (Exn RuntimeError (NotOpen path))
    | Some file =>
        if f_closed file then raise (Exn RuntimeError (ClosedFile path))
        else write_attempt path message
    end.

Definition _write_to_file (path : Path) (message : pystr) : M unit :=
  (* check and rotate before writing *)
  big ← _check_file_size message path;
  when big
    (_rotate_file message path;;
     o ← pool_lookup path;
     match o with
     | Some _ => file_close path;; pool_pop path
     | None => mret tt
     end);;
  (* get the file from the temporary pool *)
  o ← pool_lookup path;
  match o with
  | Some _ => mret tt
  | None =>
      _ensure_parent_dirs path;;
      _create_file path;;
      mode ← gets _write_mode;
      file ← py_open path mode;
      if negb (writable file) then raise (Exn OSError (NotWritable path))
      else pool_put path file
  end;;
  write_with_retry path message.

(* ------------------------------------------------------------------ *)
(** *** The worker pool *)

(** Running a task inside a worker: its exception is kept in the future. *)
Definition run_task (task : M unit) : M (result unit) := λ s,
  let '(r, s') := task s in (Ok r, s').

(** [self._threadpool.submit(task)]: the future holds the task's outcome. *)
Definition submit (label : list Path) (task : M unit) : M (result unit) :=
  pool ← gets _threadpool;
  if _shutdown pool then
    raise (Exn RuntimeError CannotScheduleAfterShutdown)
  else
    emit (EvSubmit label);;
    run_task task.

(** [await loop.run_in_executor(self._threadpool, task)] *)
Definition run_in_executor (label : list Path) (task : M unit) : M unit :=
  future ← submit label task;
  match future with
  | Ok _ => mret tt
  | Raise e => raise e
  end.

(** [{submit(f(x)): x for x in xs}] *)
Fixpoint submit_all {A} (xs : list A) (label : A → list Path)
    (task : A → M unit) : M (list (A * result unit)) :=
  match xs with
  | [] => mret []
  | x :: r =>
      future ← submit (label x) (task x);
      futures ← submit_all r label task;
      mret ((x, future) :: futures)
  end.

(** [for future in as_completed(futures): ... future.result() ...] *)
Definition await_all {A} (futures : list (A * result unit))
    (label : A → list Path) : M unit :=
  for_each futures (λ xf,
    match xf.2 with
    | Ok _ => mret tt
    | Raise e => raise (ExnFrom RuntimeError (ErrorWritingTo (label xf.1)) e)
    end).

Definition _writer (message : pystr) : M unit :=
  paths ← gets _file_paths;
  match paths with
  | [] => raise (Exn ValueError EmptyPathList)
  | _ =>
      futures ← submit_all paths (λ path, [path])
                  (λ path, _write_to_file path message);
      await_all futures (λ path, [path])
  end.

Definition _log_batch (message : pystr) (path_batch : list Path) : M unit :=
  for_each path_batch (λ path, _write_to_file path message).

Definition _async_log_batch (message : pystr) (path_batch : list Path)
  : M unit :=
  run_in_executor path_batch (_log_batch message path_batch).

Definition _writer_handler (message : pystr) : M unit :=
  paths ← gets _file_paths;
  if 50 <? Z.of_nat (length paths) then
    batches_of_paths ← batcher paths (-1);
    futures ← submit_all batches_of_paths id (_log_batch message);
    await_all futures id
  else if 1000 <? Z.of_nat (length paths) then
    batches_of_paths ← batcher_with_gcmanager paths (-1) (8 # 10) (1 # 10);
    futures ← submit_all batches_of_paths id (_log_batch message);
    await_all futures id
  else
    for_each paths (λ path, _write_to_file path message).

Definition _async_writer (message : pystr) : M unit :=
  paths ← gets _file_paths;
  run_in_executor paths
    (paths ← gets _file_paths;
     for_each paths (λ path, _write_to_file path message)).

Definition _async_writer_handler (message : pystr) : M unit :=
  paths ← gets _file_paths;
  let len_of_file_paths := Z.of_nat (length paths) in
  if 50 <? len_of_file_paths then
    batches_of_paths ← batcher paths (-1);
    for_each batches_of_paths (_async_log_batch message)
  else if 1000 <? len_of_file_paths then
    batches_of_paths ← batcher_with_gcmanager paths (-1) (8 # 10) (1 # 10);
    for_each batches_of_paths (_async_log_batch message)
  else
    _async_writer message.

(* ------------------------------------------------------------------ *)
(** *** Flushing, thread pool management *)

Definition writer_force_flush : M unit :=
  wrapping FileHandlerFlushError
    (pool ← gets _temp_sync_pool;
     match pool with
     | [] => mret tt
     | _ =>
         for_each pool (λ entry,
           try_except
             (o ← pool_lookup entry.1;
              match o with
              | Some file => when (negb (f_closed file)) (file_flush entry.1)
              | None => raise (Exn KeyError (NotOpen entry.1))
              end)
             (λ e, raise (ExnFrom RuntimeError (ErrorFlushing entry.1) e)))
     end).

Definition buffer_force_flush : M unit :=
  wrapping FileHandlerBufferError
    (b ← gets _buffer;
     match b with
     | None => mret tt
     | Some content =>
         when (0 <? Z.of_nat (length content))
           (buffer_message ← _get_buffer_message;
            match buffer_message with
            | [] => mret tt
            | _ => _writer_handler buffer_message
            end);;
         writer_force_flush
     end).

(** [self._threadpool.shutdown(wait=...)] *)
Definition shutdown (wait : bool) : M unit :=
  modify (λ s, set_threadpool
                 (mkExecutor true (_max_workers (_threadpool s))) s).

Definition force_shutdown (wait : bool) : M unit :=
  pool ← gets _threadpool;
  when (negb (_shutdown pool))
    (wrapping FileHandlerShutdownError (shutdown wait)).

Definition resume_pool : M unit :=
  wrapping FileHandlerResumeError
    (pool ← gets _threadpool;
     when (_shutdown pool) (shutdown true);;
     paths ← gets _file_paths;
     let n := Z.of_nat (length paths) in
     let max_workers := if 1 <? n then Z.min n 4 else 1 in
     let max_workers :=
       if os_name_nt then Z.min max_workers 4
       else Z.min max_workers (cpu_count_or 4) in
     modify (set_threadpool (mkExecutor false max_workers))).

(* ------------------------------------------------------------------ *)
(** *** Logging *)

Definition log (message : pystr) : M unit :=
  wrapping FileHandlerWriteError
    (match strip message with
     | [] => raise (Exn ValueError EmptyMessage)
     | _ =>
         paths ← gets _file_paths;
         match paths with
         | [] => mret tt
         | _ =>
             _ensure_sync_pool;;
             limit ← gets _max_buffer_size;
             if 0 <? limit then
               buffer_message ← _write_to_buffer message;
               match buffer_message with
               | Some (c :: m) => _writer_handler (c :: m)
               | Some [] | None => mret tt
               end
             else _writer_handler message
         end
     end).

Definition async_log (message : pystr) : M unit :=
  wrapping FileHandlerAsyncWriteError
    (match strip message with
     | [] => raise (Exn ValueError EmptyMessage)
     | _ =>
         paths ← gets _file_paths;
         match paths with
         | [] => mret tt
         | _ =>
             _init_sync_pool;;
             limit ← gets _max_buffer_size;
             if 0 <? limit then
               buffer_message ← _write_to_buffer message;
               match buffer_message with
               | Some (c :: m) => _async_writer_handler (c :: m)
               | Some [] | None => mret tt
               end
             else _async_writer_handler message
         end
     end).

(* ------------------------------------------------------------------ *)
(** *** Teardown *)

Definition clear_all : M unit :=
  b ← gets _buffer;
  when (bool_decide (is_Some b)) buffer_force_flush;;
  clear_sync_pool;;
  modify (set_file_paths []);;
  pool ← gets _threadpool;
  when (negb (_shutdown pool)) (shutdown true).

Definition __exit__ : M unit :=
  b ← gets _buffer;
  when (bool_decide (is_Some b)) buffer_force_flush;;
  modify (set_file_paths []);;
  clear_sync_pool;;
  pool ← gets _threadpool;
  when (negb (_shutdown pool)) (shutdown true).

Definition __aexit__ : M unit :=
  b ← gets _buffer;
  when (bool_decide (is_Some b)) buffer_force_flush;;
  modify (set_file_paths []);;
  pool ← gets _threadpool;
  when (negb (_shutdown pool)) (shutdown true).

Definition __del__ : M unit :=
  try_except
    (b ← gets _buffer;
     when (bool_decide (is_Some b)) buffer_force_flush;;
     clear_sync_pool;;
     modify (set_file_paths []);;
     pool ← gets _threadpool;
     when (negb (_shutdown pool)) (shutdown true))
    (λ _, mret tt).

(* ------------------------------------------------------------------ *)
(** *** Setters and configuration *)

(** The setter of [file_paths].  Directories are not tracked, so the
    rejection of a path that is an existing directory cannot fire. *)
Definition file_paths_setter (paths : list Path) : M unit :=
  wrapping FileHandlerSettingsError
    (match paths with
     | [] => raise (Exn ValueError EmptyPathList)
     | _ =>
         for_each paths (λ path,
           when (255 <? Z.of_nat (length (name path)))
             (raise (Exn ValueError (NameTooLong path))));;
         modify (set_file_paths paths)
     end).

Definition write_mode_setter (mode : LogWriteMode) : M unit :=
  wrapping FileHandlerSettingsError (modify (set_write_mode mode)).

Definition retry_limit_setter (limit : Z) : M unit :=
  wrapping FileHandlerSettingsError
    (if limit <? 0 then raise (Exn ValueError NegativeSetting)
     else modify (set_retry_limit limit)).

Definition retry_delay_setter (delay : Q) : M unit :=
  wrapping FileHandlerSettingsError
    (if Qlt_le_dec delay 0 then raise (Exn ValueError NegativeSetting)
     else modify (set_retry_delay delay)).

Definition backoff_factor_setter (factor : Q) : M unit :=
  wrapping FileHandlerSettingsError
    (if Qlt_le_dec factor 0 then raise (Exn ValueError NegativeSetting)
     else modify (set_backoff_factor factor)).

Definition max_file_size_setter (size : Z) : M unit :=
  wrapping FileHandlerSettingsError
    (if size <? 0 then raise (Exn ValueError NegativeSetting)
     else modify (set_max_file_size size)).

Definition max_rotation_setter (rotation : Z) : M unit :=
  wrapping FileHandlerSettingsError
    (if rotation <? 0 then raise (Exn ValueError NegativeSetting)
     else modify (set_max_rotation rotation)).

Definition max_buffer_size_setter (size : Z) : M unit :=
  wrapping FileHandlerSettingsError
    (if size <? 0 then raise (Exn ValueError NegativeSetting)
     else modify (set_max_buffer_size size)).

Definition use_write_flush_setter (use_flush : bool) : M unit :=
  wrapping FileHandlerSettingsError (modify (set_use_write_flush use_flush)).

(** [if x is not None: self.field = x] *)
Definition unless_none {A} (x : option A) (setter : A → M unit) : M unit :=
  match x with
  | Some v => setter v
  | None => mret tt
  end.

(** The body of [config], on the parameter values it receives. *)
Definition config (file_paths : option (list Path))
    (write_mode : option LogWriteMode) (retry_limit : option Z)
    (retry_delay backoff_factor : option Q)
    (max_file_size max_rotation max_buffer_size : option Z)
    (use_write_flush : option bool) : M unit :=
  wrapping FileHandlerConfigError
    (unless_none file_paths file_paths_setter;;
     unless_none write_mode write_mode_setter;;
     unless_none retry_limit retry_limit_setter;;
     unless_none retry_delay retry_delay_setter;;
     unless_none backoff_factor backoff_factor_setter;;
     unless_none max_file_size max_file_size_setter;;
     unless_none max_rotation max_rotation_setter;;
     unless_none max_buffer_size max_buffer_size_setter;;
     unless_none use_write_flush use_write_flush_setter).

(** [reset(file_paths)]: the settings go back to fixed values. *)
Definition reset (file_paths : list Path) : M unit :=
  wrapping FileHandlerResetError
    (file_paths_setter file_paths;;
     write_mode_setter APPEND;;
     retry_limit_setter 3;;
     retry_delay_setter (5 # 10);;
     backoff_factor_setter (2 # 10);;
     max_file_size_setter (10 * 1024 * 1024);;
     max_rotation_setter 2;;
     max_buffer_size_setter (1024 * 1024);;
     use_write_flush_setter true).

(** The constructor, run on a handler object that has no attributes yet. *)
Definition __init__ (file_paths : list Path) (write_mode : LogWriteMode)
    (retry_limit : Z) (retry_delay backoff_factor : Q)
    (max_file_size max_rotation max_buffer_size : Z)
    (use_write_flush : bool) : M unit :=
  wrapping FileHandlerConstructionError
    (file_paths_setter file_paths;;
     write_mode_setter write_mode;;
     retry_limit_setter retry_limit;;
     retry_delay_setter retry_delay;;
     backoff_factor_setter backoff_factor;;
     max_file_size_setter max_file_size;;
     max_rotation_setter max_rotation;;
     max_buffer_size_setter max_buffer_size;;
     use_write_flush_setter use_write_flush;;
     modify (set_pool []);;
     let n := Z.of_nat (length file_paths) in
     let max_workers := if 1 <? n then Z.min n 4 else 1 in
     let max_workers :=
       if os_name_nt then Z.min max_workers 4
       else Z.min max_workers (cpu_count_or 4) in
     modify (set_threadpool (mkExecutor false max_workers));;
     modify (set_buffer (Some []))).

End Handler.

(** The memory of a handler before [__init__] has run, in a world with the
    given files. *)
Definition unborn (files : gmap Path (list N)) : state :=
  mkState [] APPEND 0 0 0 0 0 0 false [] (mkExecutor true 0) None files
          0%nat 0 [].

(** An argument of a Python call: left out, passed as [None], or given. *)
Inductive arg (A : Type) := Omitted | PyNone | Given (a : A).
Arguments Omitted {A}.
Arguments PyNone {A}.
Arguments Given {A} a.

(** The value a parameter with default [d] receives. *)
Definition received {A} (d : A) (a : arg A) : option A :=
  match a with
  | Omitted => Some d
  | PyNone => None
  | Given v => Some v
  end.

(** The keyword arguments of a call [config(...)], or the entries of the
    dictionary given to [config_dict]. *)
Record config_args := mkArgs {
  a_file_paths : arg (list Path);
  a_write_mode : arg LogWriteMode;
  a_retry_limit : arg Z;
  a_retry_delay : arg Q;
  a_backoff_factor : arg Q;
  a_max_file_size : arg Z;
  a_max_rotation : arg Z;
  a_max_buffer_size : arg Z;
  a_use_write_flush : arg bool
}.

(** A call of [config] with keyword arguments: Python binds the defaults of the signature
    to the parameters left out; [file_paths] has no default. *)
Definition config_call (kw : config_args) : M unit :=
  match a_file_paths kw with
  | Omitted => raise (Exn TypeError MissingArgument)
  | PyNone | Given _ =>
      config
        (received [] (a_file_paths kw))
        (received APPEND (a_write_mode kw))
        (received 3 (a_retry_limit kw))
        (received (5 # 10) (a_retry_delay kw))
        (received (2 # 10) (a_backoff_factor kw))
        (received (10 * 1024 * 1024) (a_max_file_size kw))
        (received 5 (a_max_rotation kw))
        (received (1024 * 1024) (a_max_buffer_size kw))
        (received true (a_use_write_flush kw))
  end.

Definition config_dict (config_dict : config_args) : M unit :=
  config_call config_dict.

(* ================================================================== *)
(** * Auxiliary definitions for the statements *)

(** The buffer after a series of offers. *)
Definition offer_all (ms : list pystr) (s : state) : state :=
  foldl (λ s m, (_write_to_buffer m s).2) s ms.

(** The number of bytes the buffered text takes in UTF-8, when encodable. *)
Definition buffer_bytes (s : state) : option Z :=
  match _buffer s with
  | Some content => (λ b, Z.of_nat (length b)) <$> utf8_encode content
  | None => Some 0
  end.

(** *** Example inputs *)

(** A POSIX machine with four cores on which no I/O operation fails. *)
Definition posix4 : Platform :=
  {| io_fault := λ _, false; cpu_count := Some 4; os_name_nt := false |}.

(** The same machine with a device on which every I/O operation fails. *)
Definition broken_disk : Platform :=
  {| io_fault := λ _, true; cpu_count := Some 4; os_name_nt := false |}.

Definition tmp (file : string) : Path := mkPath (py "/tmp") (py file).

(** [FileHandler([a.log], max_buffer_size=10)] with the other defaults of
    the constructor, in an empty directory. *)
Definition small_buffer_handler : state :=
  (@__init__ posix4 [tmp "a.log"] APPEND 2 (1 # 10) (2 # 10)
     (10 * 1024 * 1024) 5 10 true (unborn ∅)).2.

(** [m] never changes the component [f] of the state. *)
Definition preserves {A B} (f : state → B) (m : M A) : Prop :=
  ∀ s, f (m s).2 = f s.

(** *** Statements under test *)

(** An offer drains the buffer whenever the message together with its
    newline would not fit. *)
Definition drains_when_line_exceeds : Prop :=
  ∀ (s : state) (m content : pystr) (line : list N),
    0 < _max_buffer_size s →
    _buffer s = Some content →
    utf8_encode (m ++ [10%N]) = Some line →
    _max_buffer_size s < tell content + Z.of_nat (length line) →
    _write_to_buffer m s = (Ok (Some (strip content)), set_buffer (Some []) s).

(** An offer that appends leaves at most [max_buffer_size + 1] bytes in
    the buffer. *)
Definition appended_bytes_bounded : Prop :=
  ∀ (s0 s' : state) (ms : list pystr) (m : pystr) (bytes : Z),
    0 < _max_buffer_size s0 →
    _write_to_buffer m (offer_all ms s0) = (Ok None, s') →
    buffer_bytes s' = Some bytes →
    bytes ≤ _max_buffer_size s0 + 1.

(** The letter e with an acute accent, two bytes in UTF-8. *)
Definition e_acute : N := 233.

(** [n] distinct log files [f1.log], [f2.log], ... *)
Definition many_paths (n : nat) : list Path :=
  (λ i : nat, tmp ("f" +:+ pretty i +:+ ".log")) <$> seq 1 n.

(** An unbuffered handler on [n] files, other settings as the constructor's
    defaults. *)
Definition wide_handler (n : nat) : state :=
  (@__init__ posix4 (many_paths n) APPEND 2 (1 # 10) (2 # 10)
     (10 * 1024 * 1024) 5 0 true (unborn ∅)).2.

Definition is_gc (e : event) : bool :=
  match e with EvGCManager => true | _ => false end.

(** The chunked dispatch of the synchronous writer, on given batches. *)
Definition dispatch_batches `{Platform} (message : pystr)
    (batches : list (list Path)) : M unit :=
  futures ← submit_all batches id (_log_batch message);
  await_all futures id.

(** [log(m)] on [s] hands a flushable message to the writer: the handler is
    unbuffered, or [m] makes a buffer with text in it overflow. *)
Definition delivers (s : state) (m : pystr) : Prop :=
  strip m ≠ [] ∧ _file_paths s ≠ [] ∧
  (_max_buffer_size s ≤ 0
   ∨ ∃ content bytes,
       _buffer s = Some content ∧ utf8_encode m = Some bytes ∧
       _max_buffer_size s < tell content + Z.of_nat (length bytes) ∧
       strip content ≠ []).

(** After [force_shutdown] every delivering [log] and [async_log] fails. *)
Definition shutdown_blocks_every_write : Prop :=
  ∀ (H : Platform) (s : state) (m : pystr),
    _shutdown (_threadpool s) = true → delivers s m →
    (∃ e s', log m s = (Raise e, s'))
    ∧ (∃ e s', async_log m s = (Raise e, s')).

(** An unbuffered handler on one file whose pool has been shut down. *)
Definition stopped_handler : state :=
  (@force_shutdown true (wide_handler 1)).2.

(** What [log] and [async_log] do once the pool is initialised, with the
    writer as a parameter. *)
Definition offer_then (writer : pystr → M unit) (message : pystr) : M unit :=
  limit ← gets _max_buffer_size;
  if 0 <? limit then
    buffer_message ← _write_to_buffer message;
    match buffer_message with
    | Some (c :: m) => writer (c :: m)
    | Some [] | None => mret tt
    end
  else writer message.

(** An unbuffered handler on 51 files whose pool has been shut down. *)
Definition stopped_wide_handler : state :=
  (force_shutdown true (wide_handler 51)).2.

(** A handler on [n] files with the default buffer of 1 MiB. *)
Definition buffered_wide_handler (n : nat) : state :=
  (@__init__ posix4 (many_paths n) APPEND 2 (1 # 10) (2 # 10)
     (10 * 1024 * 1024) 5 (1024 * 1024) true (unborn ∅)).2.

(** [h = FileHandler(51 paths); h.log("pending"); h.force_shutdown()] *)
Definition pending_stopped : state :=
  (force_shutdown true
     (@log posix4 (py "pending") (buffered_wide_handler 51)).2).2.

(** [h = FileHandler([a.log], max_buffer_size=10); h.log("pending")] *)
Definition pending_one : state :=
  (@log posix4 (py "pending") small_buffer_handler).2.

(** Was the keyword supplied with a value? *)
Definition supplied {A} (a : arg A) : bool :=
  match a with Given _ => true | _ => false end.

(** Every field that a call of [config] does not supply keeps its value. *)
Definition unsupplied_fields_kept : Prop :=
  ∀ (kw : config_args) (s : state),
    let s' := (config_call kw s).2 in
    (supplied (a_file_paths kw) = false → _file_paths s' = _file_paths s)
    ∧ (supplied (a_write_mode kw) = false → _write_mode s' = _write_mode s)
    ∧ (supplied (a_retry_limit kw) = false → _retry_limit s' = _retry_limit s)
    ∧ (supplied (a_retry_delay kw) = false → _retry_delay s' = _retry_delay s)
    ∧ (supplied (a_backoff_factor kw) = false →
       _backoff_factor s' = _backoff_factor s)
    ∧ (supplied (a_max_file_size kw) = false →
       _max_file_size s' = _max_file_size s)
    ∧ (supplied (a_max_rotation kw) = false →
       _max_rotation s' = _max_rotation s)
    ∧ (supplied (a_max_buffer_size kw) = false →
       _max_buffer_size s' = _max_buffer_size s)
    ∧ (supplied (a_use_write_flush kw) = false →
       _use_write_flush s' = _use_write_flush s).

(** The rule [config] follows for one field: a parameter that received
    [None] leaves the field as it was, and once the call has succeeded a
    parameter that received a value has put it in the field. *)
Definition field_rule {A} (received : option A) (old new : A)
    (succeeded : Prop) : Prop :=
  match received with
  | None => new = old
  | Some v => succeeded → new = v
  end.

(** The handler of the test fixture: two files, no retries. *)
Definition fixture_handler : state :=
  (@__init__ posix4 [tmp "test_1.log"; tmp "test_2.log"] APPEND 0 0 0
     (10 * 1024 * 1024) 5 (1024 * 1024) true (unborn ∅)).2.

(** [config(file_paths=[config_test.log], max_rotation=2)] *)
Definition partial_call : config_args :=
  mkArgs (Given [tmp "config_test.log"]) Omitted Omitted Omitted Omitted
         Omitted (Given 2) Omitted Omitted.

(** The delay the specification prescribes after the [attempt]-th failed
    attempt: exponential when the backoff factor is positive, else the
    constant delay. *)
Definition spec_delay (retry_delay backoff_factor : Q) (attempt : Z) : Q :=
  if Qlt_le_dec 0 backoff_factor
  then (retry_delay * backoff_factor ^ (attempt - 1))%Q
  else retry_delay.

(** Every wait that the retries of the handler can ask for is one that
    the float power and [time.sleep] accept. *)
Definition waits_accepted (s : state) : Prop :=
  ∀ k : Z, 1 ≤ k < _retry_limit s →
    (_backoff_factor s ^ (k - 1) <= float_max)%Q
    ∧ (spec_delay (_retry_delay s) (_backoff_factor s) k <= sleep_max)%Q.

(** The failure a write reports once its retries are used up. *)
Definition retries_exhausted (path : Path) (attempts : Z) : exn :=
  ExnFrom RuntimeError (FailedAfterAttempts path attempts)
    (Exn OSError (IOFault path)).

(** [FileHandler([a.log], retry_limit=3, retry_delay=0.5,
    backoff_factor=0.2, max_buffer_size=0)] with [a.log] open in the pool. *)
Definition retrying_handler : state :=
  (_ensure_sync_pool
     (@__init__ posix4 [tmp "a.log"] APPEND 3 (5 # 10) (2 # 10)
        (10 * 1024 * 1024) 5 0 true (unborn ∅)).2).2.

(** The same handler with a delay of [1e10] seconds between attempts. *)
Definition patient_handler : state :=
  (_ensure_sync_pool
     (@__init__ posix4 [tmp "a.log"] APPEND 3 (inject_Z (10 ^ 10)) (2 # 10)
        (10 * 1024 * 1024) 5 0 true (unborn ∅)).2).2.

(** A write that fails every time is attempted [retry_limit] times and
    then reported, whatever the delay and the backoff factor. *)
Definition failing_write_uses_all_attempts : Prop :=
  ∀ (H : Platform) (s : state) (path : Path) (m : pystr) (f : FileObj)
    (bytes : list N),
    1 ≤ _retry_limit s →
    (0 <= _retry_delay s)%Q → (0 <= _backoff_factor s)%Q →
    pool_get path (_temp_sync_pool s) = Some f → f_closed f = false →
    utf8_encode (m ++ [10%N]) = Some bytes →
    (∀ k, (k < Z.to_nat (_retry_limit s))%nat →
          io_fault (io_count s + k) = true) →
    ∃ s' ts,
      write_with_retry path m s
        = (Raise (retries_exhausted path (_retry_limit s)), s')
      ∧ trace s' = rev ((λ t, EvWrite path t false) <$> ts) ++ trace s
      ∧ Z.of_nat (length ts) = _retry_limit s.

(** *** Rotation as the specification words it *)

(** One step of the chain: if sibling [_i] exists, delete [_(i+1)] if
    present and rename [_i] to [_(i+1)]. *)
Definition spec_shift (p : Path) (files : gmap Path (list N)) (i : Z)
  : gmap Path (list N) :=
  match files !! sibling p i with
  | Some c =>
      <[sibling p (i + 1) := c]>
        (delete (sibling p i) (delete (sibling p (i + 1)) files))
  | None => files
  end.

(** Truncate when [max_rotation = 0]; else shift the siblings from
    [max_rotation - 1] down to 1, delete [_1], rename the file to [_1] and
    recreate it empty. *)
Definition spec_rotate (p : Path) (max_rotation : Z)
    (files : gmap Path (list N)) : gmap Path (list N) :=
  if max_rotation =? 0 then <[p := []]> files
  else
    let shifted := foldl (spec_shift p) files (range_down (max_rotation - 1)) in
    match shifted !! p with
    | Some c =>
        <[p := []]> (<[sibling p 1 := c]> (delete p (delete (sibling p 1) shifted)))
    | None => shifted
    end.

(** After a rotation the old content of the file is at [_1], the file is
    empty, and what [_N] held before has no influence on the outcome. *)
Definition rotation_discards_oldest : Prop :=
  ∀ (H : Platform) (s : state) (m : pystr) (p : Path)
    (content b junk : list N),
    name p ≠ [] → 1 ≤ _max_rotation s →
    pool_get p (_temp_sync_pool s) = None →
    fs s !! p = Some content → utf8_encode m = Some b →
    _max_file_size s < Z.of_nat (length content) + Z.of_nat (length b) →
    let after := fs (_rotate_file m p s).2 in
    after !! sibling p 1 = Some content
    ∧ after !! p = Some []
    ∧ fs (_rotate_file m p
            (set_fs (<[sibling p (_max_rotation s) := junk]> (fs s)) s)).2
      = after.

(** [FileHandler([a.log], max_file_size=5, max_rotation=2)] in a directory
    that holds a ten-byte [a.log] and an [a_2.log], but no [a_1.log]. *)
Definition gapped_handler : state :=
  (@__init__ posix4 [tmp "a.log"] APPEND 2 (1 # 10) (2 # 10) 5 2 0 true
     (unborn {[ tmp "a.log" := py "0123456789"; tmp "a_2.log" := py "old" ]})).2.

(** The same handler in a directory with [a.log], [a_1.log] and
    [a_2.log]. *)
Definition full_chain_handler : state :=
  (@__init__ posix4 [tmp "a.log"] APPEND 2 (1 # 10) (2 # 10) 5 2 0 true
     (unborn {[ tmp "a.log" := py "0123456789"; tmp "a_1.log" := py "newer";
                tmp "a_2.log" := py "old" ]})).2.

(** Closing the slot of the path succeeds unless the final flush of an
    open file fails. *)
Definition closes_quietly `{Platform} (p : Path) (s : state) : Prop :=
  match pool_get p (_temp_sync_pool s) with
  | Some f => f_closed f = true ∨ io_fault (io_count s) = false
  | None => True
  end.

(** [m] keeps the property [P] of the state, whether it returns or raises. *)
Definition maintains {A} (P : state → Prop) (m : M A) : Prop :=
  ∀ s, P s → P (m s).2.

(** A handler as the constructor and the setters leave it: the pool is a
    dictionary (no path twice) and the numeric settings are not negative. *)
Definition well_formed (s : state) : Prop :=
  NoDup (_temp_sync_pool s).*1
  ∧ 0 ≤ _retry_limit s ∧ (0 <= _retry_delay s)%Q
  ∧ (0 <= _backoff_factor s)%Q ∧ 0 ≤ _max_file_size s
  ∧ 0 ≤ _max_rotation s ∧ 0 ≤ _max_buffer_size s.

(** No [GCManager] block has been entered so far. *)
Definition no_gc (s : state) : Prop := existsb is_gc (trace s) = false.

(** [FileHandler([a.log], max_file_size=5, max_rotation=2,
    max_buffer_size=0)] in an empty directory, and the directory after
    logging the given messages one by one. *)
Definition rotating_handler : state :=
  (@__init__ posix4 [tmp "a.log"] APPEND 2 (1 # 10) (2 # 10) 5 2 0 true
     (unborn ∅)).2.

Definition files_after (messages : list string) : gmap Path pystr :=
  fs (for_each messages (λ m, @log posix4 (py m)) rotating_handler).2.

(** *** Writing without faults *)

(** The platform never makes an I/O operation fail. *)
Definition reliable `{Platform} : Prop := ∀ n, io_fault n = false.

(** The text of a file; a missing file counts as empty. *)
Definition text_of (files : gmap Path (list N)) (p : Path) : list N :=
  default [] (files !! p).

(** Every slot of the pool holds an open file in append mode, and the file
    is on disk. *)
Definition slots_ready (s : state) : Prop :=
  ∀ p f, pool_get p (_temp_sync_pool s) = Some f →
    f_closed f = false ∧ f_mode f = APPEND ∧ is_Some (fs s !! p).

(** Writing [bytes] and a newline to [p] needs no rotation. *)
Definition fits (bytes : list N) (s : state) (p : Path) : Prop :=
  Z.of_nat (length (text_of (fs s) p)) + Z.of_nat (length bytes)
  ≤ _max_file_size s.

(** The nine settings of a handler. *)
Definition settings (s : state) :=
  (_file_paths s, _write_mode s, _retry_limit s, _retry_delay s,
   _backoff_factor s, _max_file_size s, _max_rotation s, _max_buffer_size s,
   _use_write_flush s).

(** [s'] is [s] after [line] has been appended to the files [ps]: the
    other files, the settings, the worker pool and the buffer are as
    before, and the slots are ready for the next write. *)
Definition line_added (line : list N) (ps : list Path) (s s' : state) : Prop :=
  (∀ q, fs s' !! q = if decide (q ∈ ps) then Some (text_of (fs s) q ++ line)
                     else fs s !! q)
  ∧ slots_ready s'
  ∧ settings s' = settings s
  ∧ _threadpool s' = _threadpool s
  ∧ _buffer s' = _buffer s
  ∧ clock s' = clock s.

Global Instance LogWriteMode_eq_dec : EqDecision LogWriteMode.
Proof. solve_decision. Defined.

(** The content of a file right after it has been opened in the given mode:
    the write modes empty it. *)
Definition opened_text (mode : LogWriteMode) (files : gmap Path (list N))
    (p : Path) : list N :=
  match mode with
  | OVERWRITE | WRITE_READ => []
  | _ => text_of files p
  end.

(** The handler after the slot of [p] has been opened anew. *)
Definition slot_opened (p : Path) (s : state) : state :=
  set_pool (pool_set p (mkFile (_write_mode s) 0 false) (_temp_sync_pool s))
    (set_fs (<[p := opened_text (_write_mode s) (fs s) p]> (fs s)) s).

(** What a write of [bytes] and a newline to each of [ps] asks of the
    handler: append mode, ready slots, and room in every file. *)
Definition can_append (bytes : list N) (ps : list Path) (s : state) : Prop :=
  _write_mode s = APPEND ∧ slots_ready s ∧ ∀ p, p ∈ ps → fits bytes s p.

(** The body of the loop of [_init_sync_pool]: open the path unless it has
    a slot already. *)
Definition open_missing (path : Path) : M unit :=
  o ← pool_lookup path;
  match o with
  | Some _ => mret tt
  | None =>
      _ensure_parent_dirs path;;
      _create_file path;;
      mode ← gets _write_mode;
      file ← py_open path mode;
      if negb (writable file) then raise (Exn OSError (NotWritable path))
      else pool_put path file
  end.


(** [FileHandler([a.log], write_mode=mode)] with the other defaults of the
    constructor, in a directory where [a.log] holds [old]. *)
Definition handler_on_old_file (mode : LogWriteMode) : state :=
  (@__init__ posix4 [tmp "a.log"] mode 2 (1 # 10) (2 # 10)
     (10 * 1024 * 1024) 5 (1024 * 1024) true
     (unborn {[ tmp "a.log" := py "old" ]})).2.


(** The text the buffer holds after the messages have been stored: one
    message per line. *)
Definition lines (ms : list pystr) : pystr :=
  concat ((λ m, m ++ [10%N]) <$> ms).

(** A message with no whitespace at either end. *)
Definition stripped (m : pystr) : Prop := m ≠ [] ∧ strip m = m.

(** [s0] is [s] with some slots opened in append mode: the text of every
    file, the settings, the worker pool and the clock are those of [s]. *)
Definition pool_opened (s s0 : state) : Prop :=
  (∀ q, text_of (fs s0) q = text_of (fs s) q)
  ∧ (∀ q, q ∉ _file_paths s → fs s0 !! q = fs s !! q)
  ∧ slots_ready s0
  ∧ settings s0 = settings s ∧ _threadpool s0 = _threadpool s.


(** The seconds slept over [k] failed attempts that follow [counter]
    earlier failures. *)
Fixpoint waited (retry_delay backoff_factor : Q) (counter : Z) (k : nat) : Q :=
  match k with
  | O => 0
  | S k' =>
      (spec_delay retry_delay backoff_factor (counter + 1)
       + waited retry_delay backoff_factor (counter + 1) k')%Q
  end.

(** A machine whose device fails the first [k] I/O operations and works
    from then on. *)
Definition flaky_disk (k : nat) : Platform :=
  {| io_fault := λ n, bool_decide (n < k)%nat; cpu_count := Some 4;
     os_name_nt := false |}.


(** *** Validation *)

(** The error a setter raises for a rejected value. *)
Definition rejected (reason : what) : exn :=
  ExnFrom FileHandlerSettingsError Rewrapped (Exn ValueError reason).

(** The first path whose name is too long, if any. *)
Definition long_name (paths : list Path) : option Path :=
  List.find (λ p, 255 <? Z.of_nat (length (name p))) paths.

(** What the setter of [file_paths] has against a list of paths. *)
Definition paths_objection (paths : list Path) : option what :=
  match paths with
  | [] => Some EmptyPathList
  | _ => NameTooLong <$> long_name paths
  end.

(** The size of the worker pool for [n] paths. *)
Definition workers_for `{Platform} (n : Z) : Z :=
  let max_workers := if 1 <? n then Z.min n 4 else 1 in
  if os_name_nt then Z.min max_workers 4
  else Z.min max_workers (cpu_count_or 4).


(** The content of a file after the first write through a slot opened in
    the given mode: the append mode adds the bytes at the end, the
    read-write mode writes them over the start of the old content, the
    overwrite modes have emptied the file when they opened it.  The read
    mode writes nothing. *)
Definition first_write (mode : LogWriteMode) (old bytes : list N) : list N :=
  match mode with
  | APPEND => old ++ bytes
  | READ => old
  | READ_WRITE => bytes ++ drop (length bytes) old
  | OVERWRITE | WRITE_READ => bytes
  end.

(** Every path of [ps] has a slot that has just been opened in the
    handler's mode, and its file is on disk. *)
Definition slots_fresh (ps : list Path) (s : state) : Prop :=
  ∀ p, p ∈ ps →
    pool_get p (_temp_sync_pool s) = Some (mkFile (_write_mode s) 0 false)
    ∧ is_Some (fs s !! p).

(** [s'] is [s] after [line] has been written through the fresh slots of
    [ps]: the other files and slots, the settings, the worker pool and the
    buffer are as before. *)
Definition line_written (line : list N) (ps : list Path) (s s' : state)
  : Prop :=
  (∀ q, fs s' !! q
        = if decide (q ∈ ps)
          then Some (write_bytes (mkFile (_write_mode s) 0 false) line
                       (text_of (fs s) q))
          else fs s !! q)
  ∧ (∀ q, q ∉ ps →
       pool_get q (_temp_sync_pool s') = pool_get q (_temp_sync_pool s))
  ∧ settings s' = settings s
  ∧ _threadpool s' = _threadpool s
  ∧ _buffer s' = _buffer s.

(** What the first write of [bytes] and a newline to each of [ps] asks of
    the handler. *)
Definition can_write (bytes : list N) (ps : list Path) (s : state) : Prop :=
  slots_fresh ps s ∧ ∀ p, p ∈ ps → fits bytes s p.

(** A fresh handler in the given mode for one file that exists. *)
Definition fresh_handler (mode : LogWriteMode) : state :=
  (@__init__ posix4 [tmp "a.log"] mode 2 (1 # 10) (2 # 10)
     (10 * 1024 * 1024) 5 0 true
     (unborn {[ tmp "a.log" := py "old" ]})).2.

(* ------------------------------------------------------------------ *)
(** ** The collector manager of [utils/utilities.py] *)

Module GCManager.

(** What the manager sees of the interpreter and of the host: the switch
    of the cyclic collector ([gc.isenabled()]), the number of collections
    run so far ([gc.collect()]), and the memory use that
    [psutil.virtual_memory().percent] reports, a number between 0 and
    100. *)
Record world := mkWorld {
  gc_enabled : bool;
  collections : nat;
  percent : Q
}.

(** A [threading.Thread] whose target is the memory observer. *)
Record thread := mkThread { started : bool; alive : bool }.

(** An [asyncio.Task] that runs the asynchronous observer. *)
Record task := mkTask { done : bool }.

(** The slots of a [GCManager]. *)
Record manager := mkManager {
  _monitoring : bool;
  _wait_time : Q;
  _sync_thread : option thread;
  _async_thread : option task;
  _memory_threshold : Q
}.

Inductive complaint :=
| NegativeWaitTime
| ThresholdOutOfRange
| StartedTwice.

(** The outcome of a call: a value, or an exception of some class. *)
Inductive outcome (A : Type) :=
| Done (a : A)
| Raised (cls : exn_class) (why : complaint).
Arguments Done {A} a.
Arguments Raised {A} cls why.

Definition collect (w : world) : world :=
  mkWorld (gc_enabled w) (S (collections w)) (percent w).

Definition set_enabled (b : bool) (w : world) : world :=
  mkWorld b (collections w) (percent w).

Definition set_monitoring (b : bool) (g : manager) : manager :=
  mkManager b (_wait_time g) (_sync_thread g) (_async_thread g)
    (_memory_threshold g).

Definition set_sync_thread (t : option thread) (g : manager) : manager :=
  mkManager (_monitoring g) (_wait_time g) t (_async_thread g)
    (_memory_threshold g).

(** [GCManager(wait_time, memory_threshold)]: the two setters validate
    their values. *)
Definition __init__ (wait_time memory_threshold : Q) : outcome manager :=
  if Qlt_le_dec wait_time 0 then Raised ValueError NegativeWaitTime
  else if negb (Qle_bool 0 memory_threshold && Qle_bool memory_threshold 1)
  then Raised ValueError ThresholdOutOfRange
  else Done (mkManager true wait_time None None memory_threshold).

(** [Thread.start()]: a thread can be started once. *)
Definition start (t : thread) : outcome thread :=
  if started t then Raised RuntimeError StartedTwice
  else Done (mkThread true true).

(** [__enter__]: the safe check compares the percentage with the
    threshold as it is stored. *)
Definition __enter__ (st : world * manager)
  : outcome unit * (world * manager) :=
  let '(w, g) := st in
  (* safe check *)
  let w := if Qlt_le_dec (_memory_threshold g) (percent w) then collect w
           else w in
  (* disable garbage collection if it is enabled *)
  let w := if gc_enabled w then set_enabled false w else w in
  (* start monitoring if it is enabled *)
  if _monitoring g then
    let g := match _sync_thread g with
             | None => set_sync_thread (Some (mkThread false false)) g
             | Some _ => g
             end in
    match _sync_thread g with
    | Some t =>
        if negb (alive t) then
          match start t with
          | Done t' => (Done tt, (w, set_sync_thread (Some t') g))
          | Raised cls why => (Raised cls why, (w, g))
          end
        else (Done tt, (w, g))
    | None => (Done tt, (w, g))
    end
  else (Done tt, (w, g)).

(** [__exit__]: the result [False] lets an exception of the block
    through. *)
Definition __exit__ (st : world * manager)
  : outcome bool * (world * manager) :=
  let '(w, g) := st in
  (* stop monitoring *)
  let g := set_monitoring false g in
  (* join the thread if it is running *)
  let g := match _sync_thread g with
           | Some t => if alive t then set_sync_thread None g else g
           | None => g
           end in
  (* enable garbage collection if it was disabled *)
  let w := if negb (gc_enabled w) then set_enabled true w else w in
  (* final garbage collection *)
  (Done false, (collect w, g)).

(** One turn of the loop of [memory_observer], up to its [sleep]: here
    the threshold is a fraction and is scaled to a percentage. *)
Definition observer_turn (st : world * manager) : world :=
  let '(w, g) := st in
  if _monitoring g then
    if Qlt_le_dec (_memory_threshold g * 100) (percent w) then collect w
    else w
  else w.

End GCManager.

(* ================================================================== *)
(** * Properties *)

(** ** Reasoning in the monad *)

Ltac munfold :=
  unfold mbind, M_bind, mret, M_ret, gets, modify, raise, when, try_except,
    wrapping, emit in *.

(** Turn boolean comparisons among the hypotheses into propositions. *)
Ltac bools :=
  repeat match goal with
    | H : (_ <? _) = true |- _ => apply Z.ltb_lt in H
    | H : (_ <? _) = false |- _ => apply Z.ltb_ge in H
    | H : (_ <=? _) = true |- _ => apply Z.leb_le in H
    | H : (_ <=? _) = false |- _ => apply Z.leb_gt in H
    | H : (_ =? _) = true |- _ => apply Z.eqb_eq in H
    | H : (_ =? _) = false |- _ => apply Z.eqb_neq in H
    end.

Lemma bind_Ok {A B} (m : M A) (k : A → M B) s a s' :
  m s = (Ok a, s') → (m ≫= k) s = k a s'.
Proof. intros E. unfold mbind, M_bind. by rewrite E. Qed.

Lemma bind_Raise {A B} (m : M A) (k : A → M B) s e s' :
  m s = (Raise e, s') → (m ≫= k) s = (Raise e, s').
Proof. intros E. unfold mbind, M_bind. by rewrite E. Qed.

Lemma try_except_Ok {A} (m : M A) h s a s' :
  m s = (Ok a, s') → try_except m h s = (Ok a, s').
Proof. intros E. unfold try_except. by rewrite E. Qed.

Lemma try_except_Raise {A} (m : M A) h s e s' :
  m s = (Raise e, s') → try_except m h s = h e s'.
Proof. intros E. unfold try_except. by rewrite E. Qed.

Lemma wrapping_Ok {A} cls (m : M A) s a s' :
  m s = (Ok a, s') → wrapping cls m s = (Ok a, s').
Proof. intros E. unfold wrapping, try_except. by rewrite E. Qed.

Lemma wrapping_Raise {A} cls (m : M A) s e s' :
  m s = (Raise e, s') →
  wrapping cls m s = (Raise (ExnFrom cls Rewrapped e), s').
Proof. intros E. unfold wrapping, try_except, raise. by rewrite E. Qed.

(** Whatever a wrapped method raises has the wrapper's class. *)
Lemma wrapping_class {A} cls (m : M A) s e s' :
  wrapping cls m s = (Raise e, s') → exn_cls e = cls.
Proof.
  unfold wrapping, try_except, raise.
  destruct (m s) as [[a|e0] s0]; intros E; by simplify_eq.
Qed.

(** ** UTF-8 *)

Lemma utf8_encode_cp_length c b :
  utf8_encode_cp c = Some b → (1 ≤ length b)%nat.
Proof.
  unfold utf8_encode_cp. intros E.
  repeat (case_match; simplify_eq); simpl; lia.
Qed.

(** An encoded string has at least as many bytes as code points. *)
Lemma utf8_encode_length m b :
  utf8_encode m = Some b → (length m ≤ length b)%nat.
Proof.
  revert b. induction m as [|c m IH]; intros b E; simpl in *.
  - simplify_eq. done.
  - destruct (utf8_encode_cp c) as [b1|] eqn:E1; [|done].
    destruct (utf8_encode m) as [b2|]; [|done]. simplify_eq.
    apply utf8_encode_cp_length in E1. specialize (IH _ eq_refl).
    rewrite length_app. simpl. lia.
Qed.

(** A code point takes at most four bytes. *)
Lemma utf8_encode_length_max m b :
  utf8_encode m = Some b → (length b ≤ 4 * length m)%nat.
Proof.
  revert b. induction m as [|c m IH]; intros b E; simpl in *.
  - simplify_eq. done.
  - destruct (utf8_encode_cp c) as [b1|] eqn:E1; [|done].
    destruct (utf8_encode m) as [b2|]; [|done]. simplify_eq.
    specialize (IH _ eq_refl). rewrite length_app.
    assert (length b1 ≤ 4)%nat; [|lia].
    unfold utf8_encode_cp in E1.
    repeat (case_match; simplify_eq); simpl; lia.
Qed.

(** ASCII text is its own encoding. *)
Lemma utf8_encode_ascii m :
  Forall (λ c, (c < 128)%N) m → utf8_encode m = Some m.
Proof.
  induction 1 as [|c m Hc _ IH]; simpl; [done|].
  rewrite IH. unfold utf8_encode_cp.
  destruct (N.ltb_spec c 128); [done|lia].
Qed.

(** ** The write buffer *)

Lemma _write_to_buffer_limit m s :
  _max_buffer_size (_write_to_buffer m s).2 = _max_buffer_size s.
Proof.
  unfold _write_to_buffer, _get_buffer_message. munfold.
  destruct s; simpl.
  repeat (case_match; simplify_eq/=); done.
Qed.

Lemma offer_all_limit ms s :
  _max_buffer_size (offer_all ms s) = _max_buffer_size s.
Proof.
  revert s. induction ms as [|m ms IH]; intros s; simpl; [done|].
  unfold offer_all in *. simpl. by rewrite IH, _write_to_buffer_limit.
Qed.

(** One offer that appends leaves at most [limit + 1] in the buffer. *)
Lemma _write_to_buffer_append_size m s s' :
  0 < _max_buffer_size s →
  _write_to_buffer m s = (Ok None, s') →
  get_buffer_size s' ≤ _max_buffer_size s + 1.
Proof.
  unfold _write_to_buffer, _get_buffer_message, get_buffer_size, tell.
  munfold. destruct s; simpl. intros Hpos E.
  repeat (case_match; simplify_eq/=);
    rewrite ?length_app in *; simpl in *; bools;
    try match goal with
      | E : utf8_encode _ = Some _ |- _ => apply utf8_encode_length in E
      end; lia.
Qed.




(** ** Frame reasoning: components of the state a computation leaves alone *)

Section Frames.
Context {B : Type} (f : state → B).

Lemma preserves_ret {A} (a : A) : preserves f (mret a).
Proof. by intros s. Qed.

Lemma preserves_raise {A} e : preserves f (@raise A e).
Proof. by intros s. Qed.

Lemma preserves_gets {A} (g : state → A) : preserves f (gets g).
Proof. by intros s. Qed.

Lemma preserves_modify g : (∀ s, f (g s) = f s) → preserves f (modify g).
Proof. intros Hg s. apply Hg. Qed.

Lemma preserves_bind {A C} (m : M A) (k : A → M C) :
  preserves f m → (∀ a, preserves f (k a)) → preserves f (m ≫= k).
Proof.
  intros Hm Hk s. unfold mbind, M_bind. specialize (Hm s).
  destruct (m s) as [[a|e] s1]; simpl in *; [|done].
  by rewrite Hk.
Qed.

Lemma preserves_when b m : preserves f m → preserves f (when b m).
Proof. intros Hm. destruct b; [done|]. by intros s. Qed.

Lemma preserves_try_except {A} (m : M A) h :
  preserves f m → (∀ e, preserves f (h e)) → preserves f (try_except m h).
Proof.
  intros Hm Hh s. unfold try_except. specialize (Hm s).
  destruct (m s) as [[a|e] s1]; simpl in *; [done|].
  by rewrite Hh.
Qed.

Lemma preserves_try_finally {A} (m : M A) fin :
  preserves f m → preserves f fin → preserves f (try_finally m fin).
Proof.
  intros Hm Hfin s. unfold try_finally. specialize (Hm s).
  destruct (m s) as [[a|e] s1]; simpl in *; specialize (Hfin s1);
    destruct (fin s1) as [[[]|e'] s2]; simpl in *; congruence.
Qed.

Lemma preserves_wrapping {A} cls (m : M A) :
  preserves f m → preserves f (wrapping cls m).
Proof.
  intros Hm. apply preserves_try_except; [done|].
  intros e. apply preserves_raise.
Qed.

Lemma preserves_for_each {A} (l : list A) body :
  (∀ x, preserves f (body x)) → preserves f (for_each l body).
Proof.
  intros Hb. induction l as [|x l IH]; simpl.
  - apply preserves_ret.
  - apply preserves_bind; [apply Hb | by intros _].
Qed.

Lemma preserves_run_task task : preserves f task → preserves f (run_task task).
Proof.
  intros Ht s. unfold run_task. specialize (Ht s).
  by destruct (task s) as [r s1].
Qed.

Lemma preserves_fallible `{Platform} e :
  (∀ n s, f (set_io_count n s) = f s) → preserves f (fallible e).
Proof.
  intros Hf s. unfold fallible. by destruct (io_fault (io_count s)); simpl.
Qed.

End Frames.

(** Decompose a frame goal along the structure of the program. *)
Ltac frame_step :=
  lazymatch goal with
  | |- preserves _ (mret _) => apply preserves_ret
  | |- preserves _ (raise _) => apply preserves_raise
  | |- preserves _ (gets _) => apply preserves_gets
  | |- preserves _ (modify _) =>
      apply preserves_modify; intros []; reflexivity
  | |- preserves _ (_ ≫= _) => apply preserves_bind; [|intros ?]
  | |- preserves _ (when _ _) => apply preserves_when
  | |- preserves _ (try_except _ _) => apply preserves_try_except; [|intros ?]
  | |- preserves _ (try_finally _ _) => apply preserves_try_finally
  | |- preserves _ (wrapping _ _) => apply preserves_wrapping
  | |- preserves _ (for_each _ _) => apply preserves_for_each; intros ?
  | |- preserves _ (run_task _) => apply preserves_run_task
  | |- preserves _ (fallible _) =>
      apply preserves_fallible; intros ? []; reflexivity
  | |- preserves _ (match ?x with _ => _ end) => destruct x
  end.

Ltac frame := repeat frame_step.

Section PrimitiveFrames.
Context `{Platform}.

(** Opening, creating and registering files touches only the pool and the
    file system. *)
Lemma _init_sync_pool_frame {B} (f : state → B) :
  (∀ v s, f (set_pool v s) = f s) → (∀ v s, f (set_fs v s) = f s) →
  preserves f _init_sync_pool.
Proof.
  intros Hp Hf.
  assert (∀ g, (∀ s, (∃ v, g s = set_pool v s) ∨ (∃ v, g s = set_fs v s)) →
               preserves f (modify g)) as Hmod.
  { intros g Hg s. destruct (Hg s) as [[v E]|[v E]]; simpl; rewrite E; auto. }
  unfold _init_sync_pool, _create_file, _ensure_parent_dirs, py_open,
    pool_put, pool_lookup, path_exists.
  repeat first
    [ frame_step
    | apply Hmod; intros s; (left + right); by eexists ].
Qed.

Lemma _ensure_sync_pool_frame {B} (f : state → B) :
  (∀ v s, f (set_pool v s) = f s) → (∀ v s, f (set_fs v s) = f s) →
  preserves f _ensure_sync_pool.
Proof.
  intros Hp Hf. unfold _ensure_sync_pool. frame.
  all: by apply _init_sync_pool_frame.
Qed.

End PrimitiveFrames.

(** ** Offering a message that does not fit (C1) *)

(** C1 as stated fails.  With [max_buffer_size = 10] and an empty buffer,
    a message of exactly ten bytes is appended although the message plus
    its newline takes eleven: the check does not count the newline. *)
Lemma newline_not_counted : ¬ drains_when_line_exceeds.
Proof.
  intros Hclaim.
  specialize (Hclaim small_buffer_handler (py "1234567890") []
                (py "1234567890" ++ [10%N])).
  assert (_write_to_buffer (py "1234567890") small_buffer_handler
          = (Ok None,
             set_buffer (Some (py "1234567890" ++ [10%N]))
               small_buffer_handler)) as E by reflexivity.
  rewrite E in Hclaim.
  assert (∀ a b : result (option pystr) * state, a = b → a.1 = b.1) as Hfst
    by (by intros ?? ->).
  apply Hfst in Hclaim; [done|by vm_compute..].
Qed.

Lemma _write_to_buffer_overflow s m content bytes :
  _buffer s = Some content →
  utf8_encode m = Some bytes →
  _max_buffer_size s < tell content + Z.of_nat (length bytes) →
  _write_to_buffer m s = (Ok (Some (strip content)), set_buffer (Some []) s).
Proof.
  intros Hb Hm Hlt. unfold _write_to_buffer, _get_buffer_message. munfold.
  rewrite Hb. simpl. rewrite Hb, Hm.
  destruct (Z.ltb_spec (_max_buffer_size s)
              (tell content + Z.of_nat (length bytes))); [|lia].
  by rewrite Hb.
Qed.

(** C1 (amended).  When the buffer position plus the UTF-8 length of the
    message, without its newline, exceeds a positive [max_buffer_size], the
    offer returns the trimmed buffered text, empties the buffer and leaves
    the message out; [log] then initialises the pool, empties the buffer
    and dispatches only the old text, so with an empty buffer it calls
    [file.write] on nothing. *)
Theorem offer_overflow_drops_message `{Platform} (s : state)
    (m content : pystr) (bytes : list N) :
  0 < _max_buffer_size s →
  _buffer s = Some content →
  utf8_encode m = Some bytes →
  _max_buffer_size s < tell content + Z.of_nat (length bytes) →
  _write_to_buffer m s = (Ok (Some (strip content)), set_buffer (Some []) s)
  ∧ (strip m ≠ [] → _file_paths s ≠ [] →
     log m s =
       wrapping FileHandlerWriteError
         (_ensure_sync_pool;;
          modify (set_buffer (Some []));;
          match strip content with
          | [] => mret tt
          | old => _writer_handler old
          end) s
     ∧ (content = [] →
        (log m s).2 = (_ensure_sync_pool s).2
        ∧ trace (log m s).2 = trace s)).
Proof.
  intros Hpos Hb Hm Hlt.
  split; [by apply (_write_to_buffer_overflow s m content bytes)|].
  intros Hmsg Hpaths.
  assert (log m s =
       wrapping FileHandlerWriteError
         (_ensure_sync_pool;;
          modify (set_buffer (Some []));;
          match strip content with
          | [] => mret tt
          | old => _writer_handler old
          end) s) as Hlog.
  { unfold log.
    destruct (strip m) as [|c0 m0] eqn:Hs; [done|].
    unfold wrapping, try_except.
    match goal with |- (let (_, _) := ?X in _) = (let (_, _) := ?Y in _) =>
      cut (X = Y); [by intros ->|] end.
    erewrite (bind_Ok (gets _file_paths)) by reflexivity.
    destruct (_file_paths s) as [|p0 ps] eqn:Hp; [done|].
    pose proof (_ensure_sync_pool_frame _buffer
      ltac:(by intros ? []) ltac:(by intros ? []) s) as Hfb.
    pose proof (_ensure_sync_pool_frame _max_buffer_size
      ltac:(by intros ? []) ltac:(by intros ? []) s) as Hfm.
    destruct (_ensure_sync_pool s) as [[[]|e] s1] eqn:E; simpl in *.
    2:{ by erewrite !bind_Raise by exact E. }
    erewrite !(bind_Ok _ensure_sync_pool) by exact E.
    erewrite (bind_Ok (gets _max_buffer_size)) by reflexivity.
    rewrite Hfm.
    destruct (Z.ltb_spec 0 (_max_buffer_size s)); [|lia].
    erewrite (bind_Ok (_write_to_buffer m))
      by (apply (_write_to_buffer_overflow s1 m content bytes);
          rewrite ?Hfb, ?Hfm; done).
    erewrite (bind_Ok (modify _)) by reflexivity.
    by destruct (strip content). }
  split; [done|].
  intros ->. rewrite Hlog. unfold wrapping, try_except.
  pose proof (_ensure_sync_pool_frame _buffer
    ltac:(by intros ? []) ltac:(by intros ? []) s) as Hfb.
  pose proof (_ensure_sync_pool_frame trace
    ltac:(by intros ? []) ltac:(by intros ? []) s) as Hft.
  destruct (_ensure_sync_pool s) as [[[]|e] s1] eqn:E; simpl in *.
  2:{ by erewrite bind_Raise by exact E. }
  erewrite bind_Ok by exact E. simpl.
  rewrite Hb in Hfb. destruct s1; simpl in *. by subst.
Qed.

Lemma offer_overflow_drops_message_witness :
  let m := py "12345678901" in
  _write_to_buffer m small_buffer_handler
    = (Ok (Some []), set_buffer (Some []) small_buffer_handler)
  ∧ trace (@log posix4 m small_buffer_handler).2 = [].
Proof.
  intros m.
  destruct (@offer_overflow_drops_message posix4 small_buffer_handler m []
              (py "12345678901")) as [Hoffer Hlog];
    [by vm_compute..|].
  split; [exact Hoffer|].
  destruct Hlog as [_ Hempty]; [by vm_compute..|].
  by destruct Hempty as [_ ->].
Defined.

(** ** Logging with an empty path list (C10) *)

Lemma clear_sync_pool_paths `{Platform} : preserves _file_paths clear_sync_pool.
Proof.
  unfold clear_sync_pool, close_slot, file_flush, file_close, pool_pop,
    pool_put, pool_lookup.
  frame.
Qed.

(** C10.  With an empty path list, [log] and [async_log] of a message that
    is not blank return normally and leave the whole state (pool, buffer,
    files, trace) as it was; and the path list is empty after a completed
    [clear_all] or [__exit__]. *)
Theorem log_without_paths `{Platform} (s : state) (m : pystr) :
  strip m ≠ [] →
  (_file_paths s = [] →
   log m s = (Ok tt, s) ∧ async_log m s = (Ok tt, s))
  ∧ (∀ s', clear_all s = (Ok tt, s') → _file_paths s' = [])
  ∧ (∀ s', __exit__ s = (Ok tt, s') → _file_paths s' = []).
Proof.
  intros Hm. split; [|split].
  - intros Hp. unfold log, async_log.
    destruct (strip m) as [|c m0]; [done|].
    split.
    + apply wrapping_Ok. erewrite bind_Ok by reflexivity. by rewrite Hp.
    + apply wrapping_Ok. erewrite bind_Ok by reflexivity. by rewrite Hp.
  - intros s' E. unfold clear_all in E.
    erewrite bind_Ok in E by reflexivity.
    destruct (when (bool_decide (is_Some (_buffer s))) buffer_force_flush s)
      as [[[]|e] s1] eqn:E1.
    2:{ by erewrite bind_Raise in E by exact E1. }
    erewrite bind_Ok in E by exact E1.
    destruct (clear_sync_pool s1) as [[[]|e] s2] eqn:E2.
    2:{ by erewrite bind_Raise in E by exact E2. }
    erewrite bind_Ok in E by exact E2.
    erewrite bind_Ok in E by reflexivity.
    erewrite bind_Ok in E by reflexivity.
    unfold when, shutdown, modify in E.
    destruct s2; simpl in E.
    destruct (negb _) in E; munfold; by simplify_eq/=.
  - intros s' E. unfold __exit__ in E.
    erewrite bind_Ok in E by reflexivity.
    destruct (when (bool_decide (is_Some (_buffer s))) buffer_force_flush s)
      as [[[]|e] s1] eqn:E1.
    2:{ by erewrite bind_Raise in E by exact E1. }
    erewrite bind_Ok in E by exact E1.
    erewrite bind_Ok in E by reflexivity.
    pose proof (clear_sync_pool_paths (set_file_paths [] s1)) as Hf.
    destruct (clear_sync_pool (set_file_paths [] s1)) as [[[]|e] s2] eqn:E2.
    2:{ by erewrite bind_Raise in E by exact E2. }
    erewrite bind_Ok in E by exact E2.
    erewrite bind_Ok in E by reflexivity.
    simpl in Hf. replace (_file_paths (set_file_paths [] s1)) with (@nil Path)
      in Hf by (by destruct s1).
    unfold when, shutdown, modify in E.
    destruct s2; simpl in *.
    destruct (negb _) in E; munfold; by simplify_eq/=.
Qed.

Lemma log_without_paths_witness :
  let s := (@clear_all posix4 small_buffer_handler).2 in
  @log posix4 (py "hello") s = (Ok tt, s).
Proof.
  intros s.
  destruct (@log_without_paths posix4 s (py "hello")) as [Hlog _];
    [by vm_compute|].
  destruct Hlog as [Hlog _]; [by vm_compute|].
  exact Hlog.
Defined.

(** ** The slot pool *)

Lemma pool_get_set_ne p q f pool :
  p ≠ q → pool_get q (pool_set p f pool) = pool_get q pool.
Proof.
  intros Hne. induction pool as [|[k g] pool IH]; simpl.
  - by rewrite decide_False.
  - repeat (case_decide; simplify_eq/=); try done;
      rewrite ?decide_True, ?decide_False by done; done.
Qed.

Lemma pool_get_del_ne p q pool :
  p ≠ q → pool_get q (pool_del p pool) = pool_get q pool.
Proof.
  intros Hne. induction pool as [|[k g] pool IH]; simpl; [done|].
  repeat (case_decide; simplify_eq/=); try done;
    rewrite ?decide_True, ?decide_False by done; done.
Qed.

Lemma pool_get_elem p pool :
  p ∈ pool.*1 → is_Some (pool_get p pool).
Proof.
  induction pool as [|[k g] pool IH]; simpl.
  - by intros ?%elem_of_nil.
  - intros [->|Hin]%elem_of_cons; case_decide; simplify_eq;
      first [by eexists | by apply IH].
Qed.

Section ClearPool.
Context `{Platform}.

Lemma close_slot_other path q :
  path ≠ q →
  preserves (λ s, pool_get q (_temp_sync_pool s)) (close_slot path).
Proof.
  intros Hne.
  unfold close_slot, file_flush, file_close, pool_pop, pool_put, pool_lookup.
  repeat first
    [ frame_step
    | apply preserves_modify; intros []; simpl;
      by rewrite ?pool_get_set_ne, ?pool_get_del_ne ].
Qed.

(** A slot that is in the pool is closed and evicted without error, even
    when flushing or closing it fails. *)
Lemma close_slot_Ok path s :
  is_Some (pool_get path (_temp_sync_pool s)) →
  ∃ s', close_slot path s = (Ok tt, s').
Proof.
  intros [file Hf]. unfold close_slot.
  erewrite bind_Ok by reflexivity. rewrite Hf.
  unfold try_finally, try_except, pool_pop, modify.
  destruct (when _ _ s) as [[[]|e] s1]; eauto.
Qed.

Lemma close_slots_Ok paths s :
  NoDup paths →
  (∀ p, p ∈ paths → is_Some (pool_get p (_temp_sync_pool s))) →
  ∃ s', for_each paths close_slot s = (Ok tt, s').
Proof.
  revert s. induction paths as [|p paths IH]; intros s Hnd Hin; simpl.
  - by eexists.
  - apply NoDup_cons in Hnd as [Hp Hnd].
    destruct (close_slot_Ok p s) as [s1 E1].
    { apply Hin. by left. }
    erewrite bind_Ok by exact E1.
    apply IH; [done|]. intros q Hq.
    assert (p ≠ q) as Hne by (intros ->; done).
    pose proof (close_slot_other p q Hne s) as Hf. rewrite E1 in Hf.
    simpl in Hf. rewrite Hf. apply Hin. by right.
Qed.

(** [clear_sync_pool] always succeeds and leaves an empty pool. *)
Lemma clear_sync_pool_Ok s :
  NoDup (_temp_sync_pool s).*1 →
  ∃ s', clear_sync_pool s = (Ok tt, s') ∧ _temp_sync_pool s' = [].
Proof.
  intros Hnd. unfold clear_sync_pool.
  destruct (_temp_sync_pool s) as [|entry pool] eqn:Hpool.
  - exists s. split; [|done]. apply wrapping_Ok.
    erewrite bind_Ok by reflexivity. by rewrite Hpool.
  - destruct (close_slots_Ok ((entry :: pool).*1) s) as [s1 E1].
    { done. }
    { intros p Hp. rewrite Hpool. by apply pool_get_elem. }
    exists (set_pool [] s1). split; [|by destruct s1].
    apply wrapping_Ok. erewrite bind_Ok by reflexivity. rewrite Hpool.
    erewrite bind_Ok by exact E1. done.
Qed.

End ClearPool.

(** C8.  [clear_sync_pool] is idempotent: the first call succeeds, and a
    second call right after it succeeds too and changes nothing.  The pool
    is a dictionary, so no path occurs in it twice; every state the
    handler reaches is such ([operations_keep_well_formed]). *)
Theorem clear_sync_pool_idempotent `{Platform} (s : state) :
  NoDup (_temp_sync_pool s).*1 →
  ∃ s', clear_sync_pool s = (Ok tt, s')
        ∧ clear_sync_pool s' = (Ok tt, s')
        ∧ (clear_sync_pool;; clear_sync_pool) s = clear_sync_pool s.
Proof.
  intros Hnd. destruct (clear_sync_pool_Ok s Hnd) as (s' & E & Hempty).
  assert (clear_sync_pool s' = (Ok tt, s')) as E'.
  { unfold clear_sync_pool. apply wrapping_Ok.
    erewrite bind_Ok by reflexivity. by rewrite Hempty. }
  exists s'. split; [done|]. split; [done|].
  erewrite bind_Ok by exact E. by rewrite E, E'.
Qed.

Lemma clear_sync_pool_idempotent_witness :
  let s := (@log posix4 (py "hello") small_buffer_handler).2 in
  ∃ s', @clear_sync_pool broken_disk s = (Ok tt, s')
        ∧ @clear_sync_pool broken_disk s' = (Ok tt, s').
Proof.
  intros s.
  destruct (@clear_sync_pool_idempotent broken_disk s) as (s' & E1 & E2 & _).
  { vm_compute. apply NoDup_singleton. }
  by exists s'.
Defined.

(** ** Dispatch tiers (C2) *)

(** Beyond fifty paths both writers chunk with the plain [batcher]; the
    branch for more than a thousand paths is never taken. *)
Lemma gc_tier_unreachable `{Platform} (s : state) (m : pystr) :
  50 < Z.of_nat (length (_file_paths s)) →
  _writer_handler m s
    = (batches ← batcher (_file_paths s) (-1); dispatch_batches m batches) s
  ∧ _async_writer_handler m s
    = (batches ← batcher (_file_paths s) (-1);
       for_each batches (_async_log_batch m)) s.
Proof.
  intros Hlen. unfold _writer_handler, _async_writer_handler.
  erewrite !(bind_Ok (gets _file_paths)) by reflexivity. simpl.
  destruct (Z.ltb_spec 50 (Z.of_nat (length (_file_paths s)))); [done|lia].
Qed.

Lemma direct_tier `{Platform} (s : state) (m : pystr) :
  Z.of_nat (length (_file_paths s)) ≤ 50 →
  _writer_handler m s
    = for_each (_file_paths s) (λ path, _write_to_file path m) s
  ∧ _async_writer_handler m s = _async_writer m s.
Proof.
  intros Hlen. unfold _writer_handler, _async_writer_handler.
  erewrite !(bind_Ok (gets _file_paths)) by reflexivity. simpl.
  destruct (Z.ltb_spec 50 (Z.of_nat (length (_file_paths s)))); [lia|].
  destruct (Z.ltb_spec 1000 (Z.of_nat (length (_file_paths s)))); [lia|done].
Qed.

(** C2 (the code departs from the claim).  On a handler with 1001 paths
    both [_writer_handler] and [_async_writer_handler] chunk the paths with
    the plain [batcher], which enters no [GCManager] block, although
    [batcher_with_gcmanager] on the same paths would enter one. *)
Theorem thousand_paths_skip_gcmanager :
  let s := wide_handler 1001 in
  let m := py "hello" in
  @_writer_handler posix4 m s
    = (batches ← @batcher posix4 _ (_file_paths s) (-1);
       @dispatch_batches posix4 m batches) s
  ∧ @_async_writer_handler posix4 m s
    = (batches ← @batcher posix4 _ (_file_paths s) (-1);
       for_each batches (@_async_log_batch posix4 m)) s
  ∧ existsb is_gc (trace (@batcher posix4 _ (_file_paths s) (-1) s).2) = false
  ∧ existsb is_gc
      (trace (@batcher_with_gcmanager posix4 _ (_file_paths s) (-1)
                (8 # 10) (1 # 10) s).2) = true.
Proof.
  intros s m.
  destruct (@gc_tier_unreachable posix4 s m) as [Hsync Hasync];
    [vm_compute; reflexivity|].
  split; [exact Hsync|]. split; [exact Hasync|].
  split; vm_compute; reflexivity.
Qed.

(** ** Writing after [force_shutdown] (C6) *)

(** C6 as stated fails.  A synchronous [log] on one path never touches the
    worker pool, so it still writes after [force_shutdown]. *)
Lemma direct_write_survives_shutdown : ¬ shutdown_blocks_every_write.
Proof.
  intros Hclaim.
  destruct (Hclaim posix4 stopped_handler (py "hello")) as [(e & s' & E) _].
  - reflexivity.
  - split; [by vm_compute|]. split; [by vm_compute|]. left. by vm_compute.
  - assert ((@log posix4 (py "hello") stopped_handler).1 = Ok tt) as Hok
      by (vm_compute; reflexivity).
    rewrite E in Hok. discriminate.
Qed.

Section Shutdown.
Context `{Platform}.

Lemma _calculate_batch_size_pos {A} (data : list A) :
  data ≠ [] → 1 ≤ _calculate_batch_size data (-1).
Proof.
  intros Hne. unfold _calculate_batch_size. simpl.
  assert (1 ≤ Z.of_nat (length data)) by (destruct data; [done|simpl; lia]).
  repeat case_match; bools; lia.
Qed.

Lemma batcher_nonempty {A} (data : list A) s :
  data ≠ [] → ∃ b bs, batcher data (-1) s = (Ok (b :: bs), s).
Proof.
  intros Hne. unfold batcher. destruct data as [|x data]; [done|].
  pose proof (_calculate_batch_size_pos (x :: data) Hne) as Hpos.
  change (-1 <=? 0) with true. cbv iota.
  destruct (Z.leb_spec (Z.of_nat (length (x :: data)))
              (_calculate_batch_size (x :: data) (-1))); [by eauto|].
  destruct (Z.to_nat (_calculate_batch_size (x :: data) (-1)))
    as [|n] eqn:En; [lia|].
  simpl. by eauto.
Qed.

Lemma submit_shutdown label task s :
  _shutdown (_threadpool s) = true →
  submit label task s = (Raise (Exn RuntimeError CannotScheduleAfterShutdown), s).
Proof.
  intros Hs. unfold submit. erewrite bind_Ok by reflexivity. by rewrite Hs.
Qed.

(** Beyond fifty paths the synchronous writer fails at the first [submit],
    before any file is touched. *)
Lemma _writer_handler_shutdown m s :
  _shutdown (_threadpool s) = true →
  50 < Z.of_nat (length (_file_paths s)) →
  _writer_handler m s
    = (Raise (Exn RuntimeError CannotScheduleAfterShutdown), s).
Proof.
  intros Hs Hlen. rewrite (proj1 (gc_tier_unreachable s m Hlen)).
  destruct (batcher_nonempty (_file_paths s) s) as (b & bs & E).
  { intros E. rewrite E in Hlen. simpl in Hlen. lia. }
  erewrite bind_Ok by exact E. unfold dispatch_batches. simpl.
  erewrite bind_Raise; [done|].
  erewrite bind_Raise; [done|]. by apply submit_shutdown.
Qed.

(** The suspend-capable writer goes through the pool at every path count. *)
Lemma _async_writer_handler_shutdown m s :
  _shutdown (_threadpool s) = true →
  _async_writer_handler m s
    = (Raise (Exn RuntimeError CannotScheduleAfterShutdown), s).
Proof.
  intros Hs.
  destruct (Z.lt_ge_cases 50 (Z.of_nat (length (_file_paths s)))) as [Hlen|Hlen].
  - rewrite (proj2 (gc_tier_unreachable s m Hlen)).
    destruct (batcher_nonempty (_file_paths s) s) as (b & bs & E).
    { intros E. rewrite E in Hlen. simpl in Hlen. lia. }
    erewrite bind_Ok by exact E. simpl.
    erewrite bind_Raise; [done|]. unfold _async_log_batch, run_in_executor.
    erewrite bind_Raise; [done|]. by apply submit_shutdown.
  - rewrite (proj2 (direct_tier s m Hlen)).
    unfold _async_writer, run_in_executor.
    erewrite bind_Ok by reflexivity.
    erewrite bind_Raise; [done|]. by apply submit_shutdown.
Qed.

End Shutdown.

Lemma _write_to_buffer_frame {B} (f : state → B) m :
  (∀ v s, f (set_buffer v s) = f s) → preserves f (_write_to_buffer m).
Proof.
  intros Hf. unfold _write_to_buffer, _get_buffer_message.
  repeat first
    [ frame_step
    | apply preserves_modify; intros s; apply Hf
    | match goal with |- preserves _ (if ?b then _ else _) => destruct b end ].
Qed.

Section ShutdownLog.
Context `{Platform}.

Lemma offer_then_refused writer m s :
  (∀ msg s1, _shutdown (_threadpool s1) = true →
             _file_paths s1 = _file_paths s →
             writer msg s1
             = (Raise (Exn RuntimeError CannotScheduleAfterShutdown), s1)) →
  _shutdown (_threadpool s) = true → delivers s m →
  ∃ s', offer_then writer m s
        = (Raise (Exn RuntimeError CannotScheduleAfterShutdown), s')
        ∧ trace s' = trace s.
Proof.
  intros Hw Hs (Hm & Hp & Hd). unfold offer_then.
  erewrite bind_Ok by reflexivity.
  destruct (Z.ltb_spec 0 (_max_buffer_size s)) as [Hpos|Hle].
  - destruct Hd as [Hd|(content & bytes & Hb & He & Hlt & Hc)]; [lia|].
    erewrite bind_Ok
      by (by apply (_write_to_buffer_overflow s m content bytes)).
    destruct (strip content) as [|c r]; [done|].
    exists (set_buffer (Some []) s). split; [|by destruct s].
    apply Hw; by destruct s.
  - exists s. split; [|done]. by apply Hw.
Qed.

End ShutdownLog.

(** C6 (amended).  After [force_shutdown], a [log] that delivers a
    flushable message fails with a [FileHandlerWriteError] when more than
    fifty paths are configured, and an [async_log] that delivers one fails
    with a [FileHandlerAsyncWriteError] at every path count; in both cases
    no [file.write] is attempted. *)
Theorem shutdown_blocks_pool_writes `{Platform} (s : state) (m : pystr) :
  _shutdown (_threadpool s) = true →
  delivers s m →
  (50 < Z.of_nat (length (_file_paths s)) →
   ∃ e s', log m s = (Raise e, s')
           ∧ exn_cls e = FileHandlerWriteError ∧ trace s' = trace s)
  ∧ (∃ e s', async_log m s = (Raise e, s')
             ∧ exn_cls e = FileHandlerAsyncWriteError ∧ trace s' = trace s).
Proof.
  intros Hs Hd.
  assert (∀ (init : M unit) writer cls,
    (∀ B (f : state → B),
       (∀ v s, f (set_pool v s) = f s) → (∀ v s, f (set_fs v s) = f s) →
       preserves f init) →
    (∀ msg s1, _shutdown (_threadpool s1) = true →
               _file_paths s1 = _file_paths s →
               writer msg s1
               = (Raise (Exn RuntimeError CannotScheduleAfterShutdown), s1)) →
    ∃ e s',
      wrapping cls (init;; offer_then writer m) s = (Raise e, s')
      ∧ exn_cls e = cls ∧ trace s' = trace s) as Hgen.
  { intros init writer cls Hinit Hw.
    pose proof (Hinit _ _threadpool
      ltac:(by intros ? []) ltac:(by intros ? []) s) as Hft.
    pose proof (Hinit _ _file_paths
      ltac:(by intros ? []) ltac:(by intros ? []) s) as Hfp.
    pose proof (Hinit _ _buffer
      ltac:(by intros ? []) ltac:(by intros ? []) s) as Hfb.
    pose proof (Hinit _ _max_buffer_size
      ltac:(by intros ? []) ltac:(by intros ? []) s) as Hfm.
    pose proof (Hinit _ trace
      ltac:(by intros ? []) ltac:(by intros ? []) s) as Hftr.
    destruct (init s) as [[[]|e] s1] eqn:E; simpl in *.
    - destruct (offer_then_refused writer m s1) as (s' & E' & Htr).
      + intros msg s2 Hs2 Hp2. apply Hw; congruence.
      + congruence.
      + destruct Hd as (Hm & Hp & Hd). repeat split; [done|congruence|].
        rewrite Hfm, Hfb. done.
      + eexists _, s'. split.
        { apply wrapping_Raise. erewrite bind_Ok by exact E. exact E'. }
        split; [reflexivity|congruence].
    - eexists _, s1. split.
      { apply wrapping_Raise. by erewrite bind_Raise by exact E. }
      split; [reflexivity|congruence]. }
  destruct Hd as (Hm & Hp & Hd0).
  assert (delivers s m) as Hd by done.
  split.
  - intros Hlen.
    destruct (Hgen _ensure_sync_pool _writer_handler FileHandlerWriteError)
      as (e & s' & E & Hcls & Htr).
    { intros B f. apply _ensure_sync_pool_frame. }
    { intros msg s1 Hs1 Hp1. apply _writer_handler_shutdown; congruence. }
    exists e, s'. split; [|done]. rewrite <- E. unfold log, offer_then.
    destruct (strip m) as [|c m0]; [done|].
    unfold wrapping, try_except.
    erewrite (bind_Ok (gets _file_paths)) by reflexivity.
    by destruct (_file_paths s).
  - destruct (Hgen _init_sync_pool _async_writer_handler
                FileHandlerAsyncWriteError)
      as (e & s' & E & Hcls & Htr).
    { intros B f. apply _init_sync_pool_frame. }
    { intros msg s1 Hs1 Hp1. by apply _async_writer_handler_shutdown. }
    exists e, s'. split; [|done]. rewrite <- E. unfold async_log, offer_then.
    destruct (strip m) as [|c m0]; [done|].
    unfold wrapping, try_except.
    erewrite (bind_Ok (gets _file_paths)) by reflexivity.
    by destruct (_file_paths s).
Qed.

Lemma shutdown_blocks_pool_writes_witness :
  let s := stopped_wide_handler in
  (∃ e s', @log posix4 (py "hello") s = (Raise e, s')
           ∧ exn_cls e = FileHandlerWriteError ∧ trace s' = trace s)
  ∧ (∃ e s', @async_log posix4 (py "hello") s = (Raise e, s')
             ∧ exn_cls e = FileHandlerAsyncWriteError ∧ trace s' = trace s).
Proof.
  intros s.
  destruct (@shutdown_blocks_pool_writes posix4 s (py "hello")) as [Hl Ha].
  - vm_compute; reflexivity.
  - split; [by vm_compute|]. split; [by vm_compute|]. left. by vm_compute.
  - split; [|exact Ha]. apply Hl. vm_compute; reflexivity.
Defined.

(** ** Teardown (C7) *)

(** When the forced flush raises, [clear_all] and the two scope exits stop
    there and pass the error on; the finalizer swallows it. *)
Lemma teardown_stops_at_flush_failure `{Platform} (s : state) e s' :
  is_Some (_buffer s) →
  buffer_force_flush s = (Raise e, s') →
  clear_all s = (Raise e, s') ∧ __exit__ s = (Raise e, s')
  ∧ __aexit__ s = (Raise e, s') ∧ __del__ s = (Ok tt, s').
Proof.
  intros Hb E. unfold clear_all, __exit__, __aexit__, __del__, try_except.
  erewrite !(bind_Ok (gets _buffer)) by reflexivity.
  rewrite (bool_decide_eq_true_2 _ Hb). simpl.
  erewrite !(bind_Raise buffer_force_flush) by exact E. done.
Qed.

(** C7 (the code departs from the claim).  On a handler with 51 paths, one
    buffered message and a worker pool that was shut down, [clear_all] and
    [__exit__] raise [FileHandlerBufferError] and skip the remaining steps:
    the 51 slots stay open and the path list stays set.  The same happens
    on one path when the disk rejects every write.  Only [__del__] keeps
    the error from the caller. *)
Theorem teardown_propagates_flush_failure :
  let s := pending_stopped in
  let e := ExnFrom FileHandlerBufferError Rewrapped
             (Exn RuntimeError CannotScheduleAfterShutdown) in
  (@clear_all posix4 s).1 = Raise e
  ∧ (@__exit__ posix4 s).1 = Raise e
  ∧ length (_temp_sync_pool (@clear_all posix4 s).2) = 51%nat
  ∧ length (_file_paths (@clear_all posix4 s).2) = 51%nat
  ∧ length (_temp_sync_pool (@__exit__ posix4 s).2) = 51%nat
  ∧ (@__del__ posix4 s).1 = Ok tt
  ∧ exn_cls
      (match (@clear_all broken_disk pending_one).1 with
       | Raise e' => e'
       | Ok _ => Exn ValueError EmptyData
       end) = FileHandlerBufferError
  ∧ _temp_sync_pool (@clear_all broken_disk pending_one).2 ≠ []
  ∧ _shutdown (_threadpool (@clear_all broken_disk pending_one).2) = false.
Proof.
  intros s e. repeat split; try (vm_compute; reflexivity).
  vm_compute. discriminate.
Qed.

(** ** Configuration (C3) *)

(** C3 as stated fails.  A keyword left out of the call is overwritten
    with the default of the signature: the fixture's [retry_limit = 0]
    becomes 3. *)
Lemma omitted_field_reset_to_default : ¬ unsupplied_fields_kept.
Proof.
  intros Hclaim.
  destruct (Hclaim partial_call fixture_handler) as (_ & _ & Hrl & _).
  specialize (Hrl eq_refl). vm_compute in Hrl. discriminate.
Qed.

Lemma bind_Ok_inv {A B} (m : M A) (k : A → M B) s b s' :
  (m ≫= k) s = (Ok b, s') → ∃ a s1, m s = (Ok a, s1) ∧ k a s1 = (Ok b, s').
Proof.
  unfold mbind, M_bind. destruct (m s) as [[a|e] s1]; [by eauto|done].
Qed.

Lemma wrapping_Ok_inv {A} cls (m : M A) s a s' :
  wrapping cls m s = (Ok a, s') → m s = (Ok a, s').
Proof.
  unfold wrapping, try_except, raise. by destruct (m s) as [[a0|e] s1].
Qed.

(** Checking the names of the paths changes nothing. *)
Lemma name_check_state (paths : list Path) s r s' :
  for_each paths (λ path,
    when (255 <? Z.of_nat (length (name path)))
      (raise (Exn ValueError (NameTooLong path)))) s = (r, s') → s' = s.
Proof.
  revert s. induction paths as [|p paths IH]; intros s; simpl.
  - munfold. by intros [= _ <-].
  - munfold. destruct (255 <? Z.of_nat (length (name p))); simpl.
    + by intros [= _ <-].
    + apply IH.
Qed.

(** The state after a setter that is skipped or succeeds. *)
Ltac setter_effect setter :=
  let E := fresh "E" in
  intros E; unfold unless_none, setter, wrapping, try_except in E;
  munfold; repeat (case_match; simplify_eq/=); try done;
  match goal with s : state |- _ => by destruct s end.

Lemma file_paths_effect o s s' :
  unless_none o file_paths_setter s = (Ok tt, s') →
  s' = set_file_paths (default (_file_paths s) o) s.
Proof.
  destruct o as [paths|]; simpl.
  2:{ munfold. intros [= <-]. by destruct s. }
  unfold file_paths_setter. intros E%wrapping_Ok_inv.
  destruct paths as [|p paths]; [done|].
  apply bind_Ok_inv in E as ([] & s1 & E1 & E2).
  apply name_check_state in E1 as ->. unfold modify in E2. by simplify_eq.
Qed.

Lemma write_mode_effect o s s' :
  unless_none o write_mode_setter s = (Ok tt, s') →
  s' = set_write_mode (default (_write_mode s) o) s.
Proof. setter_effect write_mode_setter. Qed.

Lemma retry_limit_effect o s s' :
  unless_none o retry_limit_setter s = (Ok tt, s') →
  s' = set_retry_limit (default (_retry_limit s) o) s.
Proof. setter_effect retry_limit_setter. Qed.

Lemma retry_delay_effect o s s' :
  unless_none o retry_delay_setter s = (Ok tt, s') →
  s' = set_retry_delay (default (_retry_delay s) o) s.
Proof. setter_effect retry_delay_setter. Qed.

Lemma backoff_factor_effect o s s' :
  unless_none o backoff_factor_setter s = (Ok tt, s') →
  s' = set_backoff_factor (default (_backoff_factor s) o) s.
Proof. setter_effect backoff_factor_setter. Qed.

Lemma max_file_size_effect o s s' :
  unless_none o max_file_size_setter s = (Ok tt, s') →
  s' = set_max_file_size (default (_max_file_size s) o) s.
Proof. setter_effect max_file_size_setter. Qed.

Lemma max_rotation_effect o s s' :
  unless_none o max_rotation_setter s = (Ok tt, s') →
  s' = set_max_rotation (default (_max_rotation s) o) s.
Proof. setter_effect max_rotation_setter. Qed.

Lemma max_buffer_size_effect o s s' :
  unless_none o max_buffer_size_setter s = (Ok tt, s') →
  s' = set_max_buffer_size (default (_max_buffer_size s) o) s.
Proof. setter_effect max_buffer_size_setter. Qed.

Lemma use_write_flush_effect o s s' :
  unless_none o use_write_flush_setter s = (Ok tt, s') →
  s' = set_use_write_flush (default (_use_write_flush s) o) s.
Proof. setter_effect use_write_flush_setter. Qed.

(** A successful [config] puts every received value in its field and
    leaves everything else alone. *)
Lemma config_success o1 o2 o3 o4 o5 o6 o7 o8 o9 s s' :
  config o1 o2 o3 o4 o5 o6 o7 o8 o9 s = (Ok tt, s') →
  s' = mkState (default (_file_paths s) o1) (default (_write_mode s) o2)
         (default (_retry_limit s) o3) (default (_retry_delay s) o4)
         (default (_backoff_factor s) o5) (default (_max_file_size s) o6)
         (default (_max_rotation s) o7) (default (_max_buffer_size s) o8)
         (default (_use_write_flush s) o9)
         (_temp_sync_pool s) (_threadpool s) (_buffer s) (fs s)
         (io_count s) (clock s) (trace s).
Proof.
  unfold config. intros E%wrapping_Ok_inv.
  apply bind_Ok_inv in E as ([] & s1 & E1%file_paths_effect & E).
  apply bind_Ok_inv in E as ([] & s2 & E2%write_mode_effect & E).
  apply bind_Ok_inv in E as ([] & s3 & E3%retry_limit_effect & E).
  apply bind_Ok_inv in E as ([] & s4 & E4%retry_delay_effect & E).
  apply bind_Ok_inv in E as ([] & s5 & E5%backoff_factor_effect & E).
  apply bind_Ok_inv in E as ([] & s6 & E6%max_file_size_effect & E).
  apply bind_Ok_inv in E as ([] & s7 & E7%max_rotation_effect & E).
  apply bind_Ok_inv in E as ([] & s8 & E8%max_buffer_size_effect & E).
  apply use_write_flush_effect in E.
  subst. by destruct s.
Qed.

(** Unfold [config] down to the assignments. *)
Ltac config_frame :=
  unfold config, unless_none, file_paths_setter, write_mode_setter,
    retry_limit_setter, retry_delay_setter, backoff_factor_setter,
    max_file_size_setter, max_rotation_setter, max_buffer_size_setter,
    use_write_flush_setter;
  frame.

Lemma config_rule o1 o2 o3 o4 o5 o6 o7 o8 o9 s :
  let r := config o1 o2 o3 o4 o5 o6 o7 o8 o9 s in
  let ok := r.1 = Ok tt in
  field_rule o1 (_file_paths s) (_file_paths r.2) ok
  ∧ field_rule o2 (_write_mode s) (_write_mode r.2) ok
  ∧ field_rule o3 (_retry_limit s) (_retry_limit r.2) ok
  ∧ field_rule o4 (_retry_delay s) (_retry_delay r.2) ok
  ∧ field_rule o5 (_backoff_factor s) (_backoff_factor r.2) ok
  ∧ field_rule o6 (_max_file_size s) (_max_file_size r.2) ok
  ∧ field_rule o7 (_max_rotation s) (_max_rotation r.2) ok
  ∧ field_rule o8 (_max_buffer_size s) (_max_buffer_size r.2) ok
  ∧ field_rule o9 (_use_write_flush s) (_use_write_flush r.2) ok
  ∧ _temp_sync_pool r.2 = _temp_sync_pool s
  ∧ _threadpool r.2 = _threadpool s
  ∧ _buffer r.2 = _buffer s
  ∧ fs r.2 = fs s
  ∧ io_count r.2 = io_count s
  ∧ clock r.2 = clock s
  ∧ trace r.2 = trace s.
Proof.
  intros r ok.
  assert (ok → r.2 = mkState (default (_file_paths s) o1)
         (default (_write_mode s) o2)
         (default (_retry_limit s) o3) (default (_retry_delay s) o4)
         (default (_backoff_factor s) o5) (default (_max_file_size s) o6)
         (default (_max_rotation s) o7) (default (_max_buffer_size s) o8)
         (default (_use_write_flush s) o9)
         (_temp_sync_pool s) (_threadpool s) (_buffer s) (fs s)
         (io_count s) (clock s) (trace s)) as Hok.
  { subst ok r. intros Hok. apply config_success.
    destruct (config _ _ _ _ _ _ _ _ _ s) as [r s']. simpl in *. by subst. }
  unfold field_rule.
  repeat split;
    lazymatch goal with
    | |- match ?o with _ => _ end =>
        destruct o; [by intros ->%Hok|]
    | _ => idtac
    end.
  all: subst r.
  - exact ((ltac:(config_frame) :
      preserves _file_paths (config None o2 o3 o4 o5 o6 o7 o8 o9)) s).
  - exact ((ltac:(config_frame) :
      preserves _write_mode (config o1 None o3 o4 o5 o6 o7 o8 o9)) s).
  - exact ((ltac:(config_frame) :
      preserves _retry_limit (config o1 o2 None o4 o5 o6 o7 o8 o9)) s).
  - exact ((ltac:(config_frame) :
      preserves _retry_delay (config o1 o2 o3 None o5 o6 o7 o8 o9)) s).
  - exact ((ltac:(config_frame) :
      preserves _backoff_factor (config o1 o2 o3 o4 None o6 o7 o8 o9)) s).
  - exact ((ltac:(config_frame) :
      preserves _max_file_size (config o1 o2 o3 o4 o5 None o7 o8 o9)) s).
  - exact ((ltac:(config_frame) :
      preserves _max_rotation (config o1 o2 o3 o4 o5 o6 None o8 o9)) s).
  - exact ((ltac:(config_frame) :
      preserves _max_buffer_size (config o1 o2 o3 o4 o5 o6 o7 None o9)) s).
  - exact ((ltac:(config_frame) :
      preserves _use_write_flush (config o1 o2 o3 o4 o5 o6 o7 o8 None)) s).
  - exact ((ltac:(config_frame) :
      preserves _temp_sync_pool (config o1 o2 o3 o4 o5 o6 o7 o8 o9)) s).
  - exact ((ltac:(config_frame) :
      preserves _threadpool (config o1 o2 o3 o4 o5 o6 o7 o8 o9)) s).
  - exact ((ltac:(config_frame) :
      preserves _buffer (config o1 o2 o3 o4 o5 o6 o7 o8 o9)) s).
  - exact ((ltac:(config_frame) :
      preserves fs (config o1 o2 o3 o4 o5 o6 o7 o8 o9)) s).
  - exact ((ltac:(config_frame) :
      preserves io_count (config o1 o2 o3 o4 o5 o6 o7 o8 o9)) s).
  - exact ((ltac:(config_frame) :
      preserves clock (config o1 o2 o3 o4 o5 o6 o7 o8 o9)) s).
  - exact ((ltac:(config_frame) :
      preserves trace (config o1 o2 o3 o4 o5 o6 o7 o8 o9)) s).
Qed.

(** C3 (amended).  A call of [config] (or [config_dict]) changes a field
    only when the parameter received a value: a field passed as [None]
    keeps its value, whatever the outcome, while a keyword left out
    receives the default of the signature, so that after a successful call
    the field holds the given value or that default.  [file_paths] has no
    default and must be passed.  Nothing but the nine settings changes. *)
Theorem config_applies_received_values (kw : config_args) (s : state) :
  let r := config_dict kw s in
  let ok := r.1 = Ok tt in
  field_rule (received [] (a_file_paths kw))
    (_file_paths s) (_file_paths r.2) ok
  ∧ field_rule (received APPEND (a_write_mode kw))
      (_write_mode s) (_write_mode r.2) ok
  ∧ field_rule (received 3 (a_retry_limit kw))
      (_retry_limit s) (_retry_limit r.2) ok
  ∧ field_rule (received (5 # 10) (a_retry_delay kw))
      (_retry_delay s) (_retry_delay r.2) ok
  ∧ field_rule (received (2 # 10) (a_backoff_factor kw))
      (_backoff_factor s) (_backoff_factor r.2) ok
  ∧ field_rule (received (10 * 1024 * 1024) (a_max_file_size kw))
      (_max_file_size s) (_max_file_size r.2) ok
  ∧ field_rule (received 5 (a_max_rotation kw))
      (_max_rotation s) (_max_rotation r.2) ok
  ∧ field_rule (received (1024 * 1024) (a_max_buffer_size kw))
      (_max_buffer_size s) (_max_buffer_size r.2) ok
  ∧ field_rule (received true (a_use_write_flush kw))
      (_use_write_flush s) (_use_write_flush r.2) ok
  ∧ _temp_sync_pool r.2 = _temp_sync_pool s
  ∧ _threadpool r.2 = _threadpool s
  ∧ _buffer r.2 = _buffer s
  ∧ fs r.2 = fs s
  ∧ io_count r.2 = io_count s
  ∧ clock r.2 = clock s
  ∧ trace r.2 = trace s.
Proof.
  unfold config_dict, config_call.
  destruct (a_file_paths kw) as [| |paths] eqn:Hpaths;
    [|apply config_rule..].
  simpl. unfold field_rule.
  repeat split; repeat case_match; done.
Qed.

(** ** Retry and backoff (C4) *)

Section Retry.
Context `{Platform}.

(** A write that the device rejects: one failed [file.write] is recorded,
    nothing reaches the file. *)
Lemma write_attempt_fault path m f bytes s :
  pool_get path (_temp_sync_pool s) = Some f →
  f_closed f = false →
  utf8_encode (m ++ [10%N]) = Some bytes →
  io_fault (io_count s) = true →
  write_attempt path m s
  = (Raise (Exn OSError (IOFault path)),
     set_trace (EvWrite path (clock s) false :: trace s)
       (set_io_count (S (io_count s)) s)).
Proof.
  intros Hf Hc He Hio.
  unfold write_attempt, file_write, pool_lookup, fallible. munfold.
  rewrite Hf, Hc, He, Hio. simpl. by destruct s.
Qed.

Lemma backoff_wait_effect counter s :
  (0 <= _retry_delay s)%Q → (0 <= _backoff_factor s)%Q →
  (_backoff_factor s ^ (counter - 1) <= float_max)%Q →
  (spec_delay (_retry_delay s) (_backoff_factor s) counter <= sleep_max)%Q →
  ∃ t, backoff_wait counter s = (Ok tt, set_clock t s)
       ∧ (t - clock s == spec_delay (_retry_delay s) (_backoff_factor s)
                           counter)%Q.
Proof.
  intros Hrd Hbf Hpow Hmax. unfold backoff_wait, spec_delay, sleep, float_pow in *.
  munfold.
  destruct (Qlt_le_dec 0 (_retry_delay s)) as [Hpos|Hzero].
  - destruct (Qeq_bool (_backoff_factor s) 0) eqn:Hz; simpl.
    + apply Qeq_bool_iff in Hz.
      destruct (Qlt_le_dec 0 (_backoff_factor s)) as [Hlt|_].
      { rewrite Hz in Hlt. by apply Qlt_irrefl in Hlt. }
      destruct (Qlt_le_dec (_retry_delay s) 0) as [Hneg|_].
      { by apply Qlt_not_le in Hneg. }
      destruct (Qlt_le_dec sleep_max (_retry_delay s)) as [Hbig|_].
      { by apply Qlt_not_le in Hbig. }
      eexists. split; [reflexivity|]. ring.
    + apply Qeq_bool_neq in Hz.
      destruct (Qlt_le_dec 0 (_backoff_factor s)) as [_|Hle].
      2:{ destruct Hz. by apply Qle_antisym. }
      destruct (Qlt_le_dec float_max _) as [Hbig|_].
      { by apply Qlt_not_le in Hbig. }
      destruct (Qlt_le_dec _ 0) as [Hneg|_].
      { apply Qlt_not_le in Hneg. destruct Hneg.
        apply Qmult_le_0_compat; [done|]. by apply Qpower_0_le. }
      destruct (Qlt_le_dec sleep_max _) as [Hbig|_].
      { by apply Qlt_not_le in Hbig. }
      eexists. split; [reflexivity|]. ring.
  - assert (_retry_delay s == 0)%Q as Hz by (by apply Qle_antisym).
    exists (clock s). split; [by destruct s|].
    destruct (Qlt_le_dec 0 (_backoff_factor s)); rewrite Hz; ring.
Qed.

Lemma retry_loop_persistent path m f bytes :
  f_closed f = false →
  utf8_encode (m ++ [10%N]) = Some bytes →
  ∀ (n : nat) (counter : Z) (s : state),
    (1 ≤ n)%nat →
    counter + Z.of_nat n = _retry_limit s →
    (0 <= _retry_delay s)%Q → (0 <= _backoff_factor s)%Q →
    (∀ k : Z, counter < k < _retry_limit s →
       (_backoff_factor s ^ (k - 1) <= float_max)%Q
       ∧ (spec_delay (_retry_delay s) (_backoff_factor s) k <= sleep_max)%Q) →
    pool_get path (_temp_sync_pool s) = Some f →
    (∀ k, (k < n)%nat → io_fault (io_count s + k) = true) →
    ∃ s' ts,
      retry_loop n counter path m s
        = (Raise (retries_exhausted path (_retry_limit s)), s')
      ∧ trace s' = rev ((λ t, EvWrite path t false) <$> ts) ++ trace s
      ∧ length ts = n
      ∧ ts !! 0%nat = Some (clock s)
      ∧ (∀ (k : nat) t t',
           ts !! k = Some t → ts !! S k = Some t' →
           (t' - t == spec_delay (_retry_delay s) (_backoff_factor s)
                        (counter + Z.of_nat k + 1))%Q)
      ∧ fs s' = fs s.
Proof.
  intros Hc He.
  induction n as [|n IH]; intros counter s Hn Hsum Hrd Hbf Hwaits Hf Hio;
    [lia|].
  pose proof (write_attempt_fault path m f bytes s Hf Hc He) as Hw.
  rewrite <- (Nat.add_0_r (io_count s)) in Hw at 1.
  specialize (Hw (Hio 0%nat ltac:(lia))).
  set (s1 := set_trace (EvWrite path (clock s) false :: trace s)
               (set_io_count (S (io_count s)) s)) in *.
  simpl retry_loop.
  destruct (Z.leb_spec (_retry_limit s) (counter + 1)) as [Hlast|Hmore].
  - (* the last attempt *)
    assert (n = 0%nat) as -> by lia.
    exists s1, [clock s].
    split.
    { erewrite bind_Raise; [reflexivity|].
      erewrite try_except_Raise
        by (erewrite bind_Raise by exact Hw; reflexivity).
      erewrite (bind_Ok (gets _retry_limit)) by reflexivity.
      replace (_retry_limit s1) with (_retry_limit s) by (by destruct s).
      destruct (Z.leb_spec (_retry_limit s) (counter + 1)); [done|lia]. }
    repeat split; by destruct s.
  - destruct (Hwaits (counter + 1) ltac:(lia)) as [Hpow Hmax].
    destruct (backoff_wait_effect (counter + 1) s1) as (t1 & Ew & Ht1).
    { by destruct s. } { by destruct s. } { by destruct s. } { by destruct s. }
    set (s2 := set_clock t1 s1) in *.
    destruct (IH (counter + 1) s2) as (s' & ts & E & Htr & Hlen & H0 & Hd & Hfs).
    { lia. } { subst s2 s1. destruct s; simpl in *. lia. }
    { by destruct s. } { by destruct s. }
    { intros k Hk. subst s2 s1. destruct s; simpl in *. apply Hwaits. lia. }
    { by destruct s. }
    { intros k Hk. replace (io_count s2 + k)%nat with (io_count s + S k)%nat
        by (destruct s; simpl; lia). apply Hio. lia. }
    exists s', (clock s :: ts).
    replace (_retry_limit s2) with (_retry_limit s) in E by (by destruct s).
    split.
    { erewrite (bind_Ok _ _ s false s2); [exact E|].
      erewrite try_except_Raise
        by (erewrite bind_Raise by exact Hw; reflexivity).
      erewrite (bind_Ok (gets _retry_limit)) by reflexivity.
      replace (_retry_limit s1) with (_retry_limit s) by (by destruct s).
      destruct (Z.leb_spec (_retry_limit s) (counter + 1)); [lia|].
      by erewrite bind_Ok by exact Ew. }
    split.
    { rewrite Htr. simpl. rewrite <- app_assoc. by destruct s. }
    split; [simpl; lia|]. split; [done|]. split; [|by rewrite Hfs; destruct s].
    intros [|k] t t' Ht Ht'; simpl in *.
    + simplify_eq.
      replace (counter + Z.of_nat 0 + 1) with (counter + 1) by lia.
      subst s2 s1. destruct s. exact Ht1.
    + replace (counter + Z.of_nat (S k) + 1)
        with (counter + 1 + Z.of_nat k + 1) by lia.
      specialize (Hd k t t' Ht Ht'). subst s2 s1. destruct s. exact Hd.
Qed.

End Retry.

(** [_check_file_size] reads the file system and never raises. *)
Lemma _check_file_size_result m p s :
  _check_file_size m p s
  = (Ok match fs s !! p, utf8_encode m with
        | Some content, Some b =>
            bool_decide (_max_file_size s
                         < Z.of_nat (length content) + Z.of_nat (length b))
        | _, _ => false
        end, s).
Proof.
  unfold _check_file_size. munfold.
  destruct (fs s !! p); [|done]. by destruct (utf8_encode m).
Qed.




(** ** Rotation (C5) *)

(** C5 as stated fails.  In a directory with [a.log] and [a_2.log] but no
    [a_1.log], rotating with [max_rotation = 2] leaves [a_2.log] as it
    was. *)
Lemma gap_keeps_oldest : ¬ rotation_discards_oldest.
Proof.
  intros Hclaim.
  destruct (Hclaim posix4 gapped_handler (py "x") (tmp "a.log")
              (py "0123456789") (py "x") (py "other")) as (_ & _ & Hsame);
    [by vm_compute..|].
  assert (∀ a b : gmap Path (list N), a = b →
            a !! tmp "a_2.log" = b !! tmp "a_2.log") as Hlook
    by (by intros ?? ->).
  apply Hlook in Hsame. vm_compute in Hsame. discriminate.
Qed.

(** *** Sibling names *)

Lemma py_inj s1 s2 : py s1 = py s2 → s1 = s2.
Proof.
  unfold py. revert s2.
  induction s1 as [|a s1 IH]; intros [|b s2] E; simpl in E; try done.
  injection E as Ea El.
  apply (f_equal ascii_of_N) in Ea. rewrite !ascii_N_embedding in Ea.
  f_equal; [done|by apply IH].
Qed.

Lemma stem_suffix p : stem p ++ suffix p = name p.
Proof.
  unfold stem, suffix, split_suffix.
  destruct (rfind 46 (name p)) as [i|]; simpl; [|apply app_nil_r].
  destruct (_ && _); simpl; [apply take_drop|apply app_nil_r].
Qed.

Lemma sibling_inj p i j : sibling p i = sibling p j → i = j.
Proof.
  unfold sibling, rotated_name. intros [= E].
  apply app_inv_head in E. injection E as E.
  apply app_inv_tail in E. apply py_inj in E.
  by apply (inj pretty) in E.
Qed.

Lemma sibling_ne_self p i : sibling p i ≠ p.
Proof.
  unfold sibling, rotated_name. destruct p as [dir nm]. simpl.
  intros [= E]. apply (f_equal length) in E.
  rewrite <- (stem_suffix (mkPath dir nm)) in E at 3.
  rewrite !length_app in E. simpl in E. rewrite length_app in E. lia.
Qed.

Lemma range_down_cons h : 1 ≤ h → range_down h = h :: range_down (h - 1).
Proof.
  intros Hh. unfold range_down.
  replace (Z.to_nat h) with (S (Z.to_nat (h - 1))) by lia.
  rewrite seq_S, rev_app_distr. simpl. f_equal. lia.
Qed.

(** *** The rename chain on the file table *)

Lemma spec_shift_self p files i : spec_shift p files i !! p = files !! p.
Proof.
  unfold spec_shift. destruct (files !! sibling p i); [|done].
  rewrite lookup_insert_ne by apply sibling_ne_self.
  rewrite !lookup_delete_ne by apply sibling_ne_self. done.
Qed.

Lemma spec_shifts_self p files l :
  foldl (spec_shift p) files l !! p = files !! p.
Proof.
  revert files. induction l as [|i l IH]; intros files; simpl; [done|].
  by rewrite IH, spec_shift_self.
Qed.

(** After a rotation with [max_rotation ≥ 1] the old content is at [_1]
    and the file itself is empty. *)
Lemma spec_rotate_first p n files content :
  n ≠ 0 → files !! p = Some content →
  spec_rotate p n files !! sibling p 1 = Some content
  ∧ spec_rotate p n files !! p = Some [].
Proof.
  intros Hn Hp. unfold spec_rotate.
  destruct (Z.eqb_spec n 0); [done|]. simpl.
  rewrite spec_shifts_self, Hp. split.
  - rewrite lookup_insert_ne by (intros E; by apply (sibling_ne_self p 1)).
    apply lookup_insert_eq.
  - apply lookup_insert_eq.
Qed.

(** What [_N] held before the rotation does not matter, provided the chain
    reaches it. *)
Lemma spec_rotate_discards p n files content junk :
  1 ≤ n → files !! p = Some content →
  n = 1 ∨ is_Some (files !! sibling p (n - 1)) →
  spec_rotate p n (<[sibling p n := junk]> files) = spec_rotate p n files.
Proof.
  intros Hn Hp Hreach. unfold spec_rotate.
  destruct (Z.eqb_spec n 0); [lia|]. simpl.
  destruct (decide (n = 1)) as [->|Hn1].
  - simpl. rewrite lookup_insert_ne by apply sibling_ne_self. rewrite Hp.
    by rewrite delete_insert_eq.
  - destruct Hreach as [?|[c Hc]]; [done|].
    rewrite (range_down_cons (n - 1)) by lia. simpl.
    assert (spec_shift p (<[sibling p n := junk]> files) (n - 1)
            = spec_shift p files (n - 1)) as ->; [|done].
    unfold spec_shift.
    rewrite lookup_insert_ne by (intros E%sibling_inj; lia).
    rewrite Hc. replace (n - 1 + 1) with n by lia.
    by rewrite delete_insert_eq.
Qed.

(** *** The code follows the chain *)

Lemma set_fs_fs s : set_fs (fs s) s = s.
Proof. by destruct s. Qed.

Lemma set_fs_set_fs v w s : set_fs v (set_fs w s) = set_fs v s.
Proof. by destruct s. Qed.

Lemma fs_set_fs v s : fs (set_fs v s) = v.
Proof. by destruct s. Qed.

Lemma pool_get_del_eq p pool : pool_get p (pool_del p pool) = None.
Proof.
  induction pool as [|[k g] pool IH]; simpl; [done|].
  case_decide; [done|]. simpl. by rewrite decide_False.
Qed.

Lemma path_with_name_sibling p i s :
  name p ≠ [] → path_with_name p (rotated_name p i) s = (Ok (sibling p i), s).
Proof.
  intros Hn. unfold path_with_name, with_name, sibling.
  by destruct (name p).
Qed.

Lemma path_exists_result p s :
  path_exists p s = (Ok (bool_decide (is_Some (fs s !! p))), s).
Proof. done. Qed.

Lemma shift_rotated_spec p i s :
  name p ≠ [] →
  shift_rotated p i s = (Ok tt, set_fs (spec_shift p (fs s) i) s).
Proof.
  intros Hn. unfold shift_rotated, spec_shift.
  erewrite bind_Ok by (by apply path_with_name_sibling).
  erewrite bind_Ok by (by apply path_with_name_sibling).
  erewrite bind_Ok by apply path_exists_result.
  destruct (fs s !! sibling p i) as [c|] eqn:Hc.
  2:{ rewrite bool_decide_eq_false_2 by (by intros [? ?]).
      simpl. by rewrite set_fs_fs. }
  rewrite bool_decide_eq_true_2 by done. simpl.
  erewrite bind_Ok by apply path_exists_result.
  assert (sibling p i ≠ sibling p (i + 1)) as Hne
    by (intros E%sibling_inj; lia).
  assert (∀ s1, fs s1 !! sibling p i = Some c →
            rename (sibling p i) (sibling p (i + 1)) s1
            = (Ok tt, set_fs (<[sibling p (i + 1) := c]>
                                (delete (sibling p i) (fs s1))) s1)) as Hren.
  { intros s1 E. unfold rename. erewrite bind_Ok by reflexivity.
    by rewrite E. }
  destruct (fs s !! sibling p (i + 1)) as [c'|] eqn:Hc'.
  - rewrite bool_decide_eq_true_2 by done. simpl.
    erewrite bind_Ok.
    2:{ unfold unlink. erewrite bind_Ok by reflexivity. by rewrite Hc'. }
    rewrite Hren by (rewrite fs_set_fs, lookup_delete_ne; done).
    by rewrite fs_set_fs, set_fs_set_fs.
  - rewrite bool_decide_eq_false_2 by (by intros [? ?]). simpl.
    erewrite (bind_Ok (mret tt)) by reflexivity.
    rewrite Hren by done. by rewrite (delete_id _ _ Hc').
Qed.

Lemma shift_all_spec p l s :
  name p ≠ [] →
  for_each l (shift_rotated p) s
  = (Ok tt, set_fs (foldl (spec_shift p) (fs s) l) s).
Proof.
  intros Hn. revert s. induction l as [|i l IH]; intros s; simpl.
  - by rewrite set_fs_fs.
  - erewrite bind_Ok by (by apply shift_rotated_spec).
    by rewrite IH, fs_set_fs, set_fs_set_fs.
Qed.

Section Rotate.
Context `{Platform}.

Lemma file_close_quiet p f s :
  pool_get p (_temp_sync_pool s) = Some f → f_closed f = false →
  io_fault (io_count s) = false →
  file_close p s
  = (Ok tt, set_io_count (S (io_count s))
              (set_pool (pool_set p (mkFile (f_mode f) (f_pos f) true)
                           (_temp_sync_pool s)) s)).
Proof.
  intros Hf Hc Hio. unfold file_close, pool_lookup, pool_put, fallible.
  munfold. rewrite Hf, Hc.
  replace (io_count (set_pool _ s)) with (io_count s) by (by destruct s).
  by rewrite Hio.
Qed.

Lemma evict_slot_Ok p s :
  closes_quietly p s →
  ∃ s1, evict_slot p s = (Ok tt, s1)
        ∧ fs s1 = fs s ∧ _max_rotation s1 = _max_rotation s
        ∧ pool_get p (_temp_sync_pool s1) = None.
Proof.
  unfold closes_quietly, evict_slot. intros Hq.
  erewrite bind_Ok by reflexivity.
  destruct (pool_get p (_temp_sync_pool s)) as [f|] eqn:Hf.
  2:{ exists s. by rewrite Hf. }
  destruct (f_closed f) eqn:Hc; simpl.
  - erewrite (bind_Ok (mret tt)) by reflexivity.
    eexists. split; [reflexivity|]. destruct s; simpl.
    by rewrite pool_get_del_eq.
  - destruct Hq as [?|Hio]; [done|].
    erewrite bind_Ok by (by apply (file_close_quiet p f)).
    eexists. split; [reflexivity|]. destruct s; simpl.
    by rewrite pool_get_del_eq.
Qed.

Lemma _rotate_file_spec m p s content b :
  name p ≠ [] →
  fs s !! p = Some content → utf8_encode m = Some b →
  _max_file_size s < Z.of_nat (length content) + Z.of_nat (length b) →
  closes_quietly p s →
  ∃ s', _rotate_file m p s = (Ok tt, s')
        ∧ fs s' = spec_rotate p (_max_rotation s) (fs s)
        ∧ pool_get p (_temp_sync_pool s') = None.
Proof.
  intros Hn Hp Hb Hbig Hq.
  destruct (evict_slot_Ok p s Hq) as (s1 & E1 & Hfs1 & Hrot1 & Hpool1).
  exists (set_fs (spec_rotate p (_max_rotation s) (fs s)) s1).
  split; [|split; [apply fs_set_fs|by destruct s1]].
  unfold _rotate_file, spec_rotate. apply wrapping_Ok.
  erewrite bind_Ok by apply _check_file_size_result.
  rewrite Hp, Hb, bool_decide_eq_true_2 by done. simpl.
  erewrite bind_Ok by exact E1.
  erewrite bind_Ok by reflexivity. rewrite Hrot1.
  destruct (_max_rotation s =? 0).
  { unfold write_text_empty, modify. by rewrite Hfs1. }
  erewrite bind_Ok by (by apply shift_all_spec).
  erewrite bind_Ok by (by apply path_with_name_sibling).
  erewrite bind_Ok by apply path_exists_result.
  rewrite !fs_set_fs, Hfs1.
  set (shifted := foldl (spec_shift p) (fs s) _).
  assert (shifted !! p = Some content) as Hsp
    by (subst shifted; by rewrite spec_shifts_self).
  rewrite Hsp.
  assert (when (bool_decide (is_Some (shifted !! sibling p 1)))
            (unlink (sibling p 1)) (set_fs shifted s1)
          = (Ok tt, set_fs (delete (sibling p 1) shifted) s1)) as E2.
  { destruct (shifted !! sibling p 1) as [c1|] eqn:Hc1.
    - rewrite bool_decide_eq_true_2 by done. simpl. unfold unlink.
      erewrite bind_Ok by reflexivity. rewrite fs_set_fs, Hc1.
      unfold modify. by rewrite set_fs_set_fs.
    - rewrite bool_decide_eq_false_2 by (by intros [? ?]). simpl.
      by rewrite (delete_id _ _ Hc1). }
  erewrite bind_Ok by exact E2.
  erewrite bind_Ok.
  2:{ unfold rename. erewrite bind_Ok by reflexivity.
      rewrite fs_set_fs, lookup_delete_ne by apply sibling_ne_self.
      rewrite Hsp. reflexivity. }
  unfold touch. erewrite bind_Ok by reflexivity.
  rewrite !fs_set_fs, !set_fs_set_fs.
  rewrite lookup_insert_ne by apply sibling_ne_self.
  rewrite lookup_delete_eq. unfold modify. by rewrite set_fs_set_fs.
Qed.

End Rotate.

(** C5 (amended).  A rotation that is due performs the rename chain of the
    specification: with [max_rotation = 0] the file is truncated and no
    other file changes; with [max_rotation ≥ 1] the siblings are shifted
    from [max_rotation - 1] down to 1, [_1] is replaced by the file and an
    empty file is recreated, so that the old content is at [_1] and the
    file is empty.  What [_N] held is discarded when [N = 1] or [_(N-1)]
    exists; otherwise the chain never reaches [_N] and it stays. *)
Theorem rotation_rename_chain `{Platform} (s : state) (m : pystr) (p : Path)
    (content b : list N) :
  name p ≠ [] →
  fs s !! p = Some content → utf8_encode m = Some b →
  _max_file_size s < Z.of_nat (length content) + Z.of_nat (length b) →
  closes_quietly p s →
  ∃ s', _rotate_file m p s = (Ok tt, s')
    ∧ fs s' = spec_rotate p (_max_rotation s) (fs s)
    ∧ pool_get p (_temp_sync_pool s') = None
    ∧ (_max_rotation s = 0 → fs s' = <[p := []]> (fs s))
    ∧ (1 ≤ _max_rotation s →
       fs s' !! sibling p 1 = Some content
       ∧ fs s' !! p = Some []
       ∧ (_max_rotation s = 1
          ∨ is_Some (fs s !! sibling p (_max_rotation s - 1)) →
          ∀ junk,
            fs (_rotate_file m p
                  (set_fs (<[sibling p (_max_rotation s) := junk]> (fs s))
                     s)).2
            = fs s')).
Proof.
  intros Hn Hp Hb Hbig Hq.
  destruct (_rotate_file_spec m p s content b) as (s' & E & Hfs & Hpool);
    try done.
  exists s'. split; [done|]. split; [done|]. split; [done|]. split.
  - intros H0. rewrite Hfs. unfold spec_rotate. by rewrite H0.
  - intros H1.
    destruct (spec_rotate_first p (_max_rotation s) (fs s) content)
      as [Hfirst Hself]; [lia|done|].
    rewrite Hfs. split; [done|]. split; [done|].
    intros Hreach junk.
    set (s0 := set_fs (<[sibling p (_max_rotation s) := junk]> (fs s)) s).
    destruct (_rotate_file_spec m p s0 content b) as (s2 & E2 & Hfs2 & _).
    + done.
    + subst s0. rewrite fs_set_fs. by rewrite lookup_insert_ne
        by apply sibling_ne_self.
    + done.
    + subst s0. by destruct s.
    + subst s0. unfold closes_quietly in *. by destruct s.
    + rewrite E2. simpl. rewrite Hfs2. subst s0. rewrite fs_set_fs.
      replace (_max_rotation (set_fs _ s)) with (_max_rotation s)
        by (by destruct s).
      by apply (spec_rotate_discards p _ _ content).
Qed.

Lemma rotation_rename_chain_witness :
  let p := tmp "a.log" in
  ∃ s', @_rotate_file posix4 (py "x") p full_chain_handler = (Ok tt, s')
        ∧ fs s' !! tmp "a_1.log" = Some (py "0123456789")
        ∧ fs s' !! p = Some []
        ∧ fs s' !! tmp "a_2.log" = Some (py "newer").
Proof.
  intros p.
  destruct (@rotation_rename_chain posix4 full_chain_handler (py "x") p
              (py "0123456789") (py "x"))
    as (s' & E & Hfs & _ & _ & Hchain); [by vm_compute..|].
  destruct Hchain as (Hfirst & Hself & _); [by vm_compute|].
  exists s'. split; [exact E|]. split; [exact Hfirst|]. split; [exact Hself|].
  rewrite Hfs. vm_compute. reflexivity.
Defined.

(** ** Well-formed handlers

    The hypotheses of the theorems above on the pool and on the settings
    hold in every state the handler can reach. *)

Section Maintains.
Context (P : state → Prop).

Lemma maintains_ret {A} (a : A) : maintains P (mret a).
Proof. by intros s. Qed.

Lemma maintains_raise {A} e : maintains P (@raise A e).
Proof. by intros s. Qed.

Lemma maintains_gets {A} (g : state → A) : maintains P (gets g).
Proof. by intros s. Qed.

Lemma maintains_modify g : (∀ s, P s → P (g s)) → maintains P (modify g).
Proof. intros Hg s. apply Hg. Qed.

Lemma maintains_bind {A C} (m : M A) (k : A → M C) :
  maintains P m → (∀ a, maintains P (k a)) → maintains P (m ≫= k).
Proof.
  intros Hm Hk s Hs. unfold mbind, M_bind. specialize (Hm s Hs).
  destruct (m s) as [[a|e] s1]; simpl in *; [|done]. by apply Hk.
Qed.

Lemma maintains_when b m : maintains P m → maintains P (when b m).
Proof. intros Hm. destruct b; [done|]. by intros s. Qed.

Lemma maintains_try_except {A} (m : M A) h :
  maintains P m → (∀ e, maintains P (h e)) → maintains P (try_except m h).
Proof.
  intros Hm Hh s Hs. unfold try_except. specialize (Hm s Hs).
  destruct (m s) as [[a|e] s1]; simpl in *; [done|]. by apply Hh.
Qed.

Lemma maintains_try_finally {A} (m : M A) fin :
  maintains P m → maintains P fin → maintains P (try_finally m fin).
Proof.
  intros Hm Hfin s Hs. unfold try_finally. specialize (Hm s Hs).
  destruct (m s) as [[a|e] s1]; simpl in *; specialize (Hfin s1 Hm);
    by destruct (fin s1) as [[[]|e'] s2].
Qed.

Lemma maintains_wrapping {A} cls (m : M A) :
  maintains P m → maintains P (wrapping cls m).
Proof.
  intros Hm. apply maintains_try_except; [done|].
  intros e. apply maintains_raise.
Qed.

Lemma maintains_for_each {A} (l : list A) body :
  (∀ x, maintains P (body x)) → maintains P (for_each l body).
Proof.
  intros Hb. induction l as [|x l IH]; simpl.
  - apply maintains_ret.
  - apply maintains_bind; [apply Hb | by intros _].
Qed.

Lemma maintains_run_task task : maintains P task → maintains P (run_task task).
Proof.
  intros Ht s Hs. unfold run_task. specialize (Ht s Hs).
  by destruct (task s) as [r s1].
Qed.

Lemma maintains_fallible `{Platform} e :
  (∀ n s, P s → P (set_io_count n s)) → maintains P (fallible e).
Proof.
  intros Hf s Hs. unfold fallible.
  destruct (io_fault (io_count s)); simpl; by apply Hf.
Qed.

End Maintains.

Lemma pool_set_elem k p f pool :
  k ≠ p → k ∈ (pool_set p f pool).*1 → k ∈ pool.*1.
Proof.
  intros Hne. induction pool as [|[k' g'] pool IH]; simpl.
  - intros [->|Hin]%elem_of_cons; [done|by apply elem_of_nil in Hin].
  - case_decide; simpl; [done|].
    intros [->|Hin]%elem_of_cons; [by left|right; by apply IH].
Qed.

Lemma pool_del_elem k p pool : k ∈ (pool_del p pool).*1 → k ∈ pool.*1.
Proof.
  induction pool as [|[k' g'] pool IH]; simpl; [done|].
  case_decide; simpl; [intros Hin; right; by apply IH|].
  intros [->|Hin]%elem_of_cons; [by left|right; by apply IH].
Qed.

Lemma pool_set_keys p f pool :
  NoDup pool.*1 → NoDup (pool_set p f pool).*1.
Proof.
  induction pool as [|[k g] pool IH]; simpl.
  - intros _. apply NoDup_singleton.
  - intros [Hk Hnd]%NoDup_cons. case_decide; simpl.
    + by apply NoDup_cons.
    + apply NoDup_cons. split; [|by apply IH].
      intros Hin. apply Hk. by apply (pool_set_elem k p f).
Qed.

Lemma pool_del_keys p pool : NoDup pool.*1 → NoDup (pool_del p pool).*1.
Proof.
  induction pool as [|[k g] pool IH]; simpl; [done|].
  intros [Hk Hnd]%NoDup_cons. case_decide; [by apply IH|]. simpl.
  apply NoDup_cons. split; [|by apply IH].
  intros Hin. apply Hk. by apply (pool_del_elem k p).
Qed.

Ltac wf_modify :=
  intros []; unfold well_formed; simpl;
  intros (? & ? & ? & ? & ? & ? & ?); repeat case_match; simpl;
  bools; repeat split;
  first [ done | lia | by apply pool_set_keys | by apply pool_del_keys
        | apply NoDup_nil_2 ].

Create HintDb wf.

Ltac head_of t :=
  lazymatch t with
  | ?f _ => head_of f
  | _ => t
  end.

(** Decompose along the program; operations already shown to keep the
    property are taken from the hint database, and any other operation is
    unfolded.  [on_modify] closes the goals left by assignments. *)
Ltac maintain_step_with on_modify :=
  first
    [ solve [auto with wf nocore]
    | lazymatch goal with
      | |- maintains _ (mret _) => apply maintains_ret
      | |- maintains _ (raise _) => apply maintains_raise
      | |- maintains _ (gets _) => apply maintains_gets
      | |- maintains _ (modify _) => apply maintains_modify; on_modify
      | |- maintains _ (_ ≫= _) => apply maintains_bind; [|intros ?]
      | |- maintains _ (when _ _) => apply maintains_when
      | |- maintains _ (try_except _ _) =>
          apply maintains_try_except; [|intros ?]
      | |- maintains _ (try_finally _ _) => apply maintains_try_finally
      | |- maintains _ (wrapping _ _) => apply maintains_wrapping
      | |- maintains _ (for_each _ _) => apply maintains_for_each; intros ?
      | |- maintains _ (run_task _) => apply maintains_run_task
      | |- maintains _ (fallible _) =>
          apply maintains_fallible; intros ?; on_modify
      | |- maintains _ (match ?x with _ => _ end) => destruct x eqn:?
      | |- maintains _ ?m => let h := head_of m in unfold h
      end ].

Ltac maintain_step := maintain_step_with wf_modify.

Ltac maintain := repeat maintain_step.

Section WellFormed.
Context `{Platform}.

Lemma retry_loop_wf n counter path m :
  maintains well_formed (retry_loop n counter path m).
Proof.
  revert counter. induction n as [|n IH]; intros counter; simpl.
  - apply maintains_ret.
  - maintain.
Qed.
Hint Resolve retry_loop_wf : wf.

Lemma _write_to_file_wf path m : maintains well_formed (_write_to_file path m).
Proof. unfold _write_to_file. maintain. Qed.
Hint Resolve _write_to_file_wf : wf.

Lemma submit_all_wf {A} (xs : list A) label task :
  (∀ x, maintains well_formed (task x)) →
  maintains well_formed (submit_all xs label task).
Proof.
  intros Ht. induction xs as [|x xs IH]; simpl.
  - apply maintains_ret.
  - maintain.
Qed.

Lemma _writer_handler_wf m : maintains well_formed (_writer_handler m).
Proof.
  unfold _writer_handler.
  repeat first [ apply submit_all_wf; intros ? | maintain_step ].
Qed.
Hint Resolve _writer_handler_wf : wf.

Lemma _async_writer_handler_wf m :
  maintains well_formed (_async_writer_handler m).
Proof. unfold _async_writer_handler. maintain. Qed.
Hint Resolve _async_writer_handler_wf : wf.

Lemma _init_sync_pool_wf : maintains well_formed _init_sync_pool.
Proof. unfold _init_sync_pool. maintain. Qed.
Hint Resolve _init_sync_pool_wf : wf.

Lemma clear_sync_pool_wf : maintains well_formed clear_sync_pool.
Proof. unfold clear_sync_pool. maintain. Qed.
Hint Resolve clear_sync_pool_wf : wf.

Lemma buffer_force_flush_wf : maintains well_formed buffer_force_flush.
Proof. unfold buffer_force_flush. maintain. Qed.
Hint Resolve buffer_force_flush_wf : wf.

(** Every operation of the handler keeps it well formed. *)
Lemma operations_keep_well_formed m wait kw :
  maintains well_formed (log m)
  ∧ maintains well_formed (async_log m)
  ∧ maintains well_formed buffer_force_flush
  ∧ maintains well_formed clear_sync_pool
  ∧ maintains well_formed clear_all
  ∧ maintains well_formed __exit__
  ∧ maintains well_formed (force_shutdown wait)
  ∧ maintains well_formed resume_pool
  ∧ maintains well_formed (config_dict kw).
Proof.
  repeat apply conj;
    lazymatch goal with
    | |- maintains _ ?m => let h := head_of m in unfold h
    end; maintain.
Qed.

(** A constructed handler is well formed. *)
Lemma constructed_well_formed paths mode rl rd bf mfs mr mbs flush files :
  well_formed (__init__ paths mode rl rd bf mfs mr mbs flush (unborn files)).2.
Proof.
  assert (maintains well_formed
            (__init__ paths mode rl rd bf mfs mr mbs flush)) as Hm
    by (unfold __init__; maintain).
  apply Hm. unfold well_formed, unborn. simpl.
  repeat split; try done. apply NoDup_nil_2.
Qed.

End WellFormed.

(** ** No run reaches the [GCManager] tier *)

Ltac gc_modify :=
  intros []; unfold no_gc; simpl; intros ?; repeat case_match; by simpl.

Ltac no_gc_step := maintain_step_with gc_modify.

Section NoGC.
Context `{Platform}.

Lemma retry_loop_no_gc n counter path m :
  maintains no_gc (retry_loop n counter path m).
Proof.
  revert counter. induction n as [|n IH]; intros counter; simpl.
  - apply maintains_ret.
  - repeat no_gc_step.
Qed.
Hint Resolve retry_loop_no_gc : wf.

Lemma _write_to_file_no_gc path m : maintains no_gc (_write_to_file path m).
Proof. unfold _write_to_file. repeat no_gc_step. Qed.
Hint Resolve _write_to_file_no_gc : wf.

Lemma submit_all_no_gc {A} (xs : list A) label task :
  (∀ x, maintains no_gc (task x)) →
  maintains no_gc (submit_all xs label task).
Proof.
  intros Ht. induction xs as [|x xs IH]; simpl.
  - apply maintains_ret.
  - repeat no_gc_step.
Qed.

Lemma batcher_no_gc {A} (data : list A) size : maintains no_gc (batcher data size).
Proof. unfold batcher. repeat no_gc_step. Qed.
Hint Resolve batcher_no_gc : wf.

Lemma dispatch_batches_no_gc m batches :
  maintains no_gc (dispatch_batches m batches).
Proof.
  unfold dispatch_batches.
  repeat first [ apply submit_all_no_gc; intros ? | no_gc_step ].
Qed.
Hint Resolve dispatch_batches_no_gc : wf.

Lemma _writer_handler_no_gc m : maintains no_gc (_writer_handler m).
Proof.
  intros s Hs.
  destruct (Z.lt_ge_cases 50 (Z.of_nat (length (_file_paths s)))) as [Hlen|Hlen].
  - rewrite (proj1 (gc_tier_unreachable s m Hlen)).
    assert (maintains no_gc
              (batches ← batcher (_file_paths s) (-1); dispatch_batches m batches))
      as Hm by repeat no_gc_step.
    exact (Hm s Hs).
  - rewrite (proj1 (direct_tier s m Hlen)).
    assert (maintains no_gc
              (for_each (_file_paths s) (λ path, _write_to_file path m)))
      as Hm by repeat no_gc_step.
    exact (Hm s Hs).
Qed.
Hint Resolve _writer_handler_no_gc : wf.

Lemma _async_writer_handler_no_gc m :
  maintains no_gc (_async_writer_handler m).
Proof.
  intros s Hs.
  destruct (Z.lt_ge_cases 50 (Z.of_nat (length (_file_paths s)))) as [Hlen|Hlen].
  - rewrite (proj2 (gc_tier_unreachable s m Hlen)).
    assert (maintains no_gc
              (batches ← batcher (_file_paths s) (-1);
               for_each batches (_async_log_batch m)))
      as Hm by repeat no_gc_step.
    exact (Hm s Hs).
  - rewrite (proj2 (direct_tier s m Hlen)).
    assert (maintains no_gc (_async_writer m)) as Hm by repeat no_gc_step.
    exact (Hm s Hs).
Qed.
Hint Resolve _async_writer_handler_no_gc : wf.

(** Whatever the number of paths, logging and flushing never enter a
    [GCManager] block. *)
Lemma logging_never_enters_gcmanager m :
  maintains no_gc (log m) ∧ maintains no_gc (async_log m)
  ∧ maintains no_gc buffer_force_flush.
Proof.
  repeat apply conj;
    lazymatch goal with
    | |- maintains _ ?m => let h := head_of m in unfold h
    end; repeat no_gc_step.
Qed.

End NoGC.

(** ** A run through three rotations *)

(** With a budget of five bytes and two retained copies, every message
    after the first rotates the file: the second leaves [a_1.log], the
    third fills [a_2.log], and the fourth discards the oldest text. *)
Example three_rotations :
  let text (m : string) := Some (py m ++ [10%N]) in
  (files_after ["aaaa"; "bbbb"] !! tmp "a_1.log" = text "aaaa"
   ∧ files_after ["aaaa"; "bbbb"] !! tmp "a_2.log" = None)
  ∧ (files_after ["aaaa"; "bbbb"; "cccc"] !! tmp "a_1.log" = text "bbbb"
     ∧ files_after ["aaaa"; "bbbb"; "cccc"] !! tmp "a_2.log" = text "aaaa")
  ∧ (files_after ["aaaa"; "bbbb"; "cccc"; "dddd"] !! tmp "a.log" = text "dddd"
     ∧ files_after ["aaaa"; "bbbb"; "cccc"; "dddd"] !! tmp "a_1.log"
       = text "cccc"
     ∧ files_after ["aaaa"; "bbbb"; "cccc"; "dddd"] !! tmp "a_2.log"
       = text "bbbb").
Proof. repeat apply conj; vm_compute; reflexivity. Qed.

(** ** Batching *)

Lemma islice_batches_spec {A} (n : nat) :
  (1 ≤ n)%nat →
  ∀ (fuel : nat) (data : list A), (length data < fuel)%nat →
    concat (islice_batches fuel n data) = data
    ∧ Forall (λ b, b ≠ [] ∧ (length b ≤ n)%nat) (islice_batches fuel n data)
    ∧ (∀ (i : nat) b, islice_batches fuel n data !! i = Some b →
         (S i < length (islice_batches fuel n data))%nat → length b = n).
Proof.
  intros Hn. induction fuel as [|fuel IH]; intros data Hlen; [lia|].
  simpl. destruct (take n data) as [|x batch] eqn:Ht.
  { destruct data as [|y data]; [by repeat split|].
    destruct n; [lia|done]. }
  destruct (IH (drop n data)) as (Hc & Hall & Hfull).
  { rewrite length_drop.
    assert (length (take n data) ≠ 0)%nat by (by rewrite Ht).
    rewrite length_take in *. lia. }
  split; [|split].
  - pose proof (take_drop n data) as Htd. rewrite Ht in Htd.
    simpl. rewrite Hc. exact Htd.
  - constructor; [|done]. split; [done|].
    rewrite <- Ht, length_take. lia.
  - intros [|i] b Hb Hi; simpl in *.
    + injection Hb as <-. rewrite <- Ht, length_take.
      destruct (islice_batches fuel n (drop n data)) eqn:E; simpl in Hi; [lia|].
      assert (drop n data ≠ []) as Hd.
      { intros Hd. rewrite Hd in E. destruct fuel; simpl in E; [done|].
        by rewrite take_nil in E. }
      assert (length (drop n data) ≠ 0)%nat by (by destruct (drop n data)).
      rewrite length_drop in *. lia.
    + apply (Hfull i b Hb). lia.
Qed.

Lemma islice_batches_several {A} (n fuel : nat) (data : list A) :
  (1 ≤ n)%nat → (n < length data)%nat → (length data < fuel)%nat →
  ∃ b1 b2 bs, islice_batches fuel n data = b1 :: b2 :: bs.
Proof.
  intros Hn Hlen Hfuel.
  destruct fuel as [|[|fuel]]; [lia..|].
  simpl. destruct (take n data) as [|x batch] eqn:Ht.
  { apply (f_equal length) in Ht. rewrite length_take in Ht. simpl in Ht. lia. }
  destruct (take n (drop n data)) as [|y batch'] eqn:Ht'.
  { apply (f_equal length) in Ht'.
    rewrite length_take, length_drop in Ht'. simpl in Ht'. lia. }
  by eexists _, _, _.
Qed.

Section Batching.
Context `{Platform}.

Lemma _calculate_batch_size_positive {A} (data : list A) (batch_size : Z) :
  data ≠ [] → 1 ≤ _calculate_batch_size data batch_size.
Proof.
  intros Hd. unfold _calculate_batch_size.
  assert (1 ≤ Z.of_nat (length data)) by (destruct data; [done|simpl; lia]).
  repeat case_match; bools; lia.
Qed.

(** The size [batcher] and [batcher_with_gcmanager] slice with. *)
Lemma effective_size_positive {A} (data : list A) (batch_size : Z) :
  data ≠ [] →
  1 ≤ (if batch_size <=? 0 then _calculate_batch_size data batch_size
       else batch_size).
Proof.
  intros Hd. destruct (Z.leb_spec batch_size 0); [|lia].
  by apply _calculate_batch_size_positive.
Qed.

Lemma batcher_result {A} (data : list A) (batch_size : Z) s :
  data ≠ [] →
  batcher data batch_size s
  = (Ok (let size := if batch_size <=? 0
                     then _calculate_batch_size data batch_size
                     else batch_size in
         if Z.of_nat (length data) <=? size then [data]
         else islice_batches (S (length data)) (Z.to_nat size) data), s).
Proof.
  intros Hd. unfold batcher. destruct data; [done|]. simpl. by case_match.
Qed.

End Batching.

(** X1.  [batcher] on a non-empty list returns batches that, put end to
    end, are the list itself: nothing is lost, repeated or reordered.  No
    batch is empty or longer than the batch size (the given one when it is
    positive), and every batch but the last is full.  On an empty list it
    raises [ValueError]. *)
Theorem batcher_partitions `{Platform} {A} (data : list A) (batch_size : Z)
    (s : state) :
  data ≠ [] →
  batcher (@nil A) batch_size s = (Raise (Exn ValueError EmptyData), s)
  ∧ ∃ batches size,
      batcher data batch_size s = (Ok batches, s)
      ∧ 1 ≤ size ∧ (0 < batch_size → size = batch_size)
      ∧ concat batches = data
      ∧ Forall (λ b, b ≠ [] ∧ Z.of_nat (length b) ≤ size) batches
      ∧ (∀ (i : nat) b, batches !! i = Some b →
           (S i < length batches)%nat → Z.of_nat (length b) = size).
Proof.
  intros Hd. split; [done|].
  pose proof (effective_size_positive data batch_size Hd) as Hpos.
  rewrite (batcher_result data batch_size s Hd).
  set (size := if batch_size <=? 0 then _ else _) in *.
  eexists _, size. split; [reflexivity|].
  split; [done|]. split.
  { intros Hb. subst size. destruct (Z.leb_spec batch_size 0); [lia|done]. }
  cbv zeta.
  destruct (Z.leb_spec (Z.of_nat (length data)) size) as [Hle|Hgt].
  - split; [apply app_nil_r|]. split.
    + constructor; [|done]. done.
    + intros [|i] b Hb Hi; simpl in *; lia.
  - destruct (islice_batches_spec (Z.to_nat size) ltac:(lia)
                (S (length data)) data ltac:(lia)) as (Hc & Hall & Hfull).
    split; [done|]. split.
    + eapply Forall_impl; [exact Hall|]. intros b [? ?]. split; [done|lia].
    + intros i b Hb Hi. rewrite (Hfull i b Hb Hi). lia.
Qed.

Lemma batcher_partitions_witness :
  ∃ batches,
    @batcher posix4 _ [1; 2; 3; 4; 5; 6; 7] 3 (unborn ∅) = (Ok batches, unborn ∅)
    ∧ concat batches = [1; 2; 3; 4; 5; 6; 7]
    ∧ Forall (λ b, b ≠ [] ∧ Z.of_nat (length b) ≤ 3) batches.
Proof.
  destruct (@batcher_partitions posix4 _ [1; 2; 3; 4; 5; 6; 7] 3 (unborn ∅))
    as (_ & batches & size & E & _ & Hsize & Hc & Hall & _); [done|].
  rewrite Hsize in Hall by lia. by exists batches.
Defined.

(** X2.  [batcher_with_gcmanager] returns exactly the batches of [batcher];
    the only difference is that it enters a [GCManager] block when there is
    more than one batch.  Arguments outside their ranges are refused with a
    [ValueError] before the data is looked at. *)
Theorem gcmanager_batches_agree `{Platform} {A} (data : list A)
    (batch_size : Z) (max_memory_usage wait_time : Q) (s : state) :
  (batcher_with_gcmanager data batch_size max_memory_usage wait_time s
   = if Qle_bool 0 max_memory_usage && Qle_bool max_memory_usage 1
        && Qle_bool 0 wait_time
     then ((batcher data batch_size s).1,
           match (batcher data batch_size s).1 with
           | Ok (_ :: _ :: _) => set_trace (EvGCManager :: trace s) s
           | _ => s
           end)
     else (Raise (Exn ValueError OutOfRange), s)).
Proof.
  unfold batcher_with_gcmanager.
  destruct (Qle_bool 0 max_memory_usage && Qle_bool max_memory_usage 1);
    cbn [negb andb]; [|done].
  destruct (Qle_bool 0 wait_time); cbn [negb]; [|done].
  destruct data as [|x rest]; [done|]. cbv beta iota.
  assert (x :: rest ≠ []) as Hd by done.
  set (data := x :: rest) in *. clearbody data.
  rewrite (batcher_result data batch_size s Hd).
  pose proof (effective_size_positive data batch_size Hd) as Hpos.
  cbv zeta. cbn [fst].
  set (size := if batch_size <=? 0 then _ else _) in *.
  destruct (Z.leb_spec (Z.of_nat (length data)) size) as [Hle|Hgt]; [done|].
  destruct (islice_batches_several (Z.to_nat size) (S (length data)) data)
    as (b1 & b2 & bs & ->); [lia..|].
  done.
Qed.

(** X3.  The batch size computed for a non-empty list is at least one, so
    slicing always makes progress.  For fewer than a thousand items it never
    exceeds the number of items: without a positive request it is the
    number of CPU cores (one when unknown), capped by the number of items;
    a positive request below the number of items is kept.  A request of at
    least the number of items gives one batch of everything. *)
Theorem batch_size_bounds `{Platform} {A} (data : list A) (batch_size : Z) :
  data ≠ [] →
  let n := Z.of_nat (length data) in
  let r := _calculate_batch_size data batch_size in
  1 ≤ r
  ∧ (n < 1000 → r ≤ n)
  ∧ (n ≤ batch_size → r = n)
  ∧ (batch_size ≤ 0 → n < 1000 → r = Z.min n (Z.max (cpu_count_or 1) 1))
  ∧ (0 < batch_size → n < 1000 → r = Z.min n batch_size)
  ∧ _calculate_batch_size (@nil A) batch_size = 0.
Proof.
  intros Hd n r.
  assert (1 ≤ n) by (subst n; destruct data; [done|simpl; lia]).
  split; [by apply _calculate_batch_size_positive|].
  subst r. unfold _calculate_batch_size. fold n. simpl length.
  repeat split; intros; repeat case_match; bools; lia.
Qed.

Lemma batch_size_bounds_witness :
  @_calculate_batch_size posix4 _ (many_paths 51) (-1) = 4
  ∧ @_calculate_batch_size posix4 _ (many_paths 3) (-1) = 3.
Proof.
  pose proof (@batch_size_bounds posix4 _ (many_paths 51) (-1) ltac:(done))
    as (_ & _ & _ & H51 & _).
  pose proof (@batch_size_bounds posix4 _ (many_paths 3) (-1) ltac:(done))
    as (_ & _ & _ & H3 & _).
  split; [apply H51 | apply H3]; by vm_compute.
Defined.

(** ** Blank messages *)

Lemma lstrip_nil s : lstrip s = [] ↔ forallb is_whitespace s = true.
Proof.
  induction s as [|c s IH]; simpl; [done|].
  destruct (is_whitespace c); simpl; [done|]. split; [done|done].
Qed.

Lemma lstrip_suffix s : ∃ w, s = w ++ lstrip s ∧ forallb is_whitespace w = true.
Proof.
  induction s as [|c s (w & E & Hw)]; simpl; [by exists []|].
  destruct (is_whitespace c) eqn:Hc.
  - exists (c :: w). simpl. rewrite Hc, Hw. split; [by f_equal|done].
  - by exists [].
Qed.

Lemma strip_nil s : strip s = [] ↔ forallb is_whitespace s = true.
Proof.
  unfold strip, rstrip. split.
  - intros Hs. destruct (lstrip_suffix s) as (w & E & Hw).
    destruct (lstrip s) as [|c t] eqn:El.
    { by apply lstrip_nil. }
    exfalso.
    assert (lstrip (rev (c :: t)) = []) as Hr.
    { apply (f_equal (@rev N)) in Hs. by rewrite rev_involutive in Hs. }
    apply lstrip_nil in Hr. rewrite forallb_forall in Hr.
    assert (is_whitespace c = true) as Hc.
    { apply Hr. apply in_rev. rewrite rev_involutive. by left. }
    assert (lstrip (c :: t) = c :: t) as Hfix.
    { rewrite <- El. clear. induction s as [|x s IH]; simpl; [done|].
      destruct (is_whitespace x) eqn:Hx; [done|]. simpl. by rewrite Hx. }
    simpl in Hfix. rewrite Hc in Hfix.
    apply (f_equal length) in Hfix.
    destruct (lstrip_suffix t) as (w' & E' & _).
    apply (f_equal length) in E'. rewrite length_app in E'. simpl in Hfix. lia.
  - intros Hs. apply lstrip_nil in Hs. by rewrite Hs.
Qed.

(** X4.  A message with nothing but whitespace (the empty message
    included) is refused by [log] and [async_log] with their write errors,
    caused by a [ValueError], before anything else is looked at: the state
    is unchanged, also when no path is configured or the pool is shut
    down. *)
Theorem blank_message_rejected `{Platform} (s : state) (m : pystr) :
  forallb is_whitespace m = true →
  log m s
  = (Raise (ExnFrom FileHandlerWriteError Rewrapped
              (Exn ValueError EmptyMessage)), s)
  ∧ async_log m s
    = (Raise (ExnFrom FileHandlerAsyncWriteError Rewrapped
                (Exn ValueError EmptyMessage)), s).
Proof.
  intros Hm. apply strip_nil in Hm. unfold log, async_log. by rewrite Hm.
Qed.

Lemma blank_message_rejected_witness :
  (@log posix4 (py "  ") small_buffer_handler).1
  = Raise (ExnFrom FileHandlerWriteError Rewrapped (Exn ValueError EmptyMessage)).
Proof.
  by rewrite (proj1 (@blank_message_rejected posix4 small_buffer_handler
                       (py "  ") eq_refl)).
Defined.

(** ** Writing without faults *)

Lemma pool_get_set_eq p f pool : pool_get p (pool_set p f pool) = Some f.
Proof.
  induction pool as [|[q g] pool IH]; simpl.
  - by rewrite decide_True.
  - destruct (decide (q = p)) as [->|Hne]; simpl.
    + by rewrite decide_True.
    + by rewrite decide_False.
Qed.

Lemma utf8_encode_app a b :
  utf8_encode (a ++ b)
  = match utf8_encode a, utf8_encode b with
    | Some x, Some y => Some (x ++ y)
    | _, _ => None
    end.
Proof.
  induction a as [|c a IH]; simpl.
  - by destruct (utf8_encode b).
  - rewrite IH. destruct (utf8_encode_cp c), (utf8_encode a), (utf8_encode b);
      try done. by rewrite app_assoc.
Qed.

Lemma utf8_encode_line m b :
  utf8_encode m = Some b → utf8_encode (m ++ [10%N]) = Some (b ++ [10%N]).
Proof. intros E. rewrite utf8_encode_app, E. done. Qed.

Section Writing.
Context `{Platform}.

(** One successful pass through the body of the retry loop. *)
Lemma write_attempt_ok p m b f c s :
  pool_get p (_temp_sync_pool s) = Some f →
  f_closed f = false → f_mode f = APPEND →
  utf8_encode m = Some b → fs s !! p = Some c →
  io_fault (io_count s) = false → io_fault (S (io_count s)) = false →
  write_attempt p m s
  = (Ok tt,
     set_io_count (if _use_write_flush s then S (S (io_count s))
                   else S (io_count s))
       (set_pool (pool_set p (mkFile APPEND (f_pos f + length (b ++ [10%N]))
                                false) (_temp_sync_pool s))
          (set_fs (<[p := c ++ b ++ [10%N]]> (fs s))
             (set_trace (EvWrite p (clock s) true :: trace s) s)))).
Proof.
  intros Hf Hc Hm Hb Hfs Hio1 Hio2.
  unfold write_attempt, file_write, file_flush, pool_lookup, pool_put, fallible.
  munfold. rewrite Hf, Hc, (utf8_encode_line m b Hb), Hio1.
  destruct s; simpl in *. rewrite Hfs. simpl.
  destruct _use_write_flush0; simpl.
  - rewrite pool_get_set_eq. simpl. rewrite Hio2.
    unfold write_bytes. by rewrite Hm.
  - unfold write_bytes. by rewrite Hm.
Qed.

Lemma write_with_retry_ok p m b f c s :
  pool_get p (_temp_sync_pool s) = Some f →
  f_closed f = false → f_mode f = APPEND →
  utf8_encode m = Some b → fs s !! p = Some c →
  io_fault (io_count s) = false → io_fault (S (io_count s)) = false →
  write_with_retry p m s = write_attempt p m s.
Proof.
  intros Hf Hc Hm Hb Hfs Hio1 Hio2.
  pose proof (write_attempt_ok p m b f c s Hf Hc Hm Hb Hfs Hio1 Hio2) as Hw.
  unfold write_with_retry. erewrite bind_Ok by reflexivity.
  destruct (Z.ltb_spec 0 (_retry_limit s)) as [Hpos|Hzero].
  - destruct (Z.to_nat (_retry_limit s)) as [|n] eqn:En; [lia|].
    simpl. erewrite bind_Ok;
      [|apply try_except_Ok; by erewrite bind_Ok by exact Hw].
    by rewrite Hw.
  - erewrite bind_Ok by reflexivity. by rewrite Hf, Hc.
Qed.

End Writing.

Section Opening.
Context `{Platform}.

(** Opening a path that has no slot: the file is created when missing,
    opened in the handler's mode and registered.  In read mode the file
    object is not writable and the slot is refused. *)
Lemma open_new_slot p s :
  (_ensure_parent_dirs p;;
   _create_file p;;
   mode ← gets _write_mode;
   file ← py_open p mode;
   if negb (writable file) then raise (Exn OSError (NotWritable p))
   else pool_put p file) s
  = if decide (_write_mode s = READ)
    then (Raise (Exn OSError (NotWritable p)),
          set_fs (<[p := text_of (fs s) p]> (fs s)) s)
    else (Ok tt, slot_opened p s).
Proof.
  unfold slot_opened, opened_text, text_of, _ensure_parent_dirs, _create_file,
    py_open, path_exists, pool_put, writable.
  munfold. destruct s as [? mode ? ? ? ? ? ? ? ? ? ? files ? ? ?]. simpl.
  destruct (files !! p) as [c|] eqn:Hc; simpl.
  - destruct mode; simpl; rewrite ?Hc; simpl; try done;
      by rewrite insert_id.
  - destruct mode; simpl; rewrite ?lookup_insert_eq; simpl;
      by rewrite ?insert_insert_eq.
Qed.

End Opening.

Lemma slots_ready_opened p s :
  _write_mode s = APPEND → slots_ready s → slots_ready (slot_opened p s).
Proof.
  intros Hm Hr q f. unfold slot_opened. rewrite Hm.
  destruct s; simpl in *. destruct (decide (p = q)) as [->|Hne].
  - rewrite pool_get_set_eq. intros [= <-]. by rewrite lookup_insert_eq.
  - rewrite pool_get_set_ne by done. intros Hq.
    rewrite lookup_insert_ne by done. by apply Hr.
Qed.

Section WriteLine.
Context `{Platform}.

Lemma write_with_retry_appends p m b f s :
  reliable → utf8_encode m = Some b →
  pool_get p (_temp_sync_pool s) = Some f → slots_ready s →
  ∃ s', write_with_retry p m s = (Ok tt, s')
        ∧ line_added (b ++ [10%N]) [p] s s'
        ∧ trace s' = EvWrite p (clock s) true :: trace s.
Proof.
  intros Hrel Hb Hf Hready.
  destruct (Hready p f Hf) as (Hc & Hm & [c Hfs]).
  rewrite (write_with_retry_ok p m b f c s), (write_attempt_ok p m b f c s)
    by done.
  eexists. split; [reflexivity|].
  split; [|by destruct s].
  unfold line_added, text_of. repeat apply conj; try (by destruct s).
  - intros q. destruct s; simpl in *.
    destruct (decide (q ∈ [p])) as [Hq|Hq].
    + apply list_elem_of_singleton in Hq as ->.
      by rewrite lookup_insert_eq, Hfs.
    + rewrite lookup_insert_ne; [done|].
      intros ->. apply Hq. by apply list_elem_of_singleton.
  - intros q g. destruct s; simpl in *.
    destruct (decide (p = q)) as [->|Hne].
    + rewrite pool_get_set_eq. intros [= <-]. by rewrite lookup_insert_eq.
    + rewrite pool_get_set_ne by done. intros Hq.
      rewrite lookup_insert_ne by done. by apply Hready.
Qed.

(** A write that needs no rotation and meets no fault appends the message
    and a newline to the file, which is created when missing. *)
Lemma _write_to_file_appends p m b s :
  reliable → utf8_encode m = Some b →
  _write_mode s = APPEND → slots_ready s → fits b s p →
  ∃ s', _write_to_file p m s = (Ok tt, s')
        ∧ line_added (b ++ [10%N]) [p] s s'
        ∧ trace s' = EvWrite p (clock s) true :: trace s.
Proof.
  intros Hrel Hb Hmode Hready Hfits.
  unfold _write_to_file.
  erewrite bind_Ok by apply _check_file_size_result.
  assert (match fs s !! p, utf8_encode m with
          | Some content, Some b =>
              bool_decide (_max_file_size s
                           < Z.of_nat (length content) + Z.of_nat (length b))
          | _, _ => false
          end = false) as ->.
  { unfold fits, text_of in Hfits. rewrite Hb.
    destruct (fs s !! p); [|done]. apply bool_decide_eq_false. simpl in *. lia. }
  erewrite (bind_Ok (when false _)) by reflexivity.
  erewrite (bind_Ok (pool_lookup p)) by reflexivity.
  destruct (pool_get p (_temp_sync_pool s)) as [f|] eqn:Hf.
  { erewrite (bind_Ok (mret tt)) by reflexivity.
    by apply (write_with_retry_appends p m b f). }
  erewrite bind_Ok
    by (rewrite open_new_slot, decide_False by (by rewrite Hmode); reflexivity).
  pose proof (slots_ready_opened p s Hmode Hready) as Hready1.
  destruct (write_with_retry_appends p m b (mkFile APPEND 0 false)
              (slot_opened p s) Hrel Hb)
    as (s' & E & (Hfs & Hready' & Hset & Htp & Hbuf & Hclk) & Htr);
    [|done|].
  { unfold slot_opened. rewrite Hmode. destruct s; simpl.
    by rewrite pool_get_set_eq. }
  exists s'. split; [exact E|].
  assert (fs (slot_opened p s) = <[p := text_of (fs s) p]> (fs s)) as Hfs1.
  { unfold slot_opened, opened_text. rewrite Hmode. by destruct s. }
  split; [|by rewrite Htr; destruct s].
  unfold line_added. repeat apply conj; try done.
  - intros q. rewrite Hfs, Hfs1. unfold text_of.
    destruct (decide (q ∈ [p])) as [Hq|Hq].
    + apply list_elem_of_singleton in Hq as ->. by rewrite lookup_insert_eq.
    + rewrite lookup_insert_ne; [done|].
      intros ->. apply Hq. by apply list_elem_of_singleton.
  - rewrite Hset. by destruct s.
  - rewrite Htp. by destruct s.
  - rewrite Hbuf. by destruct s.
  - rewrite Hclk. by destruct s.
Qed.

Lemma line_added_nil line s : slots_ready s → line_added line [] s s.
Proof. intros Hr. by repeat apply conj. Qed.

Lemma line_added_app line ps1 ps2 s s1 s2 :
  (∀ p, p ∈ ps1 → p ∉ ps2) →
  line_added line ps1 s s1 → line_added line ps2 s1 s2 →
  line_added line (ps1 ++ ps2) s s2.
Proof.
  intros Hdisj (Hfs1 & _ & Hset1 & Htp1 & Hbuf1 & Hclk1)
    (Hfs2 & Hr2 & Hset2 & Htp2 & Hbuf2 & Hclk2).
  repeat apply conj; try assumption; try congruence.
  intros q. rewrite Hfs2. unfold text_of. rewrite Hfs1.
  pose proof (elem_of_app ps1 ps2 q) as Happ. pose proof (Hdisj q) as Hq.
  repeat destruct (decide _); try done; tauto.
Qed.

(** A state that differs from [s] in the trace only is as good a start. *)
Lemma line_added_from line ps s0 s s' :
  fs s0 = fs s → settings s0 = settings s → _threadpool s0 = _threadpool s →
  _buffer s0 = _buffer s → clock s0 = clock s →
  line_added line ps s0 s' → line_added line ps s s'.
Proof.
  intros Hfs Hset Htp Hbuf Hclk (Hfs' & Hr & Hset' & Htp' & Hbuf' & Hclk').
  repeat apply conj; try assumption; try congruence.
  intros q. rewrite Hfs'. by rewrite Hfs.
Qed.

Lemma can_append_after b line ps1 ps2 s s1 :
  (∀ p, p ∈ ps1 → p ∉ ps2) →
  can_append b (ps1 ++ ps2) s → line_added line ps1 s s1 →
  can_append b ps2 s1.
Proof.
  intros Hdisj (Hmode & _ & Hfits) (Hfs1 & Hr1 & Hset1 & _).
  injection Hset1 as Hp Hm _ _ _ Hmax _ _ _.
  split; [congruence|]. split; [done|].
  intros p Hp2. specialize (Hfits p ltac:(apply elem_of_app; by right)).
  unfold fits, text_of in *. rewrite Hfs1, Hmax.
  pose proof (Hdisj p) as Hq. destruct (decide _); [tauto|done].
Qed.

Lemma can_append_sub b ps ps' s :
  ps' ⊆ ps → can_append b ps s → can_append b ps' s.
Proof.
  intros Hsub (? & ? & Hfits). split; [done|]. split; [done|].
  intros p Hp. apply Hfits, Hsub, Hp.
Qed.

(** Writing to distinct files one after the other. *)
Lemma write_all_appends m b ps :
  reliable → utf8_encode m = Some b → NoDup ps →
  ∀ s, can_append b ps s →
    ∃ s', for_each ps (λ p, _write_to_file p m) s = (Ok tt, s')
          ∧ line_added (b ++ [10%N]) ps s s'.
Proof.
  intros Hrel Hb. induction ps as [|p ps IH]; intros Hnd s Hcan.
  { exists s. split; [done|]. apply line_added_nil, Hcan. }
  apply NoDup_cons in Hnd as [Hp Hnd].
  assert (∀ q, q ∈ [p] → q ∉ ps) as Hdisj.
  { by intros q ->%list_elem_of_singleton. }
  destruct Hcan as (Hmode & Hready & Hfits).
  destruct (_write_to_file_appends p m b s Hrel Hb Hmode Hready)
    as (s1 & E1 & Hadd1 & _).
  { apply Hfits. by left. }
  destruct (IH Hnd s1) as (s' & E & Hadd).
  { by apply (can_append_after b (b ++ [10%N]) [p] ps s). }
  exists s'. split.
  - cbn [for_each]. by erewrite bind_Ok by exact E1.
  - by apply (line_added_app _ [p] ps s s1 s').
Qed.

End WriteLine.

Section Dispatch.
Context `{Platform}.

Lemma submit_running label task s :
  _shutdown (_threadpool s) = false →
  submit label task s
  = run_task task (set_trace (EvSubmit label :: trace s) s).
Proof.
  intros Hrun. unfold submit. erewrite bind_Ok by reflexivity.
  rewrite Hrun. by erewrite bind_Ok by reflexivity.
Qed.

Lemma can_append_traced b ps t s :
  can_append b ps s → can_append b ps (set_trace t s).
Proof. by destruct s. Qed.

(** A task that appends to a batch, handed to the running worker pool. *)
Lemma submit_batch_appends m b batch s :
  reliable → utf8_encode m = Some b → NoDup batch →
  can_append b batch s → _shutdown (_threadpool s) = false →
  ∃ s', submit batch (_log_batch m batch) s = (Ok (Ok tt), s')
        ∧ line_added (b ++ [10%N]) batch s s'.
Proof.
  intros Hrel Hb Hnd Hcan Hrun.
  destruct (write_all_appends m b batch Hrel Hb Hnd
              (set_trace (EvSubmit batch :: trace s) s)) as (s' & E & Hadd).
  { by apply can_append_traced. }
  exists s'. split.
  - rewrite submit_running by done. unfold run_task, _log_batch. by rewrite E.
  - apply (line_added_from _ _ (set_trace (EvSubmit batch :: trace s) s));
      try done; by destruct s.
Qed.

Lemma line_added_running line ps s s' :
  line_added line ps s s' →
  _shutdown (_threadpool s') = _shutdown (_threadpool s).
Proof. intros (_ & _ & _ & -> & _). done. Qed.

Lemma NoDup_concat_cons (batch : list Path) rest :
  NoDup (concat (batch :: rest)) →
  NoDup batch ∧ NoDup (concat rest) ∧ ∀ p, p ∈ batch → p ∉ concat rest.
Proof. simpl. intros (? & ? & ?)%NoDup_app. done. Qed.

Lemma submit_all_appends m b batches :
  reliable → utf8_encode m = Some b → NoDup (concat batches) →
  ∀ s, can_append b (concat batches) s → _shutdown (_threadpool s) = false →
    ∃ s' futures,
      submit_all batches id (_log_batch m) s = (Ok futures, s')
      ∧ Forall (λ xf, xf.2 = Ok tt) futures
      ∧ line_added (b ++ [10%N]) (concat batches) s s'.
Proof.
  intros Hrel Hb. induction batches as [|batch rest IH]; intros Hnd s Hcan Hrun.
  { exists s, []. split; [done|]. split; [done|]. apply line_added_nil, Hcan. }
  apply NoDup_concat_cons in Hnd as (Hnd1 & Hnd2 & Hdisj).
  destruct (submit_batch_appends m b batch s Hrel Hb Hnd1) as (s1 & E1 & Hadd1);
    [|done|].
  { eapply can_append_sub; [|exact Hcan]. simpl. intros p Hp.
    apply elem_of_app. by left. }
  destruct (IH Hnd2 s1) as (s' & futures & E & Hok & Hadd).
  { by apply (can_append_after b (b ++ [10%N]) batch (concat rest) s). }
  { by rewrite (line_added_running _ _ _ _ Hadd1). }
  exists s', ((batch, Ok tt) :: futures). split.
  - cbn [submit_all]. erewrite bind_Ok by exact E1.
    by erewrite bind_Ok by exact E.
  - split; [by constructor|].
    by apply (line_added_app _ batch (concat rest) s s1 s').
Qed.

Lemma await_all_Ok {A} (futures : list (A * result unit)) label s :
  Forall (λ xf, xf.2 = Ok tt) futures → await_all futures label s = (Ok tt, s).
Proof.
  unfold await_all. induction 1 as [|[x r] futures Hr _ IH]; [done|].
  simpl in *. subst r. by erewrite bind_Ok by reflexivity.
Qed.

Lemma async_batches_append m b batches :
  reliable → utf8_encode m = Some b → NoDup (concat batches) →
  ∀ s, can_append b (concat batches) s → _shutdown (_threadpool s) = false →
    ∃ s', for_each batches (_async_log_batch m) s = (Ok tt, s')
          ∧ line_added (b ++ [10%N]) (concat batches) s s'.
Proof.
  intros Hrel Hb. induction batches as [|batch rest IH]; intros Hnd s Hcan Hrun.
  { exists s. split; [done|]. apply line_added_nil, Hcan. }
  apply NoDup_concat_cons in Hnd as (Hnd1 & Hnd2 & Hdisj).
  destruct (submit_batch_appends m b batch s Hrel Hb Hnd1) as (s1 & E1 & Hadd1);
    [|done|].
  { eapply can_append_sub; [|exact Hcan]. simpl. intros p Hp.
    apply elem_of_app. by left. }
  destruct (IH Hnd2 s1) as (s' & E & Hadd).
  { by apply (can_append_after b (b ++ [10%N]) batch (concat rest) s). }
  { by rewrite (line_added_running _ _ _ _ Hadd1). }
  exists s'. split.
  - cbn [for_each]. erewrite bind_Ok; [exact E|].
    unfold _async_log_batch, run_in_executor.
    by erewrite bind_Ok by exact E1.
  - by apply (line_added_app _ batch (concat rest) s s1 s').
Qed.

Lemma batcher_concat {A} (data : list A) (batch_size : Z) s :
  data ≠ [] →
  ∃ batches, batcher data batch_size s = (Ok batches, s)
             ∧ concat batches = data.
Proof.
  intros Hd. rewrite (batcher_result data batch_size s Hd).
  pose proof (effective_size_positive data batch_size Hd) as Hpos.
  eexists. split; [reflexivity|]. cbv zeta.
  set (size := if batch_size <=? 0 then _ else _) in *.
  destruct (Z.leb_spec (Z.of_nat (length data)) size); [apply app_nil_r|].
  apply (islice_batches_spec (Z.to_nat size)); lia.
Qed.

(** The writer appends the message and a newline to every configured
    file, whichever way it dispatches the writes. *)
Lemma _writer_handler_appends m b s :
  reliable → utf8_encode m = Some b → NoDup (_file_paths s) →
  can_append b (_file_paths s) s →
  (50 < Z.of_nat (length (_file_paths s)) → _shutdown (_threadpool s) = false) →
  ∃ s', _writer_handler m s = (Ok tt, s')
        ∧ line_added (b ++ [10%N]) (_file_paths s) s s'.
Proof.
  intros Hrel Hb Hnd Hcan Hrun.
  destruct (Z.lt_ge_cases 50 (Z.of_nat (length (_file_paths s)))) as [Hlen|Hlen].
  - rewrite (proj1 (gc_tier_unreachable s m Hlen)).
    destruct (batcher_concat (_file_paths s) (-1) s) as (batches & Eb & Hc).
    { intros Hp. rewrite Hp in Hlen. simpl in Hlen. lia. }
    rewrite <- Hc in Hnd, Hcan.
    destruct (submit_all_appends m b batches Hrel Hb Hnd s Hcan (Hrun Hlen))
      as (s' & futures & E & Hok & Hadd).
    exists s'. split; [|by rewrite <- Hc].
    erewrite bind_Ok by exact Eb. unfold dispatch_batches.
    erewrite bind_Ok by exact E. by apply await_all_Ok.
  - rewrite (proj1 (direct_tier s m Hlen)).
    by apply (write_all_appends m b).
Qed.

Lemma _async_writer_handler_appends m b s :
  reliable → utf8_encode m = Some b → NoDup (_file_paths s) →
  can_append b (_file_paths s) s → _shutdown (_threadpool s) = false →
  ∃ s', _async_writer_handler m s = (Ok tt, s')
        ∧ line_added (b ++ [10%N]) (_file_paths s) s s'.
Proof.
  intros Hrel Hb Hnd Hcan Hrun.
  destruct (Z.lt_ge_cases 50 (Z.of_nat (length (_file_paths s)))) as [Hlen|Hlen].
  - rewrite (proj2 (gc_tier_unreachable s m Hlen)).
    destruct (batcher_concat (_file_paths s) (-1) s) as (batches & Eb & Hc).
    { intros Hp. rewrite Hp in Hlen. simpl in Hlen. lia. }
    rewrite <- Hc in Hnd, Hcan.
    destruct (async_batches_append m b batches Hrel Hb Hnd s Hcan Hrun)
      as (s' & E & Hadd).
    exists s'. split; [|by rewrite <- Hc]. by erewrite bind_Ok by exact Eb.
  - rewrite (proj2 (direct_tier s m Hlen)).
    destruct (submit_batch_appends m b (_file_paths s) s Hrel Hb Hnd Hcan Hrun)
      as (s' & E & Hadd).
    exists s'. split; [|done].
    unfold _async_writer, run_in_executor.
    erewrite bind_Ok by reflexivity.
    assert (submit (_file_paths s)
              (paths ← gets _file_paths;
               for_each paths (λ path, _write_to_file path m)) s
            = (Ok (Ok tt), s')) as E'.
    { rewrite submit_running in E |- * by done.
      unfold run_task, _log_batch in *.
      erewrite bind_Ok by reflexivity.
      replace (_file_paths (set_trace (EvSubmit (_file_paths s) :: trace s) s))
        with (_file_paths s) by (by destruct s).
      exact E. }
    by erewrite bind_Ok by exact E'.
Qed.

End Dispatch.

(** ** Opening the slot pool *)

Lemma set_pool_set_fs_opened pool' files' p s :
  set_pool pool' (set_fs files' (slot_opened p s))
  = set_pool pool' (set_fs files' s).
Proof. by destruct s. Qed.

Section OpenPool.
Context `{Platform}.

Lemma _init_sync_pool_loop s :
  _init_sync_pool s
  = wrapping FileHandlerSyncPoolInitError
      (for_each (_file_paths s) open_missing) s.
Proof.
  unfold _init_sync_pool, wrapping, try_except.
  erewrite bind_Ok by reflexivity. by destruct (_file_paths s).
Qed.

Lemma open_missing_present p f s :
  pool_get p (_temp_sync_pool s) = Some f → open_missing p s = (Ok tt, s).
Proof.
  intros Hf. unfold open_missing. erewrite bind_Ok by reflexivity.
  by rewrite Hf.
Qed.

Lemma open_missing_absent p s :
  pool_get p (_temp_sync_pool s) = None →
  open_missing p s
  = if decide (_write_mode s = READ)
    then (Raise (Exn OSError (NotWritable p)),
          set_fs (<[p := text_of (fs s) p]> (fs s)) s)
    else (Ok tt, slot_opened p s).
Proof.
  intros Hf. unfold open_missing. erewrite bind_Ok by reflexivity.
  rewrite Hf. apply open_new_slot.
Qed.

(** Opening the slots of a list of paths, in a mode that can write. *)
Lemma open_slots_spec ps :
  ∀ s, _write_mode s ≠ READ →
    ∃ pool' files',
      for_each ps open_missing s = (Ok tt, set_pool pool' (set_fs files' s))
      ∧ (∀ q, q ∈ ps → pool_get q (_temp_sync_pool s) = None →
           pool_get q pool' = Some (mkFile (_write_mode s) 0 false)
           ∧ files' !! q = Some (opened_text (_write_mode s) (fs s) q))
      ∧ (∀ q, q ∉ ps ∨ is_Some (pool_get q (_temp_sync_pool s)) →
           pool_get q pool' = pool_get q (_temp_sync_pool s)
           ∧ files' !! q = fs s !! q).
Proof.
  induction ps as [|p ps IH]; intros s Hmode.
  { exists (_temp_sync_pool s), (fs s). split; [by destruct s|].
    split; [by intros q ?%elem_of_nil|done]. }
  destruct (pool_get p (_temp_sync_pool s)) as [f|] eqn:Hf.
  - destruct (IH s Hmode) as (pool' & files' & E & Hnew & Hold).
    exists pool', files'. split.
    { cbn [for_each]. by erewrite bind_Ok by by apply (open_missing_present p f). }
    split.
    + intros q [->|Hq]%elem_of_cons Hnone; [congruence|]. by apply Hnew.
    + intros q [Hq|Hq]; apply Hold; [|by right].
      destruct (decide (q = p)) as [->|Hne]; [right; by rewrite Hf|].
      left. intros Hin. apply Hq. by right.
  - assert (_write_mode (slot_opened p s) = _write_mode s) as Hm1
      by (by destruct s).
    assert (∀ q, q ≠ p →
              pool_get q (_temp_sync_pool (slot_opened p s))
              = pool_get q (_temp_sync_pool s)
              ∧ fs (slot_opened p s) !! q = fs s !! q) as Hother.
    { intros q Hq. destruct s; simpl.
      by rewrite pool_get_set_ne, lookup_insert_ne. }
    assert (pool_get p (_temp_sync_pool (slot_opened p s))
            = Some (mkFile (_write_mode s) 0 false)
            ∧ fs (slot_opened p s) !! p
              = Some (opened_text (_write_mode s) (fs s) p)) as [Hp1 Hp2].
    { destruct s; simpl. by rewrite pool_get_set_eq, lookup_insert_eq. }
    destruct (IH (slot_opened p s)) as (pool' & files' & E & Hnew & Hold).
    { by rewrite Hm1. }
    rewrite set_pool_set_fs_opened in E.
    exists pool', files'. split.
    { cbn [for_each]. erewrite bind_Ok; [exact E|].
      rewrite open_missing_absent by done. by rewrite decide_False. }
    split.
    + intros q Hq Hnone. destruct (decide (q = p)) as [->|Hne].
      * destruct (Hold p) as [-> ->]; [right; by rewrite Hp1|done].
      * apply elem_of_cons in Hq as [?|Hq]; [done|].
        destruct (Hother q Hne) as [Hq1 Hq2].
        destruct (Hnew q Hq) as [-> ->]; [by rewrite Hq1|].
        rewrite Hm1. split; [done|]. f_equal.
        unfold opened_text, text_of. by rewrite Hq2.
    + intros q Hq.
      assert (q ≠ p) as Hne.
      { intros ->. destruct Hq as [Hq|[? Hq]]; [apply Hq; by left|congruence]. }
      destruct (Hother q Hne) as [Hq1 Hq2].
      destruct (Hold q) as [-> ->]; [|done].
      destruct Hq as [Hq|Hq]; [left|right; by rewrite Hq1].
      intros Hin. apply Hq. by right.
Qed.

(** In append mode, opening slots keeps the text of every file and leaves
    the slots ready. *)
Lemma open_slots_append ps s :
  _write_mode s = APPEND → slots_ready s →
  ∃ s0, for_each ps open_missing s = (Ok tt, s0)
        ∧ (∀ q, text_of (fs s0) q = text_of (fs s) q)
        ∧ (∀ q, q ∉ ps → fs s0 !! q = fs s !! q)
        ∧ (∀ q, q ∈ ps → is_Some (pool_get q (_temp_sync_pool s0)))
        ∧ slots_ready s0
        ∧ settings s0 = settings s ∧ _threadpool s0 = _threadpool s
        ∧ _buffer s0 = _buffer s ∧ clock s0 = clock s ∧ trace s0 = trace s.
Proof.
  intros Hmode Hready.
  destruct (open_slots_spec ps s) as (pool' & files' & E & Hnew & Hold).
  { by rewrite Hmode. }
  rewrite Hmode in Hnew.
  exists (set_pool pool' (set_fs files' s)). split; [exact E|].
  assert (∀ q, (pool_get q pool' = Some (mkFile APPEND 0 false)
                ∧ files' !! q = Some (text_of (fs s) q)
                ∧ q ∈ ps)
               ∨ (pool_get q pool' = pool_get q (_temp_sync_pool s)
                  ∧ files' !! q = fs s !! q
                  ∧ (q ∈ ps → is_Some (pool_get q (_temp_sync_pool s)))))
    as Hcase.
  { intros q. destruct (decide (q ∈ ps)) as [Hin|Hin].
    - destruct (pool_get q (_temp_sync_pool s)) as [f|] eqn:Hf.
      + right. destruct (Hold q) as [? ?]; [right; by rewrite Hf|].
        rewrite Hf in *. by repeat split.
      + left. destruct (Hnew q Hin Hf) as [? ?]. by repeat split.
    - right. destruct (Hold q) as [? ?]; [by left|]. by repeat split. }
  repeat apply conj; try (by destruct s).
  - intros q. unfold text_of. destruct s; simpl in *.
    destruct (Hcase q) as [(_ & -> & _)|(_ & -> & _)]; done.
  - intros q Hq. destruct s; simpl in *.
    by destruct (Hcase q) as [(_ & _ & ?)|(_ & -> & _)].
  - intros q Hq. destruct s; simpl in *.
    destruct (Hcase q) as [(-> & _)|(-> & _ & Hs)]; [done|by apply Hs].
  - intros q f. destruct s; simpl in *.
    destruct (Hcase q) as [(-> & -> & _)|(-> & -> & _)].
    + by intros [= <-].
    + apply Hready.
Qed.

Lemma _init_sync_pool_append s :
  _write_mode s = APPEND → slots_ready s →
  ∃ s0, _init_sync_pool s = (Ok tt, s0)
        ∧ (∀ q, text_of (fs s0) q = text_of (fs s) q)
        ∧ (∀ q, q ∉ _file_paths s → fs s0 !! q = fs s !! q)
        ∧ (∀ q, q ∈ _file_paths s → is_Some (pool_get q (_temp_sync_pool s0)))
        ∧ slots_ready s0
        ∧ settings s0 = settings s ∧ _threadpool s0 = _threadpool s
        ∧ _buffer s0 = _buffer s ∧ clock s0 = clock s ∧ trace s0 = trace s.
Proof.
  intros Hmode Hready.
  destruct (open_slots_append (_file_paths s) s Hmode Hready) as (s0 & E & Hs0).
  exists s0. split; [|exact Hs0].
  rewrite _init_sync_pool_loop. by apply wrapping_Ok.
Qed.

Lemma _ensure_sync_pool_append s :
  _write_mode s = APPEND → slots_ready s →
  ∃ s0, _ensure_sync_pool s = (Ok tt, s0)
        ∧ (∀ q, text_of (fs s0) q = text_of (fs s) q)
        ∧ (∀ q, q ∉ _file_paths s → fs s0 !! q = fs s !! q)
        ∧ slots_ready s0
        ∧ settings s0 = settings s ∧ _threadpool s0 = _threadpool s
        ∧ _buffer s0 = _buffer s ∧ clock s0 = clock s ∧ trace s0 = trace s.
Proof.
  intros Hmode Hready. unfold _ensure_sync_pool.
  erewrite bind_Ok by reflexivity.
  destruct (_temp_sync_pool s) eqn:Hpool.
  - destruct (_init_sync_pool_append s Hmode Hready)
      as (s0 & E & ? & ? & _ & ?). by exists s0.
  - exists s. by repeat apply conj.
Qed.

End OpenPool.

(** ** Logging without a buffer *)

Lemma settings_inv s s' :
  settings s' = settings s →
  _file_paths s' = _file_paths s ∧ _write_mode s' = _write_mode s
  ∧ _retry_limit s' = _retry_limit s ∧ _retry_delay s' = _retry_delay s
  ∧ _backoff_factor s' = _backoff_factor s
  ∧ _max_file_size s' = _max_file_size s ∧ _max_rotation s' = _max_rotation s
  ∧ _max_buffer_size s' = _max_buffer_size s
  ∧ _use_write_flush s' = _use_write_flush s.
Proof. intros [=]. by repeat split. Qed.

Section LogLine.
Context `{Platform}.

(** The files after the pool has been opened and a line added. *)
Lemma line_added_after_open line ps s s0 s' :
  (∀ q, text_of (fs s0) q = text_of (fs s) q) →
  (∀ q, q ∉ ps → fs s0 !! q = fs s !! q) →
  line_added line ps s0 s' →
  ∀ q, fs s' !! q = if decide (q ∈ ps) then Some (text_of (fs s) q ++ line)
                    else fs s !! q.
Proof.
  intros Htext Hout (Hfs & _) q. rewrite Hfs.
  destruct (decide (q ∈ ps)); [by rewrite Htext|by apply Hout].
Qed.

Lemma can_append_after_open b ps s s0 :
  (∀ q, text_of (fs s0) q = text_of (fs s) q) →
  slots_ready s0 → settings s0 = settings s →
  can_append b ps s → can_append b ps s0.
Proof.
  intros Htext Hready Hset (Hmode & _ & Hfits).
  injection Hset as _ Hm _ _ _ Hmax _ _ _.
  split; [congruence|]. split; [done|].
  intros p Hp. unfold fits. rewrite Htext, Hmax. by apply Hfits.
Qed.

End LogLine.



(** X6.  In a mode that can write, [_init_sync_pool] succeeds and gives
    every configured path a slot.  A path that had none gets a fresh file
    object in the handler's mode, and its file now exists: with its old
    content in the append and read-write modes, empty in the overwrite
    modes.  Slots that were open, and files of other paths, are left as
    they were; so are all other parts of the handler.  The lazy
    [_ensure_sync_pool] is the same when the pool is empty and does nothing
    when the pool holds any slot. *)
Theorem init_pool_opens_paths (s : state) :
  _write_mode s ≠ READ →
  ∃ pool' files',
    _init_sync_pool s = (Ok tt, set_pool pool' (set_fs files' s))
    ∧ (∀ q, q ∈ _file_paths s → is_Some (pool_get q pool'))
    ∧ (∀ q, q ∈ _file_paths s → pool_get q (_temp_sync_pool s) = None →
         pool_get q pool' = Some (mkFile (_write_mode s) 0 false)
         ∧ files' !! q = Some (opened_text (_write_mode s) (fs s) q))
    ∧ (∀ q, q ∉ _file_paths s ∨ is_Some (pool_get q (_temp_sync_pool s)) →
         pool_get q pool' = pool_get q (_temp_sync_pool s)
         ∧ files' !! q = fs s !! q)
    ∧ (_temp_sync_pool s = [] → _ensure_sync_pool s = _init_sync_pool s)
    ∧ (_temp_sync_pool s ≠ [] → _ensure_sync_pool s = (Ok tt, s)).
Proof.
  intros Hmode.
  destruct (open_slots_spec (_file_paths s) s Hmode)
    as (pool' & files' & E & Hnew & Hold).
  exists pool', files'.
  split; [rewrite _init_sync_pool_loop; by apply wrapping_Ok|].
  split; [|split; [exact Hnew|split; [exact Hold|]]].
  - intros q Hq. destruct (pool_get q (_temp_sync_pool s)) as [f|] eqn:Hf.
    + destruct (Hold q) as [-> _]; [right|]; by rewrite Hf.
    + by destruct (Hnew q Hq Hf) as [-> _].
  - unfold _ensure_sync_pool. split; intros Hp.
    + erewrite bind_Ok by reflexivity. by rewrite Hp.
    + erewrite bind_Ok by reflexivity. by destruct (_temp_sync_pool s).
Qed.

Lemma init_pool_opens_paths_witness :
  fs (_init_sync_pool (handler_on_old_file OVERWRITE)).2 !! tmp "a.log"
  = Some []
  ∧ fs (_init_sync_pool (handler_on_old_file APPEND)).2 !! tmp "a.log"
    = Some (py "old").
Proof.
  split.
  - destruct (init_pool_opens_paths (handler_on_old_file OVERWRITE))
      as (pool' & files' & -> & _ & Hnew & _); [discriminate|].
    destruct (Hnew (tmp "a.log")) as [_ Hf]; [by left|reflexivity|].
    exact Hf.
  - destruct (init_pool_opens_paths (handler_on_old_file APPEND))
      as (pool' & files' & -> & _ & Hnew & _); [discriminate|].
    destruct (Hnew (tmp "a.log")) as [_ Hf]; [by left|reflexivity|].
    exact Hf.
Defined.

(** X7.  A handler in read mode cannot log.  The setter accepts the mode,
    but the first [log] or [async_log] on a fresh pool opens the first
    path, finds the file object not writable and fails with the write
    error, caused by the pool initialisation error; the file has been
    created if it was missing, and nothing is written. *)
Theorem read_mode_cannot_log `{Platform} (s : state) (m : pystr) (p : Path)
    (rest : list Path) :
  _write_mode s = READ → forallb is_whitespace m = false →
  _file_paths s = p :: rest → _temp_sync_pool s = [] →
  let cause := ExnFrom FileHandlerSyncPoolInitError Rewrapped
                 (Exn OSError (NotWritable p)) in
  let s' := set_fs (<[p := text_of (fs s) p]> (fs s)) s in
  write_mode_setter READ s = (Ok tt, s)
  ∧ log m s = (Raise (ExnFrom FileHandlerWriteError Rewrapped cause), s')
  ∧ async_log m s
    = (Raise (ExnFrom FileHandlerAsyncWriteError Rewrapped cause), s').
Proof.
  intros Hmode Hm Hp Hpool cause s'.
  assert (strip m ≠ []) as Hstrip.
  { intros Hs%strip_nil. congruence. }
  assert (_init_sync_pool s = (Raise cause, s')) as Einit.
  { rewrite _init_sync_pool_loop. apply wrapping_Raise.
    rewrite Hp. cbn [for_each]. apply bind_Raise.
    rewrite open_missing_absent by (by rewrite Hpool).
    by rewrite decide_True. }
  split; [|split].
  - unfold write_mode_setter, wrapping, try_except, modify.
    rewrite <- Hmode. by destruct s.
  - unfold log. destruct (strip m); [done|]. apply wrapping_Raise.
    erewrite bind_Ok by reflexivity. rewrite Hp.
    apply bind_Raise. unfold _ensure_sync_pool.
    erewrite bind_Ok by reflexivity. by rewrite Hpool.
  - unfold async_log. destruct (strip m); [done|]. apply wrapping_Raise.
    erewrite bind_Ok by reflexivity. rewrite Hp.
    by apply bind_Raise.
Qed.

Lemma read_mode_cannot_log_witness :
  (@log posix4 (py "hello") (handler_on_old_file READ)).1
  = Raise (ExnFrom FileHandlerWriteError Rewrapped
             (ExnFrom FileHandlerSyncPoolInitError Rewrapped
                (Exn OSError (NotWritable (tmp "a.log")))))
  ∧ fs (@log posix4 (py "hello") (handler_on_old_file READ)).2 !! tmp "a.log"
    = Some (py "old").
Proof.
  destruct (@read_mode_cannot_log posix4 (handler_on_old_file READ)
              (py "hello") (tmp "a.log") [])
    as (_ & -> & _); [reflexivity..|].
  split; [reflexivity|]. vm_compute. reflexivity.
Defined.

(** ** Logging through the buffer *)

Lemma _write_to_buffer_fits m b content s :
  _buffer s = Some content → utf8_encode m = Some b →
  tell content + Z.of_nat (length b) ≤ _max_buffer_size s →
  _write_to_buffer m s
  = (Ok None, set_buffer (Some (content ++ m ++ [10%N])) s).
Proof.
  intros Hbuf Hb Hfit. unfold _write_to_buffer. munfold.
  rewrite Hbuf, Hb. simpl. rewrite Hbuf.
  destruct (Z.ltb_spec (_max_buffer_size s)
              (tell content + Z.of_nat (length b))); [lia|done].
Qed.

Section Buffered.
Context `{Platform}.

(** A message that fits is put into the buffer, after the pool has been
    looked after; no file is written. *)
Lemma log_buffers m b content s s0 :
  strip m ≠ [] → _file_paths s ≠ [] →
  _ensure_sync_pool s = (Ok tt, s0) →
  _max_buffer_size s0 = _max_buffer_size s → _buffer s0 = Some content →
  0 < _max_buffer_size s → utf8_encode m = Some b →
  tell content + Z.of_nat (length b) ≤ _max_buffer_size s →
  log m s = (Ok tt, set_buffer (Some (content ++ m ++ [10%N])) s0).
Proof.
  intros Hm Hp E0 Hmax Hbuf Hpos Hb Hfit. unfold log.
  destruct (strip m); [done|]. apply wrapping_Ok.
  erewrite bind_Ok by reflexivity.
  destruct (_file_paths s); [done|].
  erewrite bind_Ok by exact E0. erewrite bind_Ok by reflexivity.
  rewrite Hmax. destruct (Z.ltb_spec 0 (_max_buffer_size s)); [|lia].
  erewrite bind_Ok;
    [|apply (_write_to_buffer_fits m b); [done..|by rewrite Hmax]].
  reflexivity.
Qed.

Lemma open_slots_present ps s :
  (∀ p, p ∈ ps → is_Some (pool_get p (_temp_sync_pool s))) →
  for_each ps open_missing s = (Ok tt, s).
Proof.
  induction ps as [|p ps IH]; intros Hall; [done|].
  destruct (Hall p) as [f Hf]; [by left|].
  cbn [for_each]. erewrite bind_Ok by by apply (open_missing_present p f).
  apply IH. intros q Hq. apply Hall. by right.
Qed.

End Buffered.

(** X8.  With a buffer, a message that fits (buffer position plus the
    byte length of the message within [max_buffer_size]) is only stored:
    [log] on a handler whose pool holds a slot, and [async_log] on one
    whose paths all have slots, return normally with the message and a
    newline added at the end of the buffer and nothing else changed: no
    file is written until the buffer is flushed. *)
Theorem buffered_log_defers `{Platform} (s : state) (m content : pystr)
    (b : list N) :
  forallb is_whitespace m = false → _file_paths s ≠ [] →
  0 < _max_buffer_size s → _buffer s = Some content →
  utf8_encode m = Some b →
  tell content + Z.of_nat (length b) ≤ _max_buffer_size s →
  (_temp_sync_pool s ≠ [] →
   log m s = (Ok tt, set_buffer (Some (content ++ m ++ [10%N])) s))
  ∧ ((∀ p, p ∈ _file_paths s → is_Some (pool_get p (_temp_sync_pool s))) →
     async_log m s = (Ok tt, set_buffer (Some (content ++ m ++ [10%N])) s)).
Proof.
  intros Hm Hp Hpos Hbuf Hb Hfit.
  assert (strip m ≠ []) as Hstrip.
  { intros Hs%strip_nil. congruence. }
  split.
  - intros Hpool. apply (log_buffers m b); try done.
    unfold _ensure_sync_pool. erewrite bind_Ok by reflexivity.
    by destruct (_temp_sync_pool s).
  - intros Hslots. unfold async_log.
    destruct (strip m); [done|]. apply wrapping_Ok.
    erewrite bind_Ok by reflexivity.
    destruct (_file_paths s) eqn:Hps; [done|]. rewrite <- Hps in *.
    erewrite (bind_Ok _init_sync_pool).
    2:{ rewrite _init_sync_pool_loop. apply wrapping_Ok.
        by apply open_slots_present. }
    erewrite bind_Ok by reflexivity.
    destruct (Z.ltb_spec 0 (_max_buffer_size s)); [|lia].
    erewrite bind_Ok; [|by apply (_write_to_buffer_fits m b)].
    reflexivity.
Qed.

Lemma buffered_log_defers_witness :
  let s := (@log posix4 (py "abc") small_buffer_handler).2 in
  _buffer s = Some (py "abc" ++ [10%N])
  ∧ @log posix4 (py "de") s
    = (Ok tt, set_buffer (Some (py "abc" ++ [10%N] ++ py "de" ++ [10%N])) s).
Proof.
  split; [reflexivity|].
  destruct (@buffered_log_defers posix4
              (@log posix4 (py "abc") small_buffer_handler).2 (py "de")
              (py "abc" ++ [10%N]) (py "de")) as [Hlog _];
    [reflexivity|discriminate|reflexivity|reflexivity|reflexivity
    |discriminate|].
  apply Hlog. vm_compute. discriminate.
Defined.

Section Flush.
Context `{Platform}.

Lemma flush_entries_quiet s (entries : list (Path * FileObj)) :
  reliable → entries.*1 ⊆ (_temp_sync_pool s).*1 →
  ∀ n, ∃ n',
    for_each entries (λ entry,
      try_except
        (o ← pool_lookup entry.1;
         match o with
         | Some file => when (negb (f_closed file)) (file_flush entry.1)
         | None => raise (Exn KeyError (NotOpen entry.1))
         end)
        (λ e, raise (ExnFrom RuntimeError (ErrorFlushing entry.1) e)))
      (set_io_count n s)
    = (Ok tt, set_io_count n' s).
Proof.
  intros Hrel. induction entries as [|[p g] entries IH]; intros Hsub n.
  { by exists n. }
  destruct (pool_get_elem p (_temp_sync_pool s)) as [f Hf].
  { apply Hsub. by left. }
  assert (∃ n1, try_except
            (o ← pool_lookup p;
             match o with
             | Some file => when (negb (f_closed file)) (file_flush p)
             | None => raise (Exn KeyError (NotOpen p))
             end)
            (λ e, raise (ExnFrom RuntimeError (ErrorFlushing p) e))
            (set_io_count n s) = (Ok tt, set_io_count n1 s)) as [n1 E1].
  { destruct (f_closed f) eqn:Hc.
    - exists n. apply try_except_Ok.
      unfold pool_lookup. erewrite bind_Ok by reflexivity.
      replace (_temp_sync_pool (set_io_count n s)) with (_temp_sync_pool s)
        by (by destruct s).
      by rewrite Hf, Hc.
    - exists (S n). apply try_except_Ok.
      unfold pool_lookup. erewrite bind_Ok by reflexivity.
      replace (_temp_sync_pool (set_io_count n s)) with (_temp_sync_pool s)
        by (by destruct s).
      rewrite Hf, Hc. simpl. unfold file_flush, pool_lookup.
      erewrite bind_Ok by reflexivity.
      replace (_temp_sync_pool (set_io_count n s)) with (_temp_sync_pool s)
        by (by destruct s).
      rewrite Hf, Hc. unfold fallible.
      replace (io_count (set_io_count n s)) with n by (by destruct s).
      rewrite Hrel. by destruct s. }
  destruct (IH ltac:(intros q Hq; apply Hsub; by right) n1) as [n' E].
  exists n'. cbn [for_each]. simpl fst in *.
  by erewrite bind_Ok by exact E1.
Qed.

(** Without faults [writer_force_flush] succeeds and changes no file, no
    slot and no setting. *)
Lemma writer_force_flush_quiet s :
  reliable → ∃ n, writer_force_flush s = (Ok tt, set_io_count n s).
Proof.
  intros Hrel. unfold writer_force_flush.
  destruct (flush_entries_quiet s (_temp_sync_pool s) Hrel ltac:(done)
              (io_count s)) as [n E].
  replace (set_io_count (io_count s) s) with s in E by (by destruct s).
  exists (if _temp_sync_pool s is [] then io_count s else n).
  apply wrapping_Ok. erewrite bind_Ok by reflexivity.
  destruct (_temp_sync_pool s) eqn:Hp; [by destruct s|].
  exact E.
Qed.

End Flush.

(** The buffered text reaches the files. *)
Lemma buffer_force_flush_appends `{Platform} (s : state) (content : pystr)
    (b : list N) :
  reliable → _buffer s = Some content → strip content ≠ [] →
  utf8_encode (strip content) = Some b →
  NoDup (_file_paths s) → can_append b (_file_paths s) s →
  (50 < Z.of_nat (length (_file_paths s)) → _shutdown (_threadpool s) = false) →
  ∃ s', buffer_force_flush s = (Ok tt, s')
        ∧ _buffer s' = Some []
        ∧ (∀ q, fs s' !! q = if decide (q ∈ _file_paths s)
                             then Some (text_of (fs s) q ++ b ++ [10%N])
                             else fs s !! q)
        ∧ settings s' = settings s.
Proof.
  intros Hrel Hbuf Htext Hb Hnd Hcan Hrun.
  set (s1 := set_buffer (Some []) s).
  destruct (_writer_handler_appends (strip content) b s1 Hrel Hb)
    as (s2 & E2 & Hfs & _ & Hset & _ & Hbuf2 & _);
    [by destruct s..|].
  destruct (writer_force_flush_quiet s2 Hrel) as [n E3].
  exists (set_io_count n s2). split.
  - unfold buffer_force_flush. apply wrapping_Ok.
    erewrite bind_Ok by reflexivity. rewrite Hbuf.
    assert (content ≠ []) as Hc by (by intros ->).
    destruct (Z.ltb_spec 0 (Z.of_nat (length content))) as [_|Hlen];
      [|destruct content; [done|simpl in Hlen; lia]].
    assert (_get_buffer_message s = (Ok (strip content), s1)) as Eg.
    { unfold _get_buffer_message. munfold. by rewrite Hbuf. }
    erewrite bind_Ok; [exact E3|]. cbn [when].
    erewrite bind_Ok by exact Eg.
    destruct (strip content); [done|]. exact E2.
  - replace (_file_paths s1) with (_file_paths s) in Hfs by (by destruct s).
    replace (fs s1) with (fs s) in Hfs by (by destruct s).
    replace (settings s1) with (settings s) in Hset by (by destruct s).
    split.
    { replace (_buffer (set_io_count n s2)) with (_buffer s2)
        by (by destruct s2).
      rewrite Hbuf2. by destruct s. }
    split; [by destruct s2|]. rewrite <- Hset. by destruct s2.
Qed.




(** ** Buffering is transparent *)

Lemma lstrip_length s : (length (lstrip s) ≤ length s)%nat.
Proof.
  induction s as [|c s IH]; simpl; [done|].
  destruct (is_whitespace c); simpl; lia.
Qed.

Lemma lstrip_fixed c s : is_whitespace c = false → lstrip (c :: s) = c :: s.
Proof. intros Hc. simpl. by rewrite Hc. Qed.

Lemma lstrip_shorter c s :
  is_whitespace c = true → (length (lstrip (c :: s)) < length (c :: s))%nat.
Proof.
  intros Hc. simpl. rewrite Hc. pose proof (lstrip_length s). lia.
Qed.

Lemma rstrip_length s : (length (rstrip s) ≤ length s)%nat.
Proof.
  unfold rstrip. rewrite length_rev.
  pose proof (lstrip_length (rev s)). by rewrite length_rev in *.
Qed.

Lemma rstrip_snoc_ws s c : is_whitespace c = true → rstrip (s ++ [c]) = rstrip s.
Proof. intros Hc. unfold rstrip. rewrite rev_app_distr. simpl. by rewrite Hc. Qed.

Lemma rstrip_snoc_fixed s c :
  is_whitespace c = false → rstrip (s ++ [c]) = s ++ [c].
Proof.
  intros Hc. unfold rstrip. rewrite rev_app_distr. simpl. rewrite Hc.
  change (c :: rev s) with ([c] ++ rev s).
  by rewrite rev_app_distr, rev_involutive.
Qed.

(** A stripped message starts and ends with a character that is not
    whitespace. *)
Lemma stripped_ends m :
  stripped m →
  ∃ c t front d, m = c :: t ∧ m = front ++ [d]
                 ∧ is_whitespace c = false ∧ is_whitespace d = false.
Proof.
  intros [Hne Hs]. destruct m as [|c t]; [done|].
  destruct (is_whitespace c) eqn:Hc.
  { exfalso. pose proof (lstrip_shorter c t Hc) as Hl.
    pose proof (rstrip_length (lstrip (c :: t))) as Hr.
    unfold strip in Hs. rewrite Hs in Hr. lia. }
  destruct (exists_last (l := c :: t) ltac:(done)) as (front & d & Hm).
  exists c, t, front, d. split; [done|]. split; [done|]. split; [done|].
  destruct (is_whitespace d) eqn:Hd; [|done]. exfalso.
  unfold strip in Hs. rewrite (lstrip_fixed c t Hc), Hm in Hs.
  rewrite (rstrip_snoc_ws front d Hd) in Hs.
  pose proof (rstrip_length front) as Hr. rewrite Hs in Hr.
  rewrite length_app in Hr. simpl in Hr. lia.
Qed.

(** The buffered lines of stripped messages lose just their last newline
    when stripped. *)
Lemma strip_lines ms :
  ms ≠ [] → Forall stripped ms → strip (lines ms) ++ [10%N] = lines ms.
Proof.
  intros Hne Hall.
  destruct (exists_last Hne) as (front & ml & ->).
  apply Forall_app in Hall as [Hfront Hlast].
  rewrite Forall_singleton in Hlast.
  destruct (stripped_ends ml Hlast) as (_ & _ & body & d & _ & -> & _ & Hd).
  match goal with
  | |- strip ?x ++ _ = _ =>
      assert (x = (lines front ++ body) ++ [d] ++ [10%N]) as Hl
  end.
  { unfold lines. rewrite fmap_app, concat_app. simpl.
    rewrite app_nil_r. by rewrite <- !app_assoc. }
  assert (∃ c t, lines front ++ body ++ [d] = c :: t
                 ∧ is_whitespace c = false) as (c & t & Hhead & Hc).
  { destruct front as [|m1 front].
    - destruct (stripped_ends _ Hlast) as (c & t & _ & _ & E & _ & Hc & _).
      exists c, t. by rewrite <- E.
    - apply Forall_cons in Hfront as [H1 _].
      destruct (stripped_ends m1 H1) as (c & t & _ & _ & -> & _ & Hc & _).
      exists c. eexists. split; [|done]. unfold lines. simpl. reflexivity. }
  rewrite Hl. unfold strip.
  replace ((lines front ++ body) ++ [d] ++ [10%N])
    with ((c :: t) ++ [10%N]) by (by rewrite <- Hhead, <- !app_assoc).
  simpl lstrip at 1. rewrite Hc.
  change (c :: t ++ [10%N]) with ((c :: t) ++ [10%N]).
  rewrite rstrip_snoc_ws by done.
  rewrite <- Hhead, app_assoc, rstrip_snoc_fixed by done.
  by rewrite <- !app_assoc.
Qed.

Lemma utf8_encode_app_inv a c B :
  utf8_encode (a ++ c) = Some B →
  ∃ x y, utf8_encode a = Some x ∧ utf8_encode c = Some y ∧ B = x ++ y.
Proof.
  rewrite utf8_encode_app.
  destruct (utf8_encode a) as [x|], (utf8_encode c) as [y|]; try done.
  intros [= <-]. by exists x, y.
Qed.

Lemma pool_opened_refl s : slots_ready s → pool_opened s s.
Proof. intros Hr. by repeat apply conj. Qed.

Lemma pool_opened_trans s s0 s1 :
  pool_opened s s0 → pool_opened s0 s1 → pool_opened s s1.
Proof.
  intros (Ht0 & Ho0 & _ & Hs0 & Htp0) (Ht1 & Ho1 & Hr1 & Hs1 & Htp1).
  destruct (settings_inv _ _ Hs0) as (Hp0 & _).
  split; [intros q; by rewrite Ht1|].
  split; [intros q Hq; rewrite Ho1 by (by rewrite Hp0); by apply Ho0|].
  split; [done|]. split; congruence.
Qed.

Lemma pool_opened_buffered v s s0 :
  pool_opened s s0 → pool_opened s (set_buffer v s0).
Proof. by destruct s0. Qed.

Section Transparent.
Context `{Platform}.

Lemma log_buffers_opened m b content s :
  strip m ≠ [] → _file_paths s ≠ [] →
  _write_mode s = APPEND → slots_ready s →
  0 < _max_buffer_size s → _buffer s = Some content →
  utf8_encode m = Some b →
  tell content + Z.of_nat (length b) ≤ _max_buffer_size s →
  ∃ s0, log m s = (Ok tt, set_buffer (Some (content ++ m ++ [10%N])) s0)
        ∧ pool_opened s s0.
Proof.
  intros Hm Hp Hmode Hready Hpos Hbuf Hb Hfit.
  destruct (_ensure_sync_pool_append s Hmode Hready)
    as (s0 & E0 & Htext & Hout & Hready0 & Hset0 & Htp0 & Hbuf0 & _).
  destruct (settings_inv _ _ Hset0) as (_ & _ & _ & _ & _ & _ & _ & Hmax & _).
  exists s0. split; [|by repeat apply conj].
  apply (log_buffers m b); try done. by rewrite Hbuf0.
Qed.

(** Messages that fit are stored in the buffer one after the other. *)
Lemma logs_buffer ms :
  ∀ s content B,
    Forall (λ m, strip m ≠ []) ms → _file_paths s ≠ [] →
    _write_mode s = APPEND → slots_ready s →
    0 < _max_buffer_size s → _buffer s = Some content →
    utf8_encode (content ++ lines ms) = Some B →
    Z.of_nat (length B) ≤ _max_buffer_size s + 1 →
    ∃ s', for_each ms log s = (Ok tt, s')
          ∧ _buffer s' = Some (content ++ lines ms)
          ∧ pool_opened s s'.
Proof.
  induction ms as [|m ms IH];
    intros s content B Hall Hp Hmode Hready Hpos Hbuf HB Hlen.
  { exists s. split; [done|]. split; [|by apply pool_opened_refl].
    unfold lines. simpl. by rewrite app_nil_r. }
  apply Forall_cons in Hall as [Hm Hall].
  assert (lines (m :: ms) = (m ++ [10%N]) ++ lines ms) as Hl by done.
  rewrite Hl in *.
  destruct (utf8_encode_app_inv _ _ _ HB) as (Bc & B1 & Hc & H1 & ->).
  destruct (utf8_encode_app_inv _ _ _ H1) as (B2 & Br & H2 & Hr & ->).
  destruct (utf8_encode_app_inv _ _ _ H2) as (b & nl & Hb & Hnl & ->).
  injection Hnl as <-.
  pose proof (utf8_encode_length _ _ Hc) as Hcl.
  rewrite !length_app in Hlen. simpl in Hlen.
  destruct (log_buffers_opened m b content s) as (s0 & E0 & Hopen);
    try done.
  { unfold tell. lia. }
  destruct Hopen as (Ht0 & Ho0 & Hr0 & Hs0 & Htp0).
  destruct (settings_inv _ _ Hs0)
    as (Hp0 & Hm0 & _ & _ & _ & _ & _ & Hmax0 & _).
  set (s1 := set_buffer (Some (content ++ m ++ [10%N])) s0) in *.
  assert (_file_paths s1 = _file_paths s ∧ _write_mode s1 = _write_mode s
          ∧ _max_buffer_size s1 = _max_buffer_size s ∧ slots_ready s1
          ∧ _buffer s1 = Some (content ++ m ++ [10%N]))
    as (Hp1 & Hm1 & Hmax1 & Hr1 & Hbuf1).
  { subst s1. destruct s0; simpl in *. by repeat apply conj. }
  destruct (IH s1 (content ++ m ++ [10%N]) (Bc ++ (b ++ [10%N]) ++ Br))
    as (s' & E & Hbuf' & Hopen').
  { exact Hall. }
  { by rewrite Hp1. }
  { by rewrite Hm1. }
  { exact Hr1. }
  { by rewrite Hmax1. }
  { exact Hbuf1. }
  { rewrite <- HB. f_equal. by rewrite <- !app_assoc. }
  { rewrite !length_app, Hmax1. simpl. lia. }
  exists s'. split; [|split].
  - cbn [for_each]. by erewrite bind_Ok by exact E0.
  - rewrite Hbuf'. by rewrite <- !app_assoc.
  - apply (pool_opened_trans s s1); [|done].
    apply pool_opened_buffered. by repeat apply conj.
Qed.

End Transparent.



(** ** A write that rotates *)

Section RotatingWrite.
Context `{Platform}.

Lemma _rotate_file_mode m p : preserves _write_mode (_rotate_file m p).
Proof.
  unfold _rotate_file, _check_file_size, evict_slot, file_close, pool_pop,
    pool_put, pool_lookup, write_text_empty, shift_rotated, path_with_name,
    path_exists, unlink, rename, touch.
  frame.
Qed.

Lemma spec_rotate_self p n files content :
  files !! p = Some content → spec_rotate p n files !! p = Some [].
Proof.
  intros Hp. destruct (decide (n = 0)) as [->|Hn].
  - unfold spec_rotate. simpl. apply lookup_insert_eq.
  - by apply (spec_rotate_first p n files content).
Qed.

(** A write to a file that has no room: the file is rotated, opened anew
    and written. *)
Lemma _write_to_file_rotates p m b content s :
  reliable → name p ≠ [] → _write_mode s = APPEND →
  fs s !! p = Some content → utf8_encode m = Some b →
  _max_file_size s < Z.of_nat (length content) + Z.of_nat (length b) →
  ∃ s', _write_to_file p m s = (Ok tt, s')
        ∧ fs s' = <[p := b ++ [10%N]]> (spec_rotate p (_max_rotation s) (fs s)).
Proof.
  intros Hrel Hn Hmode Hp Hb Hbig.
  destruct (_rotate_file_spec m p s content b Hn Hp Hb Hbig)
    as (s1 & E1 & Hfs1 & Hpool1).
  { unfold closes_quietly. destruct (pool_get _ _); [|done]. right. apply Hrel. }
  assert (_write_mode s1 = APPEND) as Hmode1.
  { pose proof (_rotate_file_mode m p s) as Hm. rewrite E1 in Hm.
    simpl in Hm. congruence. }
  assert (fs s1 !! p = Some []) as Hp1.
  { rewrite Hfs1. by apply (spec_rotate_self p _ _ content). }
  unfold _write_to_file.
  erewrite bind_Ok by apply _check_file_size_result.
  rewrite Hp, Hb, bool_decide_eq_true_2 by done.
  erewrite (bind_Ok (when true _) _ s tt s1).
  2:{ cbn [when]. erewrite bind_Ok by exact E1.
      erewrite bind_Ok by reflexivity. by rewrite Hpool1. }
  erewrite bind_Ok by reflexivity. rewrite Hpool1.
  erewrite bind_Ok
    by (rewrite open_new_slot, decide_False by (by rewrite Hmode1);
        reflexivity).
  assert (pool_get p (_temp_sync_pool (slot_opened p s1))
          = Some (mkFile APPEND 0 false)
          ∧ fs (slot_opened p s1) = <[p := []]> (fs s1)) as [Hslot Hfs2].
  { unfold slot_opened, opened_text, text_of. rewrite Hmode1, Hp1.
    destruct s1; simpl. by rewrite pool_get_set_eq. }
  rewrite (write_with_retry_ok p m b (mkFile APPEND 0 false) []),
    (write_attempt_ok p m b (mkFile APPEND 0 false) []);
    try done; try (by rewrite Hfs2, lookup_insert_eq).
  eexists. split; [reflexivity|].
  rewrite <- Hfs1. destruct (slot_opened p s1); simpl in *. subst.
  by rewrite insert_insert_eq.
Qed.

End RotatingWrite.



(** ** Recovering from transient faults *)

Section Transient.
Context `{Platform}.

Lemma retry_loop_recovers path m b f c :
  f_closed f = false → f_mode f = APPEND → utf8_encode m = Some b →
  ∀ (k n : nat) (counter : Z) (s : state),
    (k < n)%nat → counter + Z.of_nat k < _retry_limit s →
    (0 <= _retry_delay s)%Q → (0 <= _backoff_factor s)%Q →
    (∀ i : Z, counter < i < _retry_limit s →
       (_backoff_factor s ^ (i - 1) <= float_max)%Q
       ∧ (spec_delay (_retry_delay s) (_backoff_factor s) i <= sleep_max)%Q) →
    pool_get path (_temp_sync_pool s) = Some f →
    fs s !! path = Some c →
    (∀ j, (j < k)%nat → io_fault (io_count s + j) = true) →
    io_fault (io_count s + k) = false →
    io_fault (io_count s + S k) = false →
    ∃ s' ts t,
      retry_loop n counter path m s = (Ok tt, s')
      ∧ fs s' = <[path := c ++ b ++ [10%N]]> (fs s)
      ∧ trace s' = EvWrite path t true
                   :: rev ((λ t, EvWrite path t false) <$> ts) ++ trace s
      ∧ length ts = k
      ∧ (clock s' == clock s
                     + waited (_retry_delay s) (_backoff_factor s) counter k)%Q
      ∧ t = clock s'.
Proof.
  intros Hc Hm Hb. induction k as [|k IH];
    intros n counter s Hn Hlim Hrd Hbf Hwaits Hf Hfs Hfail Hok1 Hok2.
  - destruct n as [|n]; [lia|].
    rewrite Nat.add_0_r in Hok1. rewrite Nat.add_1_r in Hok2.
    pose proof (write_attempt_ok path m b f c s Hf Hc Hm Hb Hfs Hok1 Hok2) as Hw.
    eexists _, [], (clock s). split.
    { cbn [retry_loop]. erewrite (bind_Ok _ _ s true); [reflexivity|].
      apply try_except_Ok. by erewrite bind_Ok by exact Hw. }
    destruct s; simpl. repeat split; try done. ring.
  - destruct n as [|n]; [lia|].
    pose proof (utf8_encode_line m b Hb) as Hline.
    pose proof (write_attempt_fault path m f _ s Hf Hc Hline) as Hw.
    rewrite <- (Nat.add_0_r (io_count s)) in Hw at 1.
    specialize (Hw (Hfail 0%nat ltac:(lia))).
    set (s1 := set_trace (EvWrite path (clock s) false :: trace s)
                 (set_io_count (S (io_count s)) s)) in *.
    destruct (Hwaits (counter + 1) ltac:(lia)) as [Hpow Hmax].
    destruct (backoff_wait_effect (counter + 1) s1) as (t1 & Ew & Ht1).
    { by destruct s. } { by destruct s. } { by destruct s. } { by destruct s. }
    set (s2 := set_clock t1 s1) in *.
    destruct (IH n (counter + 1) s2)
      as (s' & ts & t & E & Hfs' & Htr & Hlen & Hclk & Ht).
    { lia. } { subst s2 s1. destruct s; simpl in *. lia. }
    { by destruct s. } { by destruct s. }
    { intros i Hi. subst s2 s1. destruct s; simpl in *. apply Hwaits. lia. }
    { by destruct s. } { by destruct s. }
    { intros j Hj. replace (io_count s2 + j)%nat with (io_count s + S j)%nat
        by (destruct s; simpl; lia). apply Hfail. lia. }
    { replace (io_count s2 + k)%nat with (io_count s + S k)%nat
        by (destruct s; simpl; lia). done. }
    { replace (io_count s2 + S k)%nat with (io_count s + S (S k))%nat
        by (destruct s; simpl; lia). done. }
    exists s', (clock s :: ts), t. split.
    { cbn [retry_loop]. erewrite (bind_Ok _ _ s false s2); [exact E|].
      erewrite try_except_Raise
        by (erewrite bind_Raise by exact Hw; reflexivity).
      erewrite (bind_Ok (gets _retry_limit)) by reflexivity.
      replace (_retry_limit s1) with (_retry_limit s) by (by destruct s).
      destruct (Z.leb_spec (_retry_limit s) (counter + 1)); [lia|].
      by erewrite bind_Ok by exact Ew. }
    split; [by rewrite Hfs'; destruct s|].
    split.
    { rewrite Htr. simpl. rewrite <- app_assoc. by destruct s. }
    split; [simpl; lia|]. split; [|done].
    rewrite Hclk. cbn [waited].
    replace (_retry_delay s2) with (_retry_delay s) by (by destruct s).
    replace (_backoff_factor s2) with (_backoff_factor s) by (by destruct s).
    replace (clock s2) with t1 by (by destruct s).
    replace (_retry_delay s1) with (_retry_delay s) in Ht1 by (by destruct s).
    replace (_backoff_factor s1) with (_backoff_factor s) in Ht1
      by (by destruct s).
    replace (clock s1) with (clock s) in Ht1 by (by destruct s).
    rewrite <- Ht1. ring.
Qed.

End Transient.



(** ** Validation of the settings *)

Lemma name_check_result (paths : list Path) s :
  for_each paths (λ path,
    when (255 <? Z.of_nat (length (name path)))
      (raise (Exn ValueError (NameTooLong path)))) s
  = match long_name paths with
    | Some p => (Raise (Exn ValueError (NameTooLong p)), s)
    | None => (Ok tt, s)
    end.
Proof.
  unfold long_name. induction paths as [|p paths IH]; [done|].
  cbn [for_each List.find].
  destruct (255 <? Z.of_nat (length (name p))); [done|].
  by erewrite bind_Ok by reflexivity.
Qed.

Lemma file_paths_setter_result paths s :
  file_paths_setter paths s
  = match paths_objection paths with
    | Some reason => (Raise (rejected reason), s)
    | None => (Ok tt, set_file_paths paths s)
    end.
Proof.
  unfold file_paths_setter, paths_objection, rejected.
  destruct paths as [|p paths]; [done|].
  unfold wrapping, try_except. unfold mbind at 1, M_bind.
  rewrite name_check_result.
  by destruct (long_name (p :: paths)).
Qed.

Lemma retry_limit_setter_result v s :
  retry_limit_setter v s
  = if v <? 0 then (Raise (rejected NegativeSetting), s)
    else (Ok tt, set_retry_limit v s).
Proof. unfold retry_limit_setter. munfold. by destruct (v <? 0). Qed.

Lemma retry_delay_setter_result v s :
  retry_delay_setter v s
  = if Qlt_le_dec v 0 then (Raise (rejected NegativeSetting), s)
    else (Ok tt, set_retry_delay v s).
Proof. unfold retry_delay_setter. munfold. by destruct (Qlt_le_dec v 0). Qed.

Lemma backoff_factor_setter_result v s :
  backoff_factor_setter v s
  = if Qlt_le_dec v 0 then (Raise (rejected NegativeSetting), s)
    else (Ok tt, set_backoff_factor v s).
Proof. unfold backoff_factor_setter. munfold. by destruct (Qlt_le_dec v 0). Qed.

Lemma max_file_size_setter_result v s :
  max_file_size_setter v s
  = if v <? 0 then (Raise (rejected NegativeSetting), s)
    else (Ok tt, set_max_file_size v s).
Proof. unfold max_file_size_setter. munfold. by destruct (v <? 0). Qed.

Lemma max_rotation_setter_result v s :
  max_rotation_setter v s
  = if v <? 0 then (Raise (rejected NegativeSetting), s)
    else (Ok tt, set_max_rotation v s).
Proof. unfold max_rotation_setter. munfold. by destruct (v <? 0). Qed.

Lemma max_buffer_size_setter_result v s :
  max_buffer_size_setter v s
  = if v <? 0 then (Raise (rejected NegativeSetting), s)
    else (Ok tt, set_max_buffer_size v s).
Proof. unfold max_buffer_size_setter. munfold. by destruct (v <? 0). Qed.

Lemma write_mode_setter_result v s :
  write_mode_setter v s = (Ok tt, set_write_mode v s).
Proof. done. Qed.

Lemma use_write_flush_setter_result v s :
  use_write_flush_setter v s = (Ok tt, set_use_write_flush v s).
Proof. done. Qed.

Lemma paths_objection_none paths :
  paths_objection paths = None
  ↔ paths ≠ [] ∧ Forall (λ p, Z.of_nat (length (name p)) ≤ 255) paths.
Proof.
  unfold paths_objection, long_name. destruct paths as [|p paths].
  { split; [done|]. by intros [? _]. }
  rewrite fmap_None. split.
  - intros Hf. split; [done|]. apply Forall_forall. intros q Hq.
    apply list_elem_of_In in Hq.
    pose proof (find_none _ _ Hf q Hq) as Hlen. simpl in Hlen. bools. lia.
  - intros [_ Hall]. destruct (List.find _ _) as [q|] eqn:Hq; [|done].
    apply find_some in Hq as [Hin Hlen]. apply list_elem_of_In in Hin.
    rewrite Forall_forall in Hall. specialize (Hall q Hin). bools. lia.
Qed.

(** Run the next setter of a sequence. *)
Ltac next_setter :=
  first
    [ rewrite file_paths_setter_result
    | rewrite write_mode_setter_result
    | rewrite retry_limit_setter_result
    | rewrite retry_delay_setter_result
    | rewrite backoff_factor_setter_result
    | rewrite max_file_size_setter_result
    | rewrite max_rotation_setter_result
    | rewrite max_buffer_size_setter_result
    | rewrite use_write_flush_setter_result ];
  cbv beta iota.

Section Construction.
Context `{Platform}.

(** The constructor applies the settings in order and stops at the first
    one that is rejected. *)
Lemma __init___result paths mode rl rd bf mfs mr mbs flush s0 :
  __init__ paths mode rl rd bf mfs mr mbs flush s0
  = let failed reason s :=
      (Raise (ExnFrom FileHandlerConstructionError Rewrapped (rejected reason)),
       s) in
    match paths_objection paths with
    | Some reason => failed reason s0
    | None =>
        let s1 := set_write_mode mode (set_file_paths paths s0) in
        if rl <? 0 then failed NegativeSetting s1 else
        let s2 := set_retry_limit rl s1 in
        if Qlt_le_dec rd 0 then failed NegativeSetting s2 else
        let s3 := set_retry_delay rd s2 in
        if Qlt_le_dec bf 0 then failed NegativeSetting s3 else
        let s4 := set_backoff_factor bf s3 in
        if mfs <? 0 then failed NegativeSetting s4 else
        let s5 := set_max_file_size mfs s4 in
        if mr <? 0 then failed NegativeSetting s5 else
        let s6 := set_max_rotation mr s5 in
        if mbs <? 0 then failed NegativeSetting s6 else
        (Ok tt,
         set_buffer (Some [])
           (set_threadpool
              (mkExecutor false (workers_for (Z.of_nat (length paths))))
              (set_pool []
                 (set_use_write_flush flush (set_max_buffer_size mbs s6)))))
    end.
Proof.
  cbv zeta. unfold __init__, wrapping, try_except, mbind, M_bind.
  next_setter. destruct (paths_objection paths); cbv beta iota; [done|].
  next_setter.
  next_setter. destruct (rl <? 0); cbv beta iota; [done|].
  next_setter. destruct (Qlt_le_dec rd 0); cbv beta iota; [done|].
  next_setter. destruct (Qlt_le_dec bf 0); cbv beta iota; [done|].
  next_setter. destruct (mfs <? 0); cbv beta iota; [done|].
  next_setter. destruct (mr <? 0); cbv beta iota; [done|].
  next_setter. destruct (mbs <? 0); cbv beta iota; [done|].
  next_setter. done.
Qed.

End Construction.


(** X14.  [reset] puts the nine settings back to fixed values.  When it
    returns, the handler has the given paths, append mode, three retries,
    a delay of half a second, a backoff factor of 0.2, ten mebibytes per
    file, two rotated copies, a buffer of one mebibyte and flushing after
    each write; the slot pool, the buffered text, the worker pool and the
    files are as they were.  An empty path list or a file name longer than
    255 characters makes it fail with a [FileHandlerResetError] and leave
    the handler unchanged.  The outcome is that of
    [config(file_paths, max_rotation=2)], up to the class of the error. *)
Theorem reset_restores_defaults (paths : list Path) (s : state) :
  ((reset paths s).1 = Ok tt →
     (reset paths s).2
     = mkState paths APPEND 3 (5 # 10) (2 # 10) (10 * 1024 * 1024) 2
         (1024 * 1024) true (_temp_sync_pool s) (_threadpool s) (_buffer s)
         (fs s) (io_count s) (clock s) (trace s))
  ∧ (paths = [] ∨ Exists (λ p, 255 < Z.of_nat (length (name p))) paths →
     ∃ e, reset paths s = (Raise e, s) ∧ exn_cls e = FileHandlerResetError)
  ∧ config_call (mkArgs (Given paths) Omitted Omitted Omitted Omitted Omitted
                   (Given 2) Omitted Omitted) s
    = match reset paths s with
      | (Ok _, s') => (Ok tt, s')
      | (Raise (ExnFrom _ w cause), s') =>
          (Raise (ExnFrom FileHandlerConfigError w cause), s')
      | other => other
      end.
Proof.
  assert (reset paths s
          = match paths_objection paths with
            | Some reason =>
                (Raise (ExnFrom FileHandlerResetError Rewrapped
                          (rejected reason)), s)
            | None =>
                (Ok tt,
                 mkState paths APPEND 3 (5 # 10) (2 # 10) (10 * 1024 * 1024) 2
                   (1024 * 1024) true (_temp_sync_pool s) (_threadpool s)
                   (_buffer s) (fs s) (io_count s) (clock s) (trace s))
            end) as Hreset.
  { unfold reset, wrapping, try_except, mbind, M_bind.
    next_setter. destruct (paths_objection paths); cbv beta iota; [done|].
    repeat next_setter. by destruct s. }
  pose proof (paths_objection_none paths) as Hpaths.
  split; [|split].
  - rewrite Hreset. by destruct (paths_objection paths).
  - intros Hbad. rewrite Hreset.
    destruct (paths_objection paths) as [reason|]; [by eexists|].
    exfalso. destruct Hpaths as [[Hne Hall] _]; [done|].
    destruct Hbad as [->|Hlong]; [done|].
    apply Exists_exists in Hlong as (q & Hq & Hlen).
    rewrite Forall_forall in Hall. specialize (Hall q Hq). lia.
  - rewrite Hreset.
    unfold config_call, config, unless_none, received, a_file_paths,
      a_write_mode, a_retry_limit, a_retry_delay, a_backoff_factor,
      a_max_file_size, a_max_rotation, a_max_buffer_size, a_use_write_flush,
      wrapping, try_except, mbind, M_bind.
    next_setter. destruct (paths_objection paths); cbv beta iota; [done|].
    repeat next_setter. by destruct s.
Qed.

(** X15.  [config] is not atomic.  The settings are validated and applied
    one after the other, so a call that fails on its last validated
    setting, [max_buffer_size], has already replaced the paths, the write
    mode and the five settings before it; only [use_write_flush] keeps its
    old value.  The error is a [FileHandlerConfigError]. *)
Theorem config_is_not_atomic (s : state) (paths : list Path)
    (mode : LogWriteMode) (rl : Z) (rd bf : Q) (mfs mr mbs : Z) (flush : bool) :
  paths_objection paths = None →
  0 ≤ rl → (0 <= rd)%Q → (0 <= bf)%Q → 0 ≤ mfs → 0 ≤ mr → mbs < 0 →
  config (Some paths) (Some mode) (Some rl) (Some rd) (Some bf) (Some mfs)
    (Some mr) (Some mbs) (Some flush) s
  = (Raise (ExnFrom FileHandlerConfigError Rewrapped (rejected NegativeSetting)),
     mkState paths mode rl rd bf mfs mr (_max_buffer_size s)
       (_use_write_flush s) (_temp_sync_pool s) (_threadpool s) (_buffer s)
       (fs s) (io_count s) (clock s) (trace s)).
Proof.
  intros Hp Hrl Hrd Hbf Hmfs Hmr Hmbs.
  unfold config, unless_none, wrapping, try_except, mbind, M_bind.
  next_setter. rewrite Hp. cbv beta iota.
  next_setter.
  next_setter. destruct (Z.ltb_spec rl 0); [lia|]. cbv beta iota.
  next_setter. destruct (Qlt_le_dec rd 0) as [Hneg|_];
    [by apply Qlt_not_le in Hneg|]. cbv beta iota.
  next_setter. destruct (Qlt_le_dec bf 0) as [Hneg|_];
    [by apply Qlt_not_le in Hneg|]. cbv beta iota.
  next_setter. destruct (Z.ltb_spec mfs 0); [lia|]. cbv beta iota.
  next_setter. destruct (Z.ltb_spec mr 0); [lia|]. cbv beta iota.
  next_setter. destruct (Z.ltb_spec mbs 0); [|lia]. cbv beta iota.
  by destruct s.
Qed.

Lemma config_is_not_atomic_witness :
  let r := config (Some [tmp "b.log"]) (Some OVERWRITE) (Some 7) (Some 1%Q)
             (Some 1%Q) (Some 9) (Some 1) (Some (-1)) (Some false)
             fixture_handler in
  exn_cls (match r.1 with Raise e => e | Ok _ => Exn ValueError EmptyData end)
  = FileHandlerConfigError
  ∧ _file_paths r.2 = [tmp "b.log"] ∧ _retry_limit r.2 = 7.
Proof.
  cbv zeta.
  rewrite (config_is_not_atomic fixture_handler [tmp "b.log"] OVERWRITE 7 1 1
             9 1 (-1) false); [|reflexivity|lia|discriminate|discriminate
                               |lia|lia|lia].
  repeat split.
Defined.

(** ** The worker pool *)

Lemma workers_for_bounds `{Platform} (n : Z) :
  (∀ c, cpu_count = Some c → 0 ≤ c) →
  1 ≤ workers_for n ≤ 4 ∧ workers_for n ≤ Z.max 1 n.
Proof.
  intros Hcpu. unfold workers_for, cpu_count_or.
  destruct cpu_count as [c|] eqn:Hc.
  - specialize (Hcpu c eq_refl). repeat case_match; bools; lia.
  - repeat case_match; bools; lia.
Qed.



(** ** Leaving the context manager *)

Section Leaving.
Context `{Platform}.

Lemma writer_force_flush_frame {B} (f : state → B) :
  (∀ n s, f (set_io_count n s) = f s) → preserves f writer_force_flush.
Proof.
  intros Hf. unfold writer_force_flush, file_flush, pool_lookup.
  repeat first [ frame_step | apply preserves_fallible; exact Hf ].
Qed.

Lemma clear_sync_pool_result s s' :
  clear_sync_pool s = (Ok tt, s') → _temp_sync_pool s' = [].
Proof.
  unfold clear_sync_pool. intros E%wrapping_Ok_inv.
  apply bind_Ok_inv in E as (pool & s1 & [= <- <-] & E).
  destruct (_temp_sync_pool s) eqn:Hp; [by injection E as <-|].
  apply bind_Ok_inv in E as ([] & s2 & _ & [= <-]). by destruct s2.
Qed.

End Leaving.

(** X17.  Leaving an [async with] block does not release the file slots.
    On a handler with nothing in its buffer, [__aexit__] leaves the slot
    pool exactly as it was, every open file still open, while it clears
    the path list and shuts the worker pool down when it succeeds, so that
    no later call can use or close these slots through the paths.
    [__exit__] in the same situation ends with an empty pool. *)
Theorem aexit_keeps_slots_open `{Platform} (s : state) :
  get_buffer_size s = 0 →
  _temp_sync_pool (__aexit__ s).2 = _temp_sync_pool s
  ∧ fs (__aexit__ s).2 = fs s
  ∧ (∀ s', __aexit__ s = (Ok tt, s') →
       _file_paths s' = [] ∧ _shutdown (_threadpool s') = true)
  ∧ (∀ s', __exit__ s = (Ok tt, s') → _temp_sync_pool s' = []).
Proof.
  intros Hsize.
  assert (__aexit__ s
          = (match _buffer s with
             | Some _ => wrapping FileHandlerBufferError writer_force_flush
             | None => mret tt
             end;;
             modify (set_file_paths []);;
             pool ← gets _threadpool;
             when (negb (_shutdown pool)) (shutdown true)) s) as Eexit.
  { unfold __aexit__. erewrite bind_Ok by reflexivity.
    unfold get_buffer_size, tell in Hsize.
    destruct (_buffer s) as [content|] eqn:Hbuf.
    - assert (content = []) as -> by (destruct content; [done|simpl in *; lia]).
      rewrite bool_decide_eq_true_2 by done. cbn [when].
      assert (buffer_force_flush s
              = wrapping FileHandlerBufferError writer_force_flush s) as Eb.
      { unfold buffer_force_flush, wrapping, try_except.
        erewrite bind_Ok by reflexivity. rewrite Hbuf. simpl length.
        by erewrite (bind_Ok (when _ _)) by reflexivity. }
      unfold mbind at 1 4, M_bind. by rewrite Eb.
    - by rewrite bool_decide_eq_false_2 by (by intros [? ?]). }
  assert (∀ B (f : state → B),
            preserves f writer_force_flush →
            preserves f (modify (set_file_paths [])) →
            preserves f (shutdown true) →
            f (__aexit__ s).2 = f s) as Hframe.
  { intros B f Hw Hp Hsd. rewrite Eexit.
    assert (preserves f
              (match _buffer s with
               | Some _ => wrapping FileHandlerBufferError writer_force_flush
               | None => mret tt
               end;;
               modify (set_file_paths []);;
               pool ← gets _threadpool;
               when (negb (_shutdown pool)) (shutdown true))) as Hpres;
      [|apply Hpres].
    repeat first [ assumption | frame_step ]. }
  split.
  { apply Hframe; [by apply writer_force_flush_frame; intros ? []| |];
      by intros []. }
  split.
  { apply Hframe; [by apply writer_force_flush_frame; intros ? []| |];
      by intros []. }
  split.
  - intros s' E. unfold __aexit__ in E.
    apply bind_Ok_inv in E as (b & s0 & _ & E).
    apply bind_Ok_inv in E as ([] & s1 & _ & E).
    apply bind_Ok_inv in E as ([] & s2 & [= <-] & E).
    apply bind_Ok_inv in E as (pool & s3 & [= <- <-] & E).
    destruct s1; simpl in *.
    destruct (_shutdown _threadpool0) eqn:Hsd; simpl in E;
      injection E as <-; by simpl.
  - intros s' E. unfold __exit__ in E.
    apply bind_Ok_inv in E as (b & s0 & _ & E).
    apply bind_Ok_inv in E as ([] & s1 & _ & E).
    apply bind_Ok_inv in E as ([] & s2 & _ & E).
    apply bind_Ok_inv in E as ([] & s3 & Hclear & E).
    apply clear_sync_pool_result in Hclear.
    apply bind_Ok_inv in E as (pool & s4 & [= <- <-] & E).
    destruct s3; simpl in *.
    destruct (_shutdown _threadpool0) eqn:Hsd; simpl in E;
      injection E as <-; by simpl.
Qed.

Lemma aexit_keeps_slots_open_witness :
  let s := (@log posix4 (py "hello") (wide_handler 2)).2 in
  length (_temp_sync_pool (@__aexit__ posix4 s).2) = 2%nat
  ∧ _file_paths (@__aexit__ posix4 s).2 = [].
Proof.
  cbv zeta.
  destruct (@aexit_keeps_slots_open posix4
              (@log posix4 (py "hello") (wide_handler 2)).2 eq_refl)
    as (Hpool & _ & Hpaths & _).
  rewrite Hpool. split; [reflexivity|].
  apply (Hpaths (@__aexit__ posix4
                   (@log posix4 (py "hello") (wide_handler 2)).2).2).
  vm_compute. reflexivity.
Defined.

(** ** Teardown that succeeds *)

Section Teardown.
Context `{Platform}.

Lemma clear_sync_pool_frame {B} (f : state → B) :
  (∀ v s, f (set_pool v s) = f s) → (∀ n s, f (set_io_count n s) = f s) →
  preserves f clear_sync_pool.
Proof.
  intros Hp Hio.
  assert (∀ g, (∀ s, ∃ v, g s = set_pool v s) → preserves f (modify g)) as Hmod.
  { intros g Hg s. destruct (Hg s) as [v E]. simpl. rewrite E. apply Hp. }
  unfold clear_sync_pool, close_slot, file_flush, file_close, pool_pop,
    pool_put, pool_lookup.
  repeat first
    [ apply preserves_fallible; exact Hio
    | apply Hmod; intros s; by eexists
    | frame_step ].
Qed.

(** A buffer without text is just reset; the files are flushed. *)
Lemma buffer_force_flush_blank s content :
  reliable → _buffer s = Some content → strip content = [] →
  ∃ n, buffer_force_flush s
       = (Ok tt, set_io_count n (set_buffer (Some []) s)).
Proof.
  intros Hrel Hbuf Hblank.
  destruct (writer_force_flush_quiet (set_buffer (Some []) s) Hrel) as [n E].
  exists n. unfold buffer_force_flush. apply wrapping_Ok.
  erewrite bind_Ok by reflexivity. rewrite Hbuf.
  erewrite (bind_Ok _ _ s tt (set_buffer (Some []) s)); [exact E|].
  destruct content as [|c content]; simpl length.
  { cbn [when Z.ltb Z.of_nat Z.compare]. destruct s; simpl in *. by subst. }
  assert (_get_buffer_message s = (Ok [], set_buffer (Some []) s)) as Eg.
  { unfold _get_buffer_message. munfold. by rewrite Hbuf, Hblank. }
  change (0 <? Z.of_nat (S (length content))) with true. cbn [when].
  by erewrite bind_Ok by exact Eg.
Qed.

(** The end of every teardown: forget the paths, stop the workers. *)
Lemma forget_and_stop s :
  ∃ s', (modify (set_file_paths []);;
         pool ← gets _threadpool;
         when (negb (_shutdown pool)) (shutdown true)) s = (Ok tt, s')
        ∧ _file_paths s' = [] ∧ _shutdown (_threadpool s') = true
        ∧ _temp_sync_pool s' = _temp_sync_pool s
        ∧ _buffer s' = _buffer s ∧ fs s' = fs s.
Proof.
  unfold shutdown. munfold. destruct s as [? ? ? ? ? ? ? ? ? ? [sd w] ? ? ? ? ?].
  simpl. destruct sd; simpl; eexists; by split.
Qed.

End Teardown.



(** ** Further properties of rotation *)

(** X19.  The names of the rotated copies never collide.  For a path with
    a file name, [path.with_name(f"{path.stem}_{i}{path.suffix}")] is a
    file of the same directory that differs from the path itself, and two
    generations have the same name only if they are the same generation:
    a rotation never renames a copy onto the live file or onto another
    copy. *)
Theorem rotation_names_never_collide (p : Path) (i j : Z) :
  name p ≠ [] →
  with_name p (rotated_name p i) = Some (sibling p i)
  ∧ parent (sibling p i) = parent p
  ∧ sibling p i ≠ p
  ∧ (sibling p i = sibling p j ↔ i = j).
Proof.
  intros Hn. split.
  { unfold with_name, sibling. by destruct (name p). }
  split; [done|]. split; [apply sibling_ne_self|].
  split; [apply sibling_inj|by intros ->].
Qed.

Lemma rotation_names_never_collide_witness :
  with_name (tmp "a.log") (rotated_name (tmp "a.log") 2) = Some (tmp "a_2.log")
  ∧ tmp "a_2.log" ≠ tmp "a.log".
Proof.
  destruct (rotation_names_never_collide (tmp "a.log") 2 2 ltac:(discriminate))
    as (Hw & _ & Hne & _).
  split; [exact Hw|exact Hne].
Defined.

(** ** Invariants of the handler *)

(** X21.  The numeric settings of a handler are never negative and no path
    has two slots: the constructor establishes this, and every operation
    keeps it, whether it returns or raises, since settings change only
    through the validating setters. *)
Theorem handler_stays_well_formed `{Platform} (s : state) (m : pystr)
    (wait : bool) (kw : config_args) (paths : list Path) :
  well_formed s →
  well_formed (log m s).2 ∧ well_formed (async_log m s).2
  ∧ well_formed (buffer_force_flush s).2
  ∧ well_formed (writer_force_flush s).2
  ∧ well_formed (clear_sync_pool s).2
  ∧ well_formed (clear_all s).2 ∧ well_formed (__exit__ s).2
  ∧ well_formed (__aexit__ s).2 ∧ well_formed (__del__ s).2
  ∧ well_formed (force_shutdown wait s).2 ∧ well_formed (resume_pool s).2
  ∧ well_formed (config_dict kw s).2 ∧ well_formed (reset paths s).2.
Proof.
  intros Hwf.
  destruct (operations_keep_well_formed m wait kw)
    as (H1 & H2 & H3 & H4 & H5 & H6 & H7 & H8 & H9).
  assert (maintains well_formed writer_force_flush) as Hw
    by (unfold writer_force_flush; maintain).
  assert (maintains well_formed __aexit__) as Ha
    by (unfold __aexit__; maintain).
  assert (maintains well_formed __del__) as Hd
    by (unfold __del__; maintain).
  assert (maintains well_formed (reset paths)) as Hr
    by (unfold reset; maintain).
  exact (conj (H1 s Hwf) (conj (H2 s Hwf) (conj (H3 s Hwf) (conj (Hw s Hwf)
         (conj (H4 s Hwf) (conj (H5 s Hwf) (conj (H6 s Hwf) (conj (Ha s Hwf)
         (conj (Hd s Hwf) (conj (H7 s Hwf) (conj (H8 s Hwf) (conj (H9 s Hwf)
         (Hr s Hwf))))))))))))).
Qed.

Lemma handler_stays_well_formed_witness :
  well_formed (@log posix4 (py "hello") small_buffer_handler).2
  ∧ well_formed (@clear_all posix4 small_buffer_handler).2.
Proof.
  destruct (@handler_stays_well_formed posix4 small_buffer_handler (py "hello")
              true (mkArgs Omitted Omitted Omitted Omitted Omitted Omitted
                      Omitted Omitted Omitted) [])
    as (Hlog & _ & _ & _ & _ & Hclear & _).
  - exact (@constructed_well_formed posix4 [tmp "a.log"] APPEND 2 (1 # 10)
             (2 # 10) (10 * 1024 * 1024) 5 10 true ∅).
  - split; [exact Hlog|exact Hclear].
Defined.

(** X22.  The handler never enters a [GCManager] block: whatever the
    number of paths, no logging, flushing or teardown operation calls
    [batcher_with_gcmanager] with more than one batch. *)
Theorem handler_never_enters_gcmanager `{Platform} (s : state) (m : pystr) :
  no_gc s →
  no_gc (log m s).2 ∧ no_gc (async_log m s).2
  ∧ no_gc (buffer_force_flush s).2
  ∧ no_gc (clear_all s).2 ∧ no_gc (__exit__ s).2 ∧ no_gc (__aexit__ s).2
  ∧ no_gc (__del__ s).2.
Proof.
  intros Hs.
  destruct (logging_never_enters_gcmanager m) as (Hlog & Hasync & Hflush).
  assert (maintains no_gc clear_sync_pool) as Hclear
    by (unfold clear_sync_pool; repeat no_gc_step).
  assert (∀ (b : bool), maintains no_gc (when b buffer_force_flush)) as Hwhen
    by (intros b; by apply maintains_when).
  assert (maintains no_gc (shutdown true)) as Hsd
    by (unfold shutdown; repeat no_gc_step).
  split; [exact (Hlog s Hs)|]. split; [exact (Hasync s Hs)|].
  split; [exact (Hflush s Hs)|]. repeat apply conj.
  - assert (maintains no_gc clear_all) as Hm; [|exact (Hm s Hs)].
    unfold clear_all. repeat first [ assumption | apply Hwhen | no_gc_step ].
  - assert (maintains no_gc __exit__) as Hm; [|exact (Hm s Hs)].
    unfold __exit__. repeat first [ assumption | apply Hwhen | no_gc_step ].
  - assert (maintains no_gc __aexit__) as Hm; [|exact (Hm s Hs)].
    unfold __aexit__. repeat first [ assumption | apply Hwhen | no_gc_step ].
  - assert (maintains no_gc __del__) as Hm; [|exact (Hm s Hs)].
    unfold __del__. repeat first [ assumption | apply Hwhen | no_gc_step ].
Qed.

Lemma handler_never_enters_gcmanager_witness :
  no_gc (@log posix4 (py "hello") (wide_handler 51)).2.
Proof.
  refine (proj1 (@handler_never_enters_gcmanager posix4 (wide_handler 51)
                   (py "hello") _)).
  vm_compute. reflexivity.
Defined.

(** ** The first write in each mode *)

Section Modes.
Context `{Platform}.

(** One successful pass through the body of the retry loop, in any mode. *)
Lemma write_attempt_any p m b f c s :
  pool_get p (_temp_sync_pool s) = Some f → f_closed f = false →
  utf8_encode m = Some b → fs s !! p = Some c →
  io_fault (io_count s) = false → io_fault (S (io_count s)) = false →
  write_attempt p m s
  = (Ok tt,
     set_io_count (if _use_write_flush s then S (S (io_count s))
                   else S (io_count s))
       (set_pool (pool_set p (mkFile (f_mode f)
                                (f_pos f + length (b ++ [10%N])) false)
                    (_temp_sync_pool s))
          (set_fs (<[p := write_bytes f (b ++ [10%N]) c]> (fs s))
             (set_trace (EvWrite p (clock s) true :: trace s) s)))).
Proof.
  intros Hf Hc Hb Hfs Hio1 Hio2.
  unfold write_attempt, file_write, file_flush, pool_lookup, pool_put, fallible.
  munfold. rewrite Hf, Hc, (utf8_encode_line m b Hb), Hio1.
  destruct s; simpl in *. rewrite Hfs. simpl.
  destruct _use_write_flush0; simpl; [|done].
  rewrite pool_get_set_eq. simpl. by rewrite Hio2.
Qed.

Lemma write_with_retry_first p m f s s' :
  pool_get p (_temp_sync_pool s) = Some f → f_closed f = false →
  write_attempt p m s = (Ok tt, s') →
  write_with_retry p m s = (Ok tt, s').
Proof.
  intros Hf Hc Hw.
  unfold write_with_retry. erewrite bind_Ok by reflexivity.
  destruct (Z.ltb_spec 0 (_retry_limit s)) as [Hpos|Hzero].
  - destruct (Z.to_nat (_retry_limit s)) as [|n] eqn:En; [lia|].
    cbn [retry_loop]. erewrite (bind_Ok _ _ s true s'); [done|].
    apply try_except_Ok. by erewrite bind_Ok by exact Hw.
  - erewrite bind_Ok by reflexivity. by rewrite Hf, Hc.
Qed.

(** The first write through a fresh slot. *)
Lemma _write_to_file_fresh p m b s :
  reliable → utf8_encode m = Some b → can_write b [p] s →
  ∃ s', _write_to_file p m s = (Ok tt, s')
        ∧ line_written (b ++ [10%N]) [p] s s'.
Proof.
  intros Hrel Hb [Hfresh Hfits].
  destruct (Hfresh p) as [Hf [c Hfs]]; [by left|].
  specialize (Hfits p ltac:(by left)).
  pose proof (write_attempt_any p m b _ c s Hf eq_refl Hb Hfs
                (Hrel _) (Hrel _)) as Hw.
  eexists. split.
  - unfold _write_to_file.
    erewrite bind_Ok by apply _check_file_size_result.
    assert (match fs s !! p, utf8_encode m with
            | Some content, Some b =>
                bool_decide (_max_file_size s
                             < Z.of_nat (length content) + Z.of_nat (length b))
            | _, _ => false
            end = false) as ->.
    { unfold fits, text_of in Hfits. rewrite Hb, Hfs in *.
      apply bool_decide_eq_false. simpl in *. lia. }
    erewrite (bind_Ok (when false _)) by reflexivity.
    erewrite (bind_Ok (pool_lookup p)) by reflexivity.
    rewrite Hf. erewrite (bind_Ok (mret tt)) by reflexivity.
    by apply (write_with_retry_first p m _ s _ Hf).
  - unfold line_written, text_of.
    repeat apply conj; try (by destruct s).
    + intros q. destruct s; simpl in *.
      destruct (decide (q ∈ [p])) as [Hq|Hq].
      * apply list_elem_of_singleton in Hq as ->.
        by rewrite lookup_insert_eq, Hfs.
      * rewrite lookup_insert_ne; [done|].
        intros ->. apply Hq. by apply list_elem_of_singleton.
    + intros q Hq. destruct s; simpl in *.
      rewrite pool_get_set_ne; [done|].
      intros ->. apply Hq. by apply list_elem_of_singleton.
Qed.

Lemma line_written_nil line s : line_written line [] s s.
Proof. by repeat apply conj. Qed.

Lemma line_written_app line ps1 ps2 s s1 s2 :
  (∀ p, p ∈ ps1 → p ∉ ps2) →
  line_written line ps1 s s1 → line_written line ps2 s1 s2 →
  line_written line (ps1 ++ ps2) s s2.
Proof.
  intros Hdisj (Hfs1 & Hpool1 & Hset1 & Htp1 & Hbuf1)
    (Hfs2 & Hpool2 & Hset2 & Htp2 & Hbuf2).
  destruct (settings_inv _ _ Hset1) as (_ & Hmode & _).
  repeat apply conj; try congruence.
  - intros q. rewrite Hfs2, Hmode. unfold text_of. rewrite Hfs1.
    pose proof (elem_of_app ps1 ps2 q) as Happ. pose proof (Hdisj q) as Hq.
    repeat destruct (decide _); try done; tauto.
  - intros q Hq. rewrite Hpool2, Hpool1; [done| |];
      intros Hin; apply Hq, elem_of_app; tauto.
Qed.

(** A state that differs from [s] in the trace only is as good a start. *)
Lemma line_written_from line ps s0 s s' :
  fs s0 = fs s → _temp_sync_pool s0 = _temp_sync_pool s →
  settings s0 = settings s → _threadpool s0 = _threadpool s →
  _buffer s0 = _buffer s →
  line_written line ps s0 s' → line_written line ps s s'.
Proof.
  intros Hfs Hpool Hset Htp Hbuf (Hfs' & Hpool' & Hset' & Htp' & Hbuf').
  destruct (settings_inv _ _ Hset) as (_ & Hmode & _).
  repeat apply conj; try congruence.
  - intros q. rewrite Hfs'. by rewrite Hfs, Hmode.
  - intros q Hq. rewrite Hpool' by done. by rewrite Hpool.
Qed.

Lemma can_write_after b line ps1 ps2 s s1 :
  (∀ p, p ∈ ps1 → p ∉ ps2) →
  can_write b (ps1 ++ ps2) s → line_written line ps1 s s1 →
  can_write b ps2 s1.
Proof.
  intros Hdisj (Hfresh & Hfits) (Hfs1 & Hpool1 & Hset1 & _).
  destruct (settings_inv _ _ Hset1) as (_ & Hmode & _ & _ & _ & Hmax & _).
  assert (∀ p, p ∈ ps2 → p ∉ ps1) as Hdisj' by (intros p ? ?; by eapply Hdisj).
  split.
  - intros p Hp.
    destruct (Hfresh p) as [Hf Hsome]; [apply elem_of_app; by right|].
    rewrite Hpool1, Hmode, Hfs1 by auto.
    by rewrite decide_False by auto.
  - intros p Hp. specialize (Hfits p ltac:(apply elem_of_app; by right)).
    unfold fits, text_of in *. rewrite Hfs1, Hmax.
    by rewrite decide_False by auto.
Qed.

Lemma can_write_sub b ps ps' s :
  ps' ⊆ ps → can_write b ps s → can_write b ps' s.
Proof.
  intros Hsub (Hfresh & Hfits). split; intros p Hp; auto.
Qed.

(** Writing through the fresh slots of distinct files, one after the
    other. *)
Lemma write_all_fresh m b ps :
  reliable → utf8_encode m = Some b → NoDup ps →
  ∀ s, can_write b ps s →
    ∃ s', for_each ps (λ p, _write_to_file p m) s = (Ok tt, s')
          ∧ line_written (b ++ [10%N]) ps s s'.
Proof.
  intros Hrel Hb. induction ps as [|p ps IH]; intros Hnd s Hcan.
  { exists s. split; [done|]. apply line_written_nil. }
  apply NoDup_cons in Hnd as [Hp Hnd].
  assert (∀ q, q ∈ [p] → q ∉ ps) as Hdisj.
  { by intros q ->%list_elem_of_singleton. }
  destruct (_write_to_file_fresh p m b s Hrel Hb) as (s1 & E1 & Hadd1).
  { eapply can_write_sub; [|exact Hcan].
    intros q ->%list_elem_of_singleton. by left. }
  destruct (IH Hnd s1) as (s' & E & Hadd).
  { by apply (can_write_after b (b ++ [10%N]) [p] ps s). }
  exists s'. split.
  - cbn [for_each]. by erewrite bind_Ok by exact E1.
  - by apply (line_written_app _ [p] ps s s1 s').
Qed.

Lemma submit_batch_fresh m b batch s :
  reliable → utf8_encode m = Some b → NoDup batch →
  can_write b batch s → _shutdown (_threadpool s) = false →
  ∃ s', submit batch (_log_batch m batch) s = (Ok (Ok tt), s')
        ∧ line_written (b ++ [10%N]) batch s s'.
Proof.
  intros Hrel Hb Hnd Hcan Hrun.
  destruct (write_all_fresh m b batch Hrel Hb Hnd
              (set_trace (EvSubmit batch :: trace s) s)) as (s' & E & Hadd).
  { by destruct s. }
  exists s'. split.
  - rewrite submit_running by done. unfold run_task, _log_batch. by rewrite E.
  - apply (line_written_from _ _ (set_trace (EvSubmit batch :: trace s) s));
      try done; by destruct s.
Qed.

Lemma submit_all_fresh m b batches :
  reliable → utf8_encode m = Some b → NoDup (concat batches) →
  ∀ s, can_write b (concat batches) s → _shutdown (_threadpool s) = false →
    ∃ s' futures,
      submit_all batches id (_log_batch m) s = (Ok futures, s')
      ∧ Forall (λ xf, xf.2 = Ok tt) futures
      ∧ line_written (b ++ [10%N]) (concat batches) s s'.
Proof.
  intros Hrel Hb. induction batches as [|batch rest IH]; intros Hnd s Hcan Hrun.
  { exists s, []. split; [done|]. split; [done|]. apply line_written_nil. }
  apply NoDup_concat_cons in Hnd as (Hnd1 & Hnd2 & Hdisj).
  destruct (submit_batch_fresh m b batch s Hrel Hb Hnd1) as (s1 & E1 & Hadd1);
    [|done|].
  { eapply can_write_sub; [|exact Hcan]. simpl. intros p Hp.
    apply elem_of_app. by left. }
  destruct (IH Hnd2 s1) as (s' & futures & E & Hok & Hadd).
  { by apply (can_write_after b (b ++ [10%N]) batch (concat rest) s). }
  { destruct Hadd1 as (_ & _ & _ & -> & _). done. }
  exists s', ((batch, Ok tt) :: futures). split.
  - cbn [submit_all]. erewrite bind_Ok by exact E1.
    by erewrite bind_Ok by exact E.
  - split; [by constructor|].
    by apply (line_written_app _ batch (concat rest) s s1 s').
Qed.

Lemma _writer_handler_fresh m b s :
  reliable → utf8_encode m = Some b → NoDup (_file_paths s) →
  can_write b (_file_paths s) s →
  (50 < Z.of_nat (length (_file_paths s)) → _shutdown (_threadpool s) = false) →
  ∃ s', _writer_handler m s = (Ok tt, s')
        ∧ line_written (b ++ [10%N]) (_file_paths s) s s'.
Proof.
  intros Hrel Hb Hnd Hcan Hrun.
  destruct (Z.lt_ge_cases 50 (Z.of_nat (length (_file_paths s)))) as [Hlen|Hlen].
  - rewrite (proj1 (gc_tier_unreachable s m Hlen)).
    destruct (batcher_concat (_file_paths s) (-1) s) as (batches & Eb & Hc).
    { intros Hp. rewrite Hp in Hlen. simpl in Hlen. lia. }
    rewrite <- Hc in Hnd, Hcan.
    destruct (submit_all_fresh m b batches Hrel Hb Hnd s Hcan (Hrun Hlen))
      as (s' & futures & E & Hok & Hadd).
    exists s'. split; [|by rewrite <- Hc].
    erewrite bind_Ok by exact Eb. unfold dispatch_batches.
    erewrite bind_Ok by exact E. by apply await_all_Ok.
  - rewrite (proj1 (direct_tier s m Hlen)).
    by apply (write_all_fresh m b).
Qed.

End Modes.



(** ** Logging several messages without a buffer *)

Section Accumulate.
Context `{Platform}.

(** One unbuffered [log] in append mode, with what the next one needs. *)
Lemma log_line_step s m b :
  reliable → forallb is_whitespace m = false → utf8_encode m = Some b →
  _max_buffer_size s = 0 → _file_paths s ≠ [] → NoDup (_file_paths s) →
  can_append b (_file_paths s) s →
  (50 < Z.of_nat (length (_file_paths s)) → _shutdown (_threadpool s) = false) →
  ∃ s', log m s = (Ok tt, s')
        ∧ (∀ q, fs s' !! q = if decide (q ∈ _file_paths s)
                             then Some (text_of (fs s) q ++ b ++ [10%N])
                             else fs s !! q)
        ∧ slots_ready s' ∧ settings s' = settings s
        ∧ _threadpool s' = _threadpool s.
Proof.
  intros Hrel Hm Hb Hbuf Hpaths Hnd Hcan Hrun.
  assert (strip m ≠ []) as Hstrip.
  { intros Hs%strip_nil. congruence. }
  destruct Hcan as (Hmode & Hready & Hfits).
  destruct (_ensure_sync_pool_append s Hmode Hready)
    as (s0 & E0 & Htext & Hout & Hready0 & Hset0 & Htp0 & Hbuf0 & _).
  destruct (settings_inv _ _ Hset0) as (Hp0 & _ & _ & _ & _ & _ & _ & Hmb0 & _).
  rewrite Hbuf in Hmb0.
  destruct (_writer_handler_appends m b s0 Hrel Hb) as (s' & E & Hadd).
  { by rewrite Hp0. }
  { rewrite Hp0. by apply (can_append_after_open b _ s). }
  { rewrite Hp0, Htp0. exact Hrun. }
  rewrite Hp0 in Hadd.
  exists s'. split.
  - unfold log. destruct (strip m) as [|c t]; [done|].
    apply wrapping_Ok. erewrite bind_Ok by reflexivity.
    destruct (_file_paths s) as [|p ps] eqn:Hp; [done|].
    erewrite bind_Ok by exact E0. erewrite bind_Ok by reflexivity.
    by rewrite Hmb0.
  - split; [by apply (line_added_after_open _ _ s s0)|].
    destruct Hadd as (_ & Hready' & Hset & Htp' & _).
    repeat apply conj; [done|congruence|congruence].
Qed.

(** Several unbuffered logs, once the files are on disk. *)
Lemma logs_accumulate_on_disk ms :
  ∀ (s : state) (B : list N),
    reliable → _write_mode s = APPEND → slots_ready s →
    _file_paths s ≠ [] → NoDup (_file_paths s) →
    (50 < Z.of_nat (length (_file_paths s)) →
     _shutdown (_threadpool s) = false) →
    _max_buffer_size s = 0 →
    (∀ p, p ∈ _file_paths s → is_Some (fs s !! p)) →
    Forall (λ m, forallb is_whitespace m = false) ms →
    utf8_encode (lines ms) = Some B →
    (∀ p, p ∈ _file_paths s →
          Z.of_nat (length (text_of (fs s) p)) + Z.of_nat (length B)
          ≤ _max_file_size s + 1) →
    ∃ s', for_each ms log s = (Ok tt, s')
          ∧ (∀ q, fs s' !! q = if decide (q ∈ _file_paths s)
                               then Some (text_of (fs s) q ++ B)
                               else fs s !! q)
          ∧ settings s' = settings s.
Proof.
  induction ms as [|m ms IH];
    intros s B Hrel Hmode Hready Hp Hnd Hrun Hbuf Hdisk Hall HB Hroom.
  { injection HB as <-. exists s. split; [done|]. split; [|done].
    intros q. unfold text_of. rewrite app_nil_r.
    destruct (decide _) as [Hq|]; [|done].
    by destruct (Hdisk q Hq) as [c ->]. }
  apply Forall_cons in Hall as [Hm Hall].
  change (lines (m :: ms)) with ((m ++ [10%N]) ++ lines ms) in HB.
  destruct (utf8_encode_app_inv _ _ _ HB) as (line & B' & Hline & HB' & ->).
  destruct (utf8_encode_app_inv _ _ _ Hline) as (b & nl & Hb & Hnl & ->).
  injection Hnl as <-.
  destruct (log_line_step s m b) as (s1 & E1 & Hfs1 & Hready1 & Hset1 & Htp1);
    try done.
  { split; [done|]. split; [done|]. intros p Hin. specialize (Hroom p Hin).
    unfold fits. rewrite !length_app in Hroom. simpl in Hroom. lia. }
  destruct (settings_inv _ _ Hset1)
    as (Hp1 & Hm1 & _ & _ & _ & Hmax1 & _ & Hmb1 & _).
  assert (∀ p, p ∈ _file_paths s →
               text_of (fs s1) p = text_of (fs s) p ++ b ++ [10%N]) as Htext1.
  { intros p Hin. unfold text_of at 1. rewrite Hfs1.
    by rewrite decide_True by done. }
  destruct (IH s1 B') as (s' & E & Hfs & Hset); try done; try congruence.
  { rewrite Hp1, Htp1. exact Hrun. }
  { rewrite Hp1. intros p Hin. rewrite Hfs1. by rewrite decide_True by done. }
  { rewrite Hp1. intros p Hin. specialize (Hroom p Hin).
    rewrite Htext1, Hmax1 by done.
    rewrite !length_app in *. simpl in *. lia. }
  exists s'. split.
  - cbn [for_each]. by erewrite bind_Ok by exact E1.
  - split; [|congruence].
    intros q. rewrite Hfs, Hp1.
    destruct (decide (q ∈ _file_paths s)) as [Hin|Hout].
    + rewrite Htext1 by done. by rewrite <- !app_assoc.
    + rewrite Hfs1. by rewrite decide_False by done.
Qed.

End Accumulate.



(** ** The collector manager *)

Lemma gc_init_valid (wait_time memory_threshold : Q) g :
  GCManager.__init__ wait_time memory_threshold = GCManager.Done g →
  g = GCManager.mkManager true wait_time None None memory_threshold
  ∧ (0 <= wait_time)%Q
  ∧ (0 <= memory_threshold)%Q ∧ (memory_threshold <= 1)%Q.
Proof.
  unfold GCManager.__init__.
  destruct (Qlt_le_dec wait_time 0) as [|Hw]; [done|].
  destruct (Qle_bool 0 memory_threshold) eqn:H0; [|done].
  destruct (Qle_bool memory_threshold 1) eqn:H1; [|done].
  intros [= <-]. apply Qle_bool_iff in H0, H1. done.
Qed.



(** X26.  A [GCManager] monitors in one block only, and its exit does not
    restore the collector.  Whatever the state of the manager and of the
    interpreter, [__exit__] lets exceptions through and leaves the
    collector enabled (also when it was disabled before the block) and
    monitoring switched off.  Nothing switches monitoring on again:
    entering a second block with the same manager succeeds and disables
    the collector, but creates and starts no observer thread. *)
Theorem gc_manager_is_single_use (w : GCManager.world) (g : GCManager.manager) :
  ∃ w1 g1,
    GCManager.__exit__ (w, g) = (GCManager.Done false, (w1, g1))
    ∧ GCManager.gc_enabled w1 = true
    ∧ GCManager._monitoring g1 = false
    ∧ ∀ w2, ∃ w3,
        GCManager.__enter__ (w2, g1) = (GCManager.Done tt, (w3, g1))
        ∧ GCManager.gc_enabled w3 = false.
Proof.
  destruct g as [monitoring wait_time thread async_task threshold].
  destruct w as [enabled n used].
  assert (∀ g1, GCManager._monitoring g1 = false →
            ∀ w2, ∃ w3,
              GCManager.__enter__ (w2, g1) = (GCManager.Done tt, (w3, g1))
              ∧ GCManager.gc_enabled w3 = false) as Henter.
  { intros g1 Hoff [enabled2 n2 used2]. unfold GCManager.__enter__.
    rewrite Hoff. eexists. split; [reflexivity|].
    destruct (Qlt_le_dec _ _); by destruct enabled2. }
  unfold GCManager.__exit__.
  destruct thread as [[was_started []]|]; simpl;
    eexists _, _; (split; [reflexivity|]);
    (split; [by destruct enabled|]); (split; [done|]); by apply Henter.
Qed.
